(** * Order matching engine: shallow embedding and verified properties

    The development embeds [internal/models] (orders and trades, and the
    text forms of the enumerations), [internal/matching/engine.go] (order
    book, matching, cancellation, depth) and the handlers of
    [internal/api/server.go] that call the engine.

    Orders are Go pointers ([*models.Order]) shared between the global
    registry, the per-book index and the price levels; they are modelled as
    addresses into an explicit store so that a mutation through one handle is
    seen through all the others.  [int64] values are integers of [Z] with the
    two's-complement wrap-around of Go written out at every addition and
    subtraction.  The red-black tree of the [gods] library is modelled by its
    ordered-map contract: a list of (price, level) entries kept in comparator
    order. *)

From Stdlib Require Import ZArith Lia.
From stdpp Require Import base option list sorting gmap strings pretty.

Local Open Scope Z_scope.

(** ** 64-bit signed integers *)

Definition min_int64 : Z := - 2 ^ 63.
Definition max_int64 : Z := 2 ^ 63 - 1.

(** [z] is representable as a Go [int64]. *)
Definition int64 (z : Z) : Prop := min_int64 ≤ z ≤ max_int64.

(** Reduction of an integer to its two's-complement 64-bit value. *)
Definition wrap64 (z : Z) : Z := (z + 2 ^ 63) mod 2 ^ 64 - 2 ^ 63.

(** Go's [+] and [-] on [int64]. *)
Definition add64 (a b : Z) : Z := wrap64 (a + b).
Definition sub64 (a b : Z) : Z := wrap64 (a - b).

(** ** models: orders and trades *)

Inductive OrderStatus := Accepted | PartialFill | Filled | Cancelled.
Inductive Side := Buy | Sell.
Inductive OrderType := Limit | Market.

Global Instance OrderStatus_eq_dec : EqDecision OrderStatus.
Proof. solve_decision. Defined.
Global Instance Side_eq_dec : EqDecision Side.
Proof. solve_decision. Defined.
Global Instance OrderType_eq_dec : EqDecision OrderType.
Proof. solve_decision. Defined.

Record Order := mkOrder {
  ID : string;
  Symbol : string;
  Side_ : Side;
  Type_ : OrderType;
  Price : Z;
  OriginalQuantity : Z;
  RemainingQuantity : Z;
  FilledQuantity : Z;
  Status : OrderStatus;
  Timestamp : Z
}.

(** [NewOrder]; the clock reading [now] stands for [time.Now().UnixNano()]. *)
Definition NewOrder (id symbol : string) (side : Side) (orderType : OrderType)
    (price quantity now : Z) : Order :=
  {| ID := id; Symbol := symbol; Side_ := side; Type_ := orderType;
     Price := price; OriginalQuantity := quantity;
     RemainingQuantity := quantity; FilledQuantity := 0;
     Status := Accepted; Timestamp := now |}.

(** Field updates of an order, as the assignments [o.F = v] of the source. *)
Definition set_Status (s : OrderStatus) (o : Order) : Order :=
  {| ID := ID o; Symbol := Symbol o; Side_ := Side_ o; Type_ := Type_ o;
     Price := Price o; OriginalQuantity := OriginalQuantity o;
     RemainingQuantity := RemainingQuantity o;
     FilledQuantity := FilledQuantity o;
     Status := s; Timestamp := Timestamp o |}.

Definition set_RemainingQuantity (q : Z) (o : Order) : Order :=
  {| ID := ID o; Symbol := Symbol o; Side_ := Side_ o; Type_ := Type_ o;
     Price := Price o; OriginalQuantity := OriginalQuantity o;
     RemainingQuantity := q;
     FilledQuantity := FilledQuantity o;
     Status := Status o; Timestamp := Timestamp o |}.

Definition set_FilledQuantity (q : Z) (o : Order) : Order :=
  {| ID := ID o; Symbol := Symbol o; Side_ := Side_ o; Type_ := Type_ o;
     Price := Price o; OriginalQuantity := OriginalQuantity o;
     RemainingQuantity := RemainingQuantity o;
     FilledQuantity := q;
     Status := Status o; Timestamp := Timestamp o |}.

(** The errors of the engine.  The source builds them with [fmt.Errorf]; the
    constructors keep the values the messages are formatted from. *)
Inductive Error :=
| ErrInvalidPrice       (* "invalid price: must be positive for limit orders" *)
| ErrInvalidQuantity    (* "invalid quantity: must be positive" *)
| ErrInsufficientLiquidity (available requested : Z)
                        (* "insufficient liquidity: only %d shares available, requested %d" *)
| ErrNotFound           (* "order not found" *)
| ErrAlreadyFilled.     (* "cannot cancel: order already filled" *)

(** [Order.Validate]: [None] is the nil error. *)
Definition Validate (o : Order) : option Error :=
  if bool_decide (Type_ o = Limit) && (Price o <=? 0) then Some ErrInvalidPrice
  else if OriginalQuantity o <=? 0 then Some ErrInvalidQuantity
  else None.

Record Trade := mkTrade {
  TradeID : string;
  BuyerOrderID : string;
  SellerOrderID : string;
  TradePrice : Z;
  Quantity : Z;
  TradeTimestamp : Z
}.

Definition NewTrade (id buyerOrderID sellerOrderID : string)
    (price quantity now : Z) : Trade :=
  {| TradeID := id; BuyerOrderID := buyerOrderID;
     SellerOrderID := sellerOrderID; TradePrice := price;
     Quantity := quantity; TradeTimestamp := now |}.

(** ** models: the text forms of the enumerations

    [OrderStatus], [Side] and [OrderType] are Go integer types with named
    constants.  The [default] branch of their [String] methods, the text
    UNKNOWN, is for integers that are none of the constants; the types of the
    embedding have the constants only.  Byte slices are strings. *)

Definition OrderStatus_String (os : OrderStatus) : string :=
  match os with
  | Accepted => "ACCEPTED"
  | PartialFill => "PARTIAL_FILL"
  | Filled => "FILLED"
  | Cancelled => "CANCELLED"
  end.

Definition Side_String (s : Side) : string :=
  match s with
  | Buy => "BUY"
  | Sell => "SELL"
  end.

Definition OrderType_String (ot : OrderType) : string :=
  match ot with
  | Limit => "LIMIT"
  | Market => "MARKET"
  end.

(** The byte of the double quote. *)
Definition quote : Ascii.ascii := Ascii.ascii_of_nat 34.

(** [MarshalJSON]: the text between double quotes; the error is always
    nil. *)
Definition quoted (str : string) : string :=
  String quote (str +:+ String quote EmptyString).

Definition OrderStatus_MarshalJSON (os : OrderStatus) : string :=
  quoted (OrderStatus_String os).

Definition Side_MarshalJSON (s : Side) : string := quoted (Side_String s).

Definition OrderType_MarshalJSON (ot : OrderType) : string :=
  quoted (OrderType_String ot).

(** The first step of the two [UnmarshalJSON]: a text of at least two bytes
    that begins and ends with a double quote loses both,
    [str[1 : len(str)-1]]. *)
Definition unquote (str : string) : string :=
  if (2 <=? String.length str)%nat
     && bool_decide (String.get 0 str = Some quote)
     && bool_decide (String.get (String.length str - 1) str = Some quote)
  then String.substring 1 (String.length str - 2) str
  else str.

(** [UnmarshalJSON] on a receiver that holds [s]: what the receiver holds
    afterwards, and the message of the error, if any. *)
Definition Side_UnmarshalJSON (data : string) (s : Side)
    : Side * option string :=
  let str := unquote data in
  if decide (str = "BUY") then (Buy, None)
  else if decide (str = "SELL") then (Sell, None)
  else (s, Some ("unknown side: " +:+ str)).

Definition OrderType_UnmarshalJSON (data : string) (ot : OrderType)
    : OrderType * option string :=
  let str := unquote data in
  if decide (str = "LIMIT") then (Limit, None)
  else if decide (str = "MARKET") then (Market, None)
  else (ot, Some ("unknown order type: " +:+ str)).

(** The message of an error, [err.Error()]; [%d] prints an [int64] in
    decimal. *)
Definition Error_message (err : Error) : string :=
  match err with
  | ErrInvalidPrice => "invalid price: must be positive for limit orders"
  | ErrInvalidQuantity => "invalid quantity: must be positive"
  | ErrInsufficientLiquidity available requested =>
      "insufficient liquidity: only " +:+ pretty available
        +:+ " shares available, requested " +:+ pretty requested
  | ErrNotFound => "order not found"
  | ErrAlreadyFilled => "cannot cancel: order already filled"
  end.

(** ** The store of orders

    A [*models.Order] is an address; the store maps addresses to the current
    contents of the orders.  [NewOrder] allocates at the end of the store. *)

Abbreviation ptr := nat (only parsing).
Abbreviation Store := (list Order) (only parsing).

Definition zero_Order : Order :=
  {| ID := ""; Symbol := ""; Side_ := Buy; Type_ := Limit; Price := 0;
     OriginalQuantity := 0; RemainingQuantity := 0; FilledQuantity := 0;
     Status := Accepted; Timestamp := 0 |}.

(** Reading through a pointer.  Every pointer the engine holds designates an
    allocated order, so the default is never read on the engine's states. *)
Definition deref (h : Store) (p : ptr) : Order := default zero_Order (h !! p).

(** Writing through a pointer. *)
Definition update (h : Store) (p : ptr) (f : Order → Order) : Store :=
  <[p := f (deref h p)]> h.

(** ** The ordered map of price levels *)

Abbreviation PriceLevel := (list ptr) (only parsing).
Abbreviation Tree := (list (Z * PriceLevel)) (only parsing).
Definition Comparator := Z → Z → comparison.

Definition Int64Comparator : Comparator := fun a b => (a ?= b).
(** The comparator of the bids: the reverse comparison. *)
Definition ReverseComparator : Comparator := fun a b => Int64Comparator b a.

Fixpoint tree_Get (cmp : Comparator) (k : Z) (t : Tree) : option PriceLevel :=
  match t with
  | [] => None
  | (k', v) :: r =>
      match cmp k k' with
      | Eq => Some v
      | _ => tree_Get cmp k r
      end
  end.

Fixpoint tree_Put (cmp : Comparator) (k : Z) (v : PriceLevel) (t : Tree) : Tree :=
  match t with
  | [] => [(k, v)]
  | (k', v') :: r =>
      match cmp k k' with
      | Lt => (k, v) :: (k', v') :: r
      | Eq => (k, v) :: r
      | Gt => (k', v') :: tree_Put cmp k v r
      end
  end.

Fixpoint tree_Remove (cmp : Comparator) (k : Z) (t : Tree) : Tree :=
  match t with
  | [] => []
  | (k', v') :: r =>
      match cmp k k' with
      | Eq => r
      | _ => (k', v') :: tree_Remove cmp k r
      end
  end.

Definition tree_Empty (t : Tree) : bool :=
  match t with [] => true | _ => false end.

(** [Left()]: the first node in comparator order. *)
Definition tree_Left (t : Tree) : option (Z * PriceLevel) := head t.

(** ** OrderBook *)

Record OrderBook := mkOrderBook {
  BookSymbol : string;
  Bids : Tree;
  Asks : Tree;
  Orders : gmap string ptr
}.

Definition NewOrderBook (symbol : string) : OrderBook :=
  {| BookSymbol := symbol; Bids := []; Asks := []; Orders := ∅ |}.

(** The tree of a side, its comparator, and the assignment to it. *)
Definition side_tree (s : Side) (ob : OrderBook) : Tree :=
  match s with Buy => Bids ob | Sell => Asks ob end.

Definition side_cmp (s : Side) : Comparator :=
  match s with Buy => ReverseComparator | Sell => Int64Comparator end.

Definition set_side_tree (s : Side) (t : Tree) (ob : OrderBook) : OrderBook :=
  match s with
  | Buy => {| BookSymbol := BookSymbol ob; Bids := t; Asks := Asks ob;
              Orders := Orders ob |}
  | Sell => {| BookSymbol := BookSymbol ob; Bids := Bids ob; Asks := t;
               Orders := Orders ob |}
  end.

Definition set_Orders (m : gmap string ptr) (ob : OrderBook) : OrderBook :=
  {| BookSymbol := BookSymbol ob; Bids := Bids ob; Asks := Asks ob;
     Orders := m |}.

Definition AddOrder (h : Store) (order : ptr) (ob : OrderBook) : OrderBook :=
  let o := deref h order in
  match Orders ob !! ID o with
  | Some _ => ob
  | None =>
      let ob1 := set_Orders (<[ID o := order]> (Orders ob)) ob in
      let cmp := side_cmp (Side_ o) in
      let tree := side_tree (Side_ o) ob1 in
      match tree_Get cmp (Price o) tree with
      | None => set_side_tree (Side_ o) (tree_Put cmp (Price o) [order] tree) ob1
      | Some existingLevel =>
          set_side_tree (Side_ o)
            (tree_Put cmp (Price o) (existingLevel ++ [order]) tree) ob1
      end
  end.

(** The loop of [RemoveOrder] over a level: drop the first order with the id. *)
Fixpoint level_remove (h : Store) (orderID : string) (l : PriceLevel) : PriceLevel :=
  match l with
  | [] => []
  | o :: r =>
      if bool_decide (ID (deref h o) = orderID) then r
      else o :: level_remove h orderID r
  end.

Definition RemoveOrder (h : Store) (orderID : string) (ob : OrderBook)
    : option ptr * OrderBook :=
  match Orders ob !! orderID with
  | None => (None, ob)
  | Some order =>
      let o := deref h order in
      let ob1 := set_Orders (delete orderID (Orders ob)) ob in
      let cmp := side_cmp (Side_ o) in
      let tree := side_tree (Side_ o) ob1 in
      match tree_Get cmp (Price o) tree with
      | None => (Some order, ob1)
      | Some level =>
          let priceLevel := level_remove h orderID level in
          if bool_decide (priceLevel = []) then
            (Some order, set_side_tree (Side_ o) (tree_Remove cmp (Price o) tree) ob1)
          else
            (Some order,
             set_side_tree (Side_ o) (tree_Put cmp (Price o) priceLevel tree) ob1)
      end
  end.

(** [GetBestBid] and [GetBestAsk]: the head order of the first level. *)
Definition GetBest (s : Side) (ob : OrderBook) : option ptr :=
  match tree_Left (side_tree s ob) with
  | None => None
  | Some (_, priceLevel) => head priceLevel
  end.

Definition GetBestBid (ob : OrderBook) : option ptr := GetBest Buy ob.
Definition GetBestAsk (ob : OrderBook) : option ptr := GetBest Sell ob.

(** The side an incoming order consumes. *)
Definition opposite (s : Side) : Side :=
  match s with Buy => Sell | Sell => Buy end.

(** [CalculateLiquidity]: the nested loops with their early [return];
    [inl v] is a [return v] from inside a loop, [inr a] the accumulator when
    the loop runs to its end. *)
Fixpoint liquidity_level (h : Store) (maxNeeded : Z) (l : PriceLevel)
    (available : Z) : Z + Z :=
  match l with
  | [] => inr available
  | order :: r =>
      let available := add64 available (RemainingQuantity (deref h order)) in
      if maxNeeded <=? available then inl available
      else liquidity_level h maxNeeded r available
  end.

Fixpoint liquidity_tree (h : Store) (maxNeeded : Z) (t : Tree)
    (available : Z) : Z :=
  match t with
  | [] => available
  | (_, priceLevel) :: r =>
      match liquidity_level h maxNeeded priceLevel available with
      | inl v => v
      | inr available => liquidity_tree h maxNeeded r available
      end
  end.

Definition CalculateLiquidity (h : Store) (side : Side) (maxNeeded : Z)
    (ob : OrderBook) : Z :=
  let tree := side_tree (opposite side) ob in
  if tree_Empty tree then 0 else liquidity_tree h maxNeeded tree 0.

(** [GetDepth] *)

Record PriceLevelData := mkPriceLevelData {
  LevelPrice : Z;
  LevelQuantity : Z
}.

Record OrderBookDepth := mkOrderBookDepth {
  DepthSymbol : string;
  DepthTimestamp : Z;
  DepthBids : list PriceLevelData;
  DepthAsks : list PriceLevelData
}.

(** The inner loop: [totalQuantity += order.RemainingQuantity]. *)
Fixpoint level_total (h : Store) (l : PriceLevel) (totalQuantity : Z) : Z :=
  match l with
  | [] => totalQuantity
  | order :: r =>
      level_total h r (add64 totalQuantity (RemainingQuantity (deref h order)))
  end.

(** The loop over one side.  [count] is a Go [int] raised by one per level; it
    stays below the number of levels, so it is kept in [Z]. *)
Fixpoint depth_side (h : Store) (depthLimit : Z) (t : Tree) (count : Z)
    (acc : list PriceLevelData) : list PriceLevelData :=
  match t with
  | [] => acc
  | (price, priceLevel) :: r =>
      if (0 <? depthLimit) && (depthLimit <=? count) then acc
      else
        depth_side h depthLimit r (count + 1)
          (acc ++ [ {| LevelPrice := price;
                       LevelQuantity := level_total h priceLevel 0 |} ])
  end.

(** [now] is the reading [time.Now().UnixNano()]; the division by
    [int64(time.Millisecond)] truncates as Go's does. *)
Definition GetDepth (h : Store) (now : Z) (depthLimit : Z) (ob : OrderBook)
    : OrderBookDepth :=
  {| DepthSymbol := BookSymbol ob;
     DepthTimestamp := Z.quot now 1000000;
     DepthBids := depth_side h depthLimit (Bids ob) 0 [];
     DepthAsks := depth_side h depthLimit (Asks ob) 0 [] |}.

(** ** Metrics

    The counters of [metrics.Metrics].  Each moves by one per call (or by the
    number of trades of one call), so none can reach 2^63 in a run; they are
    kept in [Z].  The latency total depends on wall-clock durations and is left
    out. *)

Record Metrics := mkMetrics {
  OrdersReceived : Z;
  OrdersMatched : Z;
  OrdersCancelled : Z;
  OrdersInBook : Z;
  TradesExecuted : Z
}.

Definition NewMetrics : Metrics :=
  {| OrdersReceived := 0; OrdersMatched := 0; OrdersCancelled := 0;
     OrdersInBook := 0; TradesExecuted := 0 |}.

Definition IncOrdersReceived (m : Metrics) : Metrics :=
  {| OrdersReceived := OrdersReceived m + 1; OrdersMatched := OrdersMatched m;
     OrdersCancelled := OrdersCancelled m; OrdersInBook := OrdersInBook m;
     TradesExecuted := TradesExecuted m |}.

Definition IncOrdersMatched (count : Z) (m : Metrics) : Metrics :=
  {| OrdersReceived := OrdersReceived m; OrdersMatched := OrdersMatched m + count;
     OrdersCancelled := OrdersCancelled m; OrdersInBook := OrdersInBook m;
     TradesExecuted := TradesExecuted m |}.

Definition IncOrdersCancelled (m : Metrics) : Metrics :=
  {| OrdersReceived := OrdersReceived m; OrdersMatched := OrdersMatched m;
     OrdersCancelled := OrdersCancelled m + 1; OrdersInBook := OrdersInBook m;
     TradesExecuted := TradesExecuted m |}.

Definition IncOrdersInBook (m : Metrics) : Metrics :=
  {| OrdersReceived := OrdersReceived m; OrdersMatched := OrdersMatched m;
     OrdersCancelled := OrdersCancelled m; OrdersInBook := OrdersInBook m + 1;
     TradesExecuted := TradesExecuted m |}.

Definition DecOrdersInBook (m : Metrics) : Metrics :=
  {| OrdersReceived := OrdersReceived m; OrdersMatched := OrdersMatched m;
     OrdersCancelled := OrdersCancelled m; OrdersInBook := OrdersInBook m + -1;
     TradesExecuted := TradesExecuted m |}.

Definition IncTradesExecuted (count : Z) (m : Metrics) : Metrics :=
  {| OrdersReceived := OrdersReceived m; OrdersMatched := OrdersMatched m;
     OrdersCancelled := OrdersCancelled m; OrdersInBook := OrdersInBook m;
     TradesExecuted := TradesExecuted m + count |}.

(** ** Engine *)

Record MatchResult := mkMatchResult {
  ResultOrder : ptr;
  Trades : list Trade
}.

Inductive Result (A : Type) :=
| Ok (a : A)
| Err (err : Error).
Arguments Ok {A} a.
Arguments Err {A} err.

(** The engine with the store its pointers live in, and the number of
    readings taken so far from the id source and the clock. *)
Record Engine := mkEngine {
  OrderBooks : gmap string OrderBook;
  AllOrders : gmap string ptr;
  metrics : Metrics;
  store : Store;
  draws : nat
}.

Definition NewEngine : Engine :=
  {| OrderBooks := ∅; AllOrders := ∅; metrics := NewMetrics;
     store := []; draws := 0%nat |}.

Definition set_OrderBooks (b : gmap string OrderBook) (e : Engine) : Engine :=
  {| OrderBooks := b; AllOrders := AllOrders e; metrics := metrics e;
     store := store e; draws := draws e |}.

Definition set_AllOrders (a : gmap string ptr) (e : Engine) : Engine :=
  {| OrderBooks := OrderBooks e; AllOrders := a; metrics := metrics e;
     store := store e; draws := draws e |}.

Definition set_metrics (m : Metrics) (e : Engine) : Engine :=
  {| OrderBooks := OrderBooks e; AllOrders := AllOrders e; metrics := m;
     store := store e; draws := draws e |}.

Definition set_store (h : Store) (e : Engine) : Engine :=
  {| OrderBooks := OrderBooks e; AllOrders := AllOrders e; metrics := metrics e;
     store := h; draws := draws e |}.

(** [getOrderBook]: the book of a symbol, created on first use. *)
Definition getOrderBook (symbol : string) (e : Engine) : OrderBook * Engine :=
  match OrderBooks e !! symbol with
  | Some ob => (ob, e)
  | None =>
      let ob := NewOrderBook symbol in
      (ob, set_OrderBooks (<[symbol := ob]> (OrderBooks e)) e)
  end.

(** What matching works on while the book is locked: the store, the locked
    book, the metrics and the environment counter. *)
Record World := mkWorld {
  mem : Store;
  book : OrderBook;
  mtr : Metrics;
  clock : nat
}.

Definition getBuyerOrderID (o1 o2 : Order) : string :=
  if bool_decide (Side_ o1 = Buy) then ID o1 else ID o2.

Definition getSellerOrderID (o1 o2 : Order) : string :=
  if bool_decide (Side_ o1 = Sell) then ID o1 else ID o2.

(** The orders resting in a tree, in iteration order: level after level,
    each level from its head. *)
Definition resting (t : Tree) : list ptr := concat (t.*2).

Section Engine.

(** The environment: [uuid.New().String()] and [time.Now().UnixNano()], as
    functions of the number of readings taken before. *)
Variable uuid_New : nat → string.
Variable time_Now : nat → Z.

Definition executeTrade (incomingOrder bookOrder : ptr) (w : World)
    : Trade * World :=
  let h := mem w in
  let tradeQuantity :=
    if RemainingQuantity (deref h bookOrder)
         <? RemainingQuantity (deref h incomingOrder)
    then RemainingQuantity (deref h bookOrder)
    else RemainingQuantity (deref h incomingOrder) in
  let tradePrice := Price (deref h bookOrder) in
  let trade :=
    NewTrade (uuid_New (clock w))
      (getBuyerOrderID (deref h incomingOrder) (deref h bookOrder))
      (getSellerOrderID (deref h incomingOrder) (deref h bookOrder))
      tradePrice tradeQuantity (time_Now (clock w)) in
  (* Update Incoming Order *)
  let h := update h incomingOrder
             (fun o => set_RemainingQuantity
                         (sub64 (RemainingQuantity o) tradeQuantity) o) in
  let h := update h incomingOrder
             (fun o => set_FilledQuantity
                         (add64 (FilledQuantity o) tradeQuantity) o) in
  (* Update Book Order *)
  let h := update h bookOrder
             (fun o => set_RemainingQuantity
                         (sub64 (RemainingQuantity o) tradeQuantity) o) in
  let h := update h bookOrder
             (fun o => set_FilledQuantity
                         (add64 (FilledQuantity o) tradeQuantity) o) in
  if RemainingQuantity (deref h bookOrder) =? 0 then
    let h := update h bookOrder (set_Status Filled) in
    let ob := (RemoveOrder h (ID (deref h bookOrder)) (book w)).2 in
    (trade, {| mem := h; book := ob; mtr := DecOrdersInBook (mtr w);
               clock := S (clock w) |})
  else
    let h := update h bookOrder (set_Status PartialFill) in
    (trade, {| mem := h; book := book w; mtr := mtr w;
               clock := S (clock w) |}).

(** The matching loop shared by the four loops of [processLimitOrder] and
    [processMarketOrder]: [resting] is the side consumed, [stop] the price
    test that breaks the loop.  The loop is bounded by [fuel]; [None] is a run
    that does not return: out of fuel, or the nil best order dereferenced. *)
Fixpoint match_loop (fuel : nat) (stop : Order → Order → bool)
    (restingSide : Side) (order : ptr) (w : World) (trades : list Trade)
    : option (list Trade * World) :=
  match fuel with
  | O => None
  | S fuel' =>
      if (0 <? RemainingQuantity (deref (mem w) order))
         && negb (tree_Empty (side_tree restingSide (book w)))
      then
        match GetBest restingSide (book w) with
        | None => None
        | Some best =>
            if stop (deref (mem w) order) (deref (mem w) best)
            then Some (trades, w)
            else
              let '(trade, w') := executeTrade order best w in
              match_loop fuel' stop restingSide order w' (trades ++ [trade])
        end
      else Some (trades, w)
  end.

(** Every turn of a loop but the last takes a resting order out of the side
    consumed, which bounds the number of turns. *)
Definition loop_bound (restingSide : Side) (w : World) : nat :=
  S (length (resting (side_tree restingSide (book w)))).

Definition processLimitOrder (order : ptr) (w : World)
    : option (list Trade * World) :=
  match Side_ (deref (mem w) order) with
  | Buy =>
      match_loop (loop_bound Sell w)
        (fun o bestAsk => Price o <? Price bestAsk) Sell order w []
  | Sell =>
      match_loop (loop_bound Buy w)
        (fun o bestBid => Price o >? Price bestBid) Buy order w []
  end.

Definition processMarketOrder (order : ptr) (w : World)
    : option (list Trade * World) :=
  match Side_ (deref (mem w) order) with
  | Buy => match_loop (loop_bound Sell w) (fun _ _ => false) Sell order w []
  | Sell => match_loop (loop_bound Buy w) (fun _ _ => false) Buy order w []
  end.

(** The status update and the resting step that end [ProcessOrder]. *)
Definition finalize (order : ptr) (w : World) : World :=
  let h := mem w in
  let h :=
    if 0 <? FilledQuantity (deref h order) then
      if RemainingQuantity (deref h order) =? 0
      then update h order (set_Status Filled)
      else update h order (set_Status PartialFill)
    else update h order (set_Status Accepted) in
  if 0 <? RemainingQuantity (deref h order) then
    match Type_ (deref h order) with
    | Market =>
        {| mem := h; book := book w; mtr := mtr w; clock := clock w |}
    | Limit =>
        {| mem := h; book := AddOrder h order (book w);
           mtr := IncOrdersInBook (mtr w); clock := clock w |}
    end
  else
    {| mem := update h order (set_Status Filled); book := book w;
       mtr := mtr w; clock := clock w |}.

Definition ProcessOrder (order : ptr) (e : Engine)
    : option (Engine * Result MatchResult) :=
  let e := set_metrics (IncOrdersReceived (metrics e)) e in
  let o := deref (store e) order in
  match Validate o with
  | Some err => Some (e, Err err)
  | None =>
      let e := set_AllOrders (<[ID o := order]> (AllOrders e)) e in
      let '(ob, e) := getOrderBook (Symbol o) e in
      (* check liquidity for Market Orders *)
      let rejected :=
        match Type_ o with
        | Market =>
            let available :=
              CalculateLiquidity (store e) (Side_ o) (OriginalQuantity o) ob in
            if available <? OriginalQuantity o then Some available else None
        | Limit => None
        end in
      match rejected with
      | Some available =>
          Some (set_AllOrders (delete (ID o) (AllOrders e)) e,
                Err (ErrInsufficientLiquidity available (OriginalQuantity o)))
      | None =>
          let w := {| mem := store e; book := ob; mtr := metrics e;
                      clock := draws e |} in
          match (match Type_ o with
                 | Limit => processLimitOrder order w
                 | Market => processMarketOrder order w
                 end) with
          | None => None
          | Some (trades, w) =>
              let tradeCount := Z.of_nat (length trades) in
              let m := IncTradesExecuted tradeCount (mtr w) in
              let m := if 0 <? tradeCount
                       then IncOrdersMatched (tradeCount + 1) m else m in
              let w := finalize order
                         {| mem := mem w; book := book w; mtr := m;
                            clock := clock w |} in
              Some ({| OrderBooks := <[Symbol o := book w]> (OrderBooks e);
                       AllOrders := AllOrders e; metrics := mtr w;
                       store := mem w; draws := clock w |},
                    Ok {| ResultOrder := order; Trades := trades |})
          end
      end
  end.

Definition CancelOrder (orderID : string) (e : Engine)
    : Engine * Result ptr :=
  match AllOrders e !! orderID with
  | None => (e, Err ErrNotFound)
  | Some order =>
      if bool_decide (Status (deref (store e) order) = Filled)
      then (e, Err ErrAlreadyFilled)
      else if bool_decide (Status (deref (store e) order) = Cancelled)
      then (e, Ok order)
      else
        let symbol := Symbol (deref (store e) order) in
        let '(ob, e) := getOrderBook symbol e in
        (* the status is read again once the book is locked *)
        if bool_decide (Status (deref (store e) order) = Filled)
        then (e, Err ErrAlreadyFilled)
        else
          match RemoveOrder (store e) orderID ob with
          | (Some removedOrder, ob) =>
              ({| OrderBooks := <[symbol := ob]> (OrderBooks e);
                  AllOrders := AllOrders e;
                  metrics := DecOrdersInBook (IncOrdersCancelled (metrics e));
                  store := update (store e) removedOrder (set_Status Cancelled);
                  draws := draws e |},
               Ok removedOrder)
          | (None, ob) =>
              ({| OrderBooks := <[symbol := ob]> (OrderBooks e);
                  AllOrders := AllOrders e;
                  metrics := IncOrdersCancelled (metrics e);
                  store := update (store e) order (set_Status Cancelled);
                  draws := draws e |},
               Ok order)
          end
  end.

Definition GetOrder (orderID : string) (e : Engine) : Result ptr :=
  match AllOrders e !! orderID with
  | None => Err ErrNotFound
  | Some order => Ok order
  end.

Definition GetOrderBookDepth (symbol : string) (depthLimit : Z) (e : Engine)
    : Engine * OrderBookDepth :=
  let '(ob, e) := getOrderBook symbol e in
  ({| OrderBooks := OrderBooks e; AllOrders := AllOrders e;
      metrics := metrics e; store := store e; draws := S (draws e) |},
   GetDepth (store e) (time_Now (draws e)) depthLimit ob).

(** A submission as the callers of the engine make it ([handleCreateOrder] and
    the tests): a new order from [NewOrder], then [ProcessOrder]. *)
Definition submit (id symbol : string) (side : Side) (orderType : OrderType)
    (price quantity : Z) (e : Engine) : option (Engine * Result MatchResult) :=
  let order := length (store e) in
  ProcessOrder order
    {| OrderBooks := OrderBooks e; AllOrders := AllOrders e;
       metrics := metrics e;
       store := store e ++ [NewOrder id symbol side orderType price quantity
                              (time_Now (draws e))];
       draws := S (draws e) |}.

(** Sequences of operations on an engine. *)
Inductive Request :=
| Submit (id symbol : string) (side : Side) (orderType : OrderType)
         (price quantity : Z)
| Cancel (orderID : string)
| Depth (symbol : string) (depthLimit : Z).

Definition step (r : Request) (e : Engine) : option Engine :=
  match r with
  | Submit id symbol side orderType price quantity =>
      fst <$> submit id symbol side orderType price quantity e
  | Cancel orderID => Some (CancelOrder orderID e).1
  | Depth symbol depthLimit => Some (GetOrderBookDepth symbol depthLimit e).1
  end.

Fixpoint run (rs : list Request) (e : Engine) : option Engine :=
  match rs with
  | [] => Some e
  | r :: rs' =>
      match step r e with
      | None => None
      | Some e' => run rs' e'
      end
  end.

(** The prices and quantities of a request are [int64] values. *)
Definition request_ok (r : Request) : Prop :=
  match r with
  | Submit _ _ _ _ price quantity => int64 price ∧ int64 quantity
  | Cancel _ | Depth _ _ => True
  end.

(** The states an engine goes through, starting from [NewEngine]. *)
Definition reachable (e : Engine) : Prop :=
  ∃ rs, Forall request_ok rs ∧ run rs NewEngine = Some e.



(** ** api: the handlers of the server

    The handlers as functions of the engine: the body of a request is what
    [json.Unmarshal] decodes it to, [None] when it fails; a response is the
    status code and the value that [writeJSON] encodes.  The id of a new
    order is a draw from [uuid.New], as the ids of the trades are. *)

Variable strconv_Atoi : string → option Z.

Record CreateOrderRequest := mkCreateOrderRequest {
  ReqSymbol : string;
  ReqSide : Side;
  ReqType : OrderType;
  ReqPrice : Z;
  ReqQuantity : Z
}.

Record TradeResponse := mkTradeResponse {
  RespTradeID : string;
  RespTradePrice : Z;
  RespTradeQuantity : Z;
  RespTradeTimestamp : Z
}.

Record CreateOrderResponse := mkCreateOrderResponse {
  RespOrderID : string;
  RespStatus : string;
  RespMessage : string;
  RespFilledQuantity : Z;
  RespRemainingQuantity : Z;
  RespTrades : list TradeResponse
}.

Record CancelOrderResponse := mkCancelOrderResponse {
  CancelRespOrderID : string;
  CancelRespStatus : string
}.

Record GetOrderResponse := mkGetOrderResponse {
  GetRespOrderID : string;
  GetRespSymbol : string;
  GetRespSide : Side;
  GetRespType : OrderType;
  GetRespPrice : Z;
  GetRespQuantity : Z;
  GetRespFilledQuantity : Z;
  GetRespStatus : string;
  GetRespTimestamp : Z
}.

(** The values the handlers hand to [writeJSON]. *)
Inductive Body :=
| ErrorBody (error : string)          (* map[string]string{"error": ...} *)
| CreateBody (response : CreateOrderResponse)
| CancelBody (response : CancelOrderResponse)
| OrderBody (response : GetOrderResponse)
| DepthBody (depth : OrderBookDepth).

Definition StatusOK : Z := 200.
Definition StatusCreated : Z := 201.
Definition StatusAccepted : Z := 202.
Definition StatusBadRequest : Z := 400.
Definition StatusNotFound : Z := 404.

Definition tradeResponse (trade : Trade) : TradeResponse :=
  {| RespTradeID := TradeID trade; RespTradePrice := TradePrice trade;
     RespTradeQuantity := Quantity trade;
     RespTradeTimestamp := TradeTimestamp trade |}.

Definition handleCreateOrder (body : option CreateOrderRequest) (e : Engine)
    : option (Engine * (Z * Body)) :=
  match body with
  | None => Some (e, (StatusBadRequest, ErrorBody "invalid request body"))
  | Some req =>
      let id := uuid_New (draws e) in
      let e := {| OrderBooks := OrderBooks e; AllOrders := AllOrders e;
                  metrics := metrics e; store := store e;
                  draws := S (draws e) |} in
      match submit id (ReqSymbol req) (ReqSide req) (ReqType req)
              (ReqPrice req) (ReqQuantity req) e with
      | None => None
      | Some (e, Err err) =>
          (* both branches of the test on the message write the same *)
          Some (e, (StatusBadRequest, ErrorBody (Error_message err)))
      | Some (e, Ok result) =>
          let order := deref (store e) (ResultOrder result) in
          let trades :=
            if (0 <? length (Trades result))%nat
            then tradeResponse <$> Trades result else [] in
          let response message filled remaining :=
            {| RespOrderID := ID order;
               RespStatus := OrderStatus_String (Status order);
               RespMessage := message; RespFilledQuantity := filled;
               RespRemainingQuantity := remaining; RespTrades := trades |} in
          match Status order with
          | Accepted =>
              Some (e, (StatusCreated,
                        CreateBody (response "Order added to book" 0 0)))
          | PartialFill =>
              Some (e, (StatusAccepted,
                        CreateBody (response "" (FilledQuantity order)
                                      (RemainingQuantity order))))
          | Filled =>
              Some (e, (StatusOK,
                        CreateBody (response "" (FilledQuantity order) 0)))
          | Cancelled => Some (e, (StatusOK, CreateBody (response "" 0 0)))
          end
      end
  end.

Definition handleCancelOrder (orderID : string) (e : Engine)
    : Engine * (Z * Body) :=
  match CancelOrder orderID e with
  | (e, Err err) =>
      if decide (Error_message err = "cannot cancel: order already filled")
      then (e, (StatusBadRequest, ErrorBody (Error_message err)))
      else if decide (Error_message err = "order not found")
      then (e, (StatusNotFound, ErrorBody "Order not found"))
      else (e, (StatusBadRequest, ErrorBody (Error_message err)))
  | (e, Ok order) =>
      let o := deref (store e) order in
      (e, (StatusOK,
           CancelBody {| CancelRespOrderID := ID o;
                         CancelRespStatus := OrderStatus_String (Status o) |}))
  end.

(** [depthParam] is the query argument [depth], empty when absent.
    [GetOrderBookDepth] returns no error, so the handler always writes the
    depth. *)
Definition handleGetOrderBook (symbol depthParam : string) (e : Engine)
    : Engine * (Z * Body) :=
  let depthVal :=
    if decide (depthParam = "") then 0
    else match strconv_Atoi depthParam with
         | Some n => n
         | None => 0
         end in
  let '(e, depth) := GetOrderBookDepth symbol depthVal e in
  (e, (StatusOK, DepthBody depth)).

Definition handleGetOrder (orderID : string) (e : Engine) : Z * Body :=
  match GetOrder orderID e with
  | Err _ => (StatusNotFound, ErrorBody "Order not found")
  | Ok order =>
      let o := deref (store e) order in
      (StatusOK,
       OrderBody {| GetRespOrderID := ID o; GetRespSymbol := Symbol o;
                    GetRespSide := Side_ o; GetRespType := Type_ o;
                    GetRespPrice := Price o;
                    GetRespQuantity := OriginalQuantity o;
                    GetRespFilledQuantity := FilledQuantity o;
                    GetRespStatus := OrderStatus_String (Status o);
                    GetRespTimestamp := Timestamp o |})
  end.

(** The calls the router hands to the handlers of the engine. *)
Inductive Call :=
| CreateOrder (body : option CreateOrderRequest)
| CancelOrderCall (orderID : string)
| GetOrderCall (orderID : string)
| GetOrderBook (symbol depthParam : string).

Definition serve (c : Call) (e : Engine) : option (Engine * (Z * Body)) :=
  match c with
  | CreateOrder body => handleCreateOrder body e
  | CancelOrderCall orderID => Some (handleCancelOrder orderID e)
  | GetOrderCall orderID => Some (e, handleGetOrder orderID e)
  | GetOrderBook symbol depthParam =>
      Some (handleGetOrderBook symbol depthParam e)
  end.

Fixpoint serve_all (cs : list Call) (e : Engine) : option Engine :=
  match cs with
  | [] => Some e
  | c :: cs' =>
      match serve c e with
      | None => None
      | Some (e', _) => serve_all cs' e'
      end
  end.

(** The fields of a decoded request are [int64] values. *)
Definition call_ok (c : Call) : Prop :=
  match c with
  | CreateOrder (Some req) => int64 (ReqPrice req) ∧ int64 (ReqQuantity req)
  | _ => True
  end.

(** The states of the engine behind the server. *)
Definition served (e : Engine) : Prop :=
  ∃ cs, Forall call_ok cs ∧ serve_all cs NewEngine = Some e.

(** Every id of the registry is an earlier draw of [uuid.New]. *)
Definition ids_drawn (e : Engine) : Prop :=
  ∀ id p, AllOrders e !! id = Some p →
    ∃ k, (k < draws e)%nat ∧ id = uuid_New k.

(** A run of a matching loop, from the world it starts in to the world it
    ends in, with the trades it makes in order: each turn trades the incoming
    order against the best order of the side consumed. *)
Inductive matched (stop : Order → Order → bool) (s : Side) (order : ptr)
    : World → list Trade → World → Prop :=
| matched_done w :
    RemainingQuantity (deref (mem w) order) ≤ 0
    ∨ side_tree s (book w) = []
    ∨ (∃ b, GetBest s (book w) = Some b
            ∧ stop (deref (mem w) order) (deref (mem w) b) = true) →
    matched stop s order w [] w
| matched_step w b ts w' :
    0 < RemainingQuantity (deref (mem w) order) →
    GetBest s (book w) = Some b →
    stop (deref (mem w) order) (deref (mem w) b) = false →
    matched stop s order (executeTrade order b w).2 ts w' →
    matched stop s order w ((executeTrade order b w).1 :: ts) w'.


(** What C2 says of one trade of the incoming order against a maker. *)
Definition trade_facts (incoming : ptr) (w : World) (maker : ptr) (t : Trade)
    (w1 : World) : Prop :=
  let i := deref (mem w) incoming in
  let m := deref (mem w) maker in
  let i1 := deref (mem w1) incoming in
  let m1 := deref (mem w1) maker in
  maker ∈ resting (side_tree (Side_ m) (book w))
  ∧ TradePrice t = Price m
  ∧ Quantity t = Z.min (RemainingQuantity i) (RemainingQuantity m)
  ∧ ((Side_ i = Buy ∧ Side_ m = Sell
      ∧ BuyerOrderID t = ID i ∧ SellerOrderID t = ID m)
     ∨ (Side_ i = Sell ∧ Side_ m = Buy
        ∧ BuyerOrderID t = ID m ∧ SellerOrderID t = ID i))
  ∧ FilledQuantity i1 = FilledQuantity i + Quantity t
  ∧ RemainingQuantity i1 = RemainingQuantity i - Quantity t
  ∧ FilledQuantity m1 = FilledQuantity m + Quantity t
  ∧ RemainingQuantity m1 = RemainingQuantity m - Quantity t.

(** The id of the maker in a trade of an incoming order of the given side. *)
Definition MakerOrderID (incomingSide : Side) (t : Trade) : string :=
  match incomingSide with
  | Buy => SellerOrderID t
  | Sell => BuyerOrderID t
  end.

(** ** Example data

    An environment and request sequences on which the theorems are put to
    work further down. *)

Definition example_uuid (n : nat) : string := "trade".
Definition example_now (n : nat) : Z := Z.of_nat n.

(** A bid and an ask that do not cross. *)
Definition example_two_sided : list Request :=
  [ Submit "b1" "X" Buy Limit 99 5; Submit "s1" "X" Sell Limit 101 5 ].

(** The sum of the remaining quantities of a sequence of orders, as an
    integer not reduced to 64 bits. *)
Definition sum_remaining (h : Store) (l : list ptr) : Z :=
  foldr (λ p acc, RemainingQuantity (deref h p) + acc) 0 l.

Arguments sum_remaining : simpl never.

(** The sum of the quantities of a sequence of trades. *)
Definition trade_quantities (ts : list Trade) : Z :=
  foldr (λ t acc, Quantity t + acc) 0 ts.
Arguments trade_quantities : simpl never.

(** The levels a depth query shows of a side. *)
Definition shown_levels (depthLimit : Z) (t : Tree) : Tree :=
  if 0 <? depthLimit then take (Z.to_nat depthLimit) t else t.

(** The entry a depth query reports for a level. *)
Definition depth_entry (h : Store) (e : Z * PriceLevel) : PriceLevelData :=
  {| LevelPrice := e.1; LevelQuantity := wrap64 (sum_remaining h e.2) |}.

(** Two bids at one price whose quantities add up to 2^63. *)
Definition example_large_bids : list Request :=
  [ Submit "a" "X" Buy Limit 100 (2 ^ 62);
    Submit "b" "X" Buy Limit 100 (2 ^ 62) ].

(** Two asks whose quantities add up to 2^63. *)
Definition example_large_asks : list Request :=
  [ Submit "s1" "X" Sell Limit 100 (2 ^ 62);
    Submit "s2" "X" Sell Limit 101 (2 ^ 62) ].

(** A limit order resting under the id ["a"]. *)
Definition example_one_bid : list Request :=
  [ Submit "a" "X" Buy Limit 100 10 ].

(** The same id submitted twice: the second order, which neither trades nor
    comes to rest, takes over the registry while the first stays in the
    book. *)
Definition example_shadowed : list Request :=
  [ Submit "x" "X" Buy Limit 100 10; Submit "x" "X" Buy Limit 99 10 ].

(** Two resting bids, one cancelled, and a sell that fills the other. *)
Definition example_busy : list Request :=
  [ Submit "b1" "X" Buy Limit 100 10; Submit "b2" "X" Buy Limit 99 10;
    Submit "s1" "Y" Sell Limit 50 4; Cancel "b2";
    Submit "s2" "X" Sell Limit 100 10; Depth "X" 5 ].

(** Requests after [example_busy]: a cancel of a filled order, and a sell
    that comes to rest. *)
Definition example_later : list Request :=
  [ Cancel "b1"; Submit "s3" "X" Sell Limit 90 5 ].

(** An environment whose ids never repeat, and calls to the server: a bid,
    a sell that fills a part of it, and a depth query. *)
Definition example_ids (n : nat) : string := pretty n.
Definition example_atoi (s : string) : option Z :=
  if decide (s = "1") then Some 1 else None.

Definition example_bid : CreateOrderRequest :=
  {| ReqSymbol := "X"; ReqSide := Buy; ReqType := Limit; ReqPrice := 100;
     ReqQuantity := 10 |}.

Definition example_ask : CreateOrderRequest :=
  {| ReqSymbol := "X"; ReqSide := Sell; ReqType := Limit; ReqPrice := 100;
     ReqQuantity := 4 |}.

Definition example_calls : list Call :=
  [ CreateOrder (Some example_bid); CreateOrder (Some example_ask);
    GetOrderBook "X" "1" ].

(** ** Invariants *)

(** The keys of a tree are strictly increasing for its comparator. *)
Definition tree_sorted (cmp : Comparator) (t : Tree) : Prop :=
  StronglySorted (λ a b, cmp a b = Lt) (t.*1).

(** Quantity accounting of one order.  An order that failed validation keeps
    the quantity it was created with, which may be negative. *)
Definition order_ok (o : Order) : Prop :=
  FilledQuantity o + RemainingQuantity o = OriginalQuantity o
  ∧ 0 ≤ FilledQuantity o
  ∧ int64 (OriginalQuantity o)
  ∧ (0 ≤ RemainingQuantity o ∨ FilledQuantity o = 0).

(** [p] rests in the level of price [k] on side [s] of the book. *)
Definition rests (h : Store) (ob : OrderBook) (s : Side) (k : Z) (p : ptr)
    : Prop :=
  (p < length h)%nat
  ∧ Side_ (deref h p) = s
  ∧ Price (deref h p) = k
  ∧ Symbol (deref h p) = BookSymbol ob
  ∧ Orders ob !! ID (deref h p) = Some p
  ∧ 0 < RemainingQuantity (deref h p).

(** Every bid level is priced below every ask level. *)
Definition uncrossed (ob : OrderBook) : Prop :=
  ∀ kb lb ka la, (kb, lb) ∈ Bids ob → (ka, la) ∈ Asks ob → kb < ka.

Record book_ok (h : Store) (ob : OrderBook) : Prop := mk_book_ok {
  bk_sorted : ∀ s, tree_sorted (side_cmp s) (side_tree s ob);
  bk_levels : ∀ s k lvl, (k, lvl) ∈ side_tree s ob →
      lvl ≠ [] ∧ NoDup lvl ∧ ∀ p, p ∈ lvl → rests h ob s k p;
  bk_index : ∀ id p, Orders ob !! id = Some p →
      ID (deref h p) = id
      ∧ ∃ lvl, (Price (deref h p), lvl) ∈ side_tree (Side_ (deref h p)) ob
               ∧ p ∈ lvl;
  bk_uncrossed : uncrossed ob
}.

(** The fields of an order that no operation assigns. *)
Definition ident (o : Order) : string * string * Side * OrderType * Z * Z * Z :=
  (ID o, Symbol o, Side_ o, Type_ o, Price o, OriginalQuantity o, Timestamp o).

(** An order later in a run: same identity, no more remaining, no less
    filled. *)
Definition evolves (o o' : Order) : Prop :=
  ident o = ident o'
  ∧ RemainingQuantity o' ≤ RemainingQuantity o
  ∧ FilledQuantity o ≤ FilledQuantity o'.

Definition store_evolves (h h' : Store) : Prop :=
  ∀ p o, h !! p = Some o → ∃ o', h' !! p = Some o' ∧ evolves o o'.

(** The effect of a trade of [q] on one of its two orders. *)
Definition fill (q : Z) (o : Order) : Order :=
  set_FilledQuantity (FilledQuantity o + q)
    (set_RemainingQuantity (RemainingQuantity o - q) o).

(** The entry a level leaves in its tree: none when the level is empty. *)
Definition level_entry (k : Z) (lvl : PriceLevel) : Tree :=
  match lvl with [] => [] | _ => [(k, lvl)] end.

(** What holds of the world of a matching loop for the incoming [order]. *)
Record world_ok (order : ptr) (w : World) : Prop := mk_world_ok {
  w_store : Forall order_ok (mem w);
  w_book : book_ok (mem w) (book w);
  w_order : (order < length (mem w))%nat;
  w_fresh : ∀ s, order ∉ resting (side_tree s (book w))
}.

(** The quantity of a trade between an incoming order and a maker. *)
Definition tradeQuantity (h : Store) (incoming maker : ptr) : Z :=
  Z.min (RemainingQuantity (deref h incoming))
        (RemainingQuantity (deref h maker)).

(** The store after a trade that leaves the maker with status [st]. *)
Definition traded (st : OrderStatus) (incoming maker : ptr) (h : Store)
    : Store :=
  <[maker := set_Status st
               (fill (tradeQuantity h incoming maker) (deref h maker))]>
    (<[incoming := fill (tradeQuantity h incoming maker) (deref h incoming)]> h).

(** The book without the best order of side [s]. *)
Definition without_best (h : Store) (s : Side) (ob : OrderBook) : OrderBook :=
  match side_tree s ob with
  | (k, b :: lvl) :: r =>
      set_side_tree s (level_entry k lvl ++ r)
        (set_Orders (delete (ID (deref h b)) (Orders ob)) ob)
  | _ => ob
  end.

(** What holds of every state of the engine. *)
Record engine_ok (e : Engine) : Prop := mk_engine_ok {
  e_store : Forall order_ok (store e);
  e_books : ∀ sym ob, OrderBooks e !! sym = Some ob →
      book_ok (store e) ob ∧ BookSymbol ob = sym;
  e_registry : ∀ id p, AllOrders e !! id = Some p →
      (p < length (store e))%nat ∧ ID (deref (store e) p) = id
}.

(** An order as [NewOrder] makes it, which the engine has not seen yet. *)
Definition incoming_ok (order : ptr) (e : Engine) : Prop :=
  (order < length (store e))%nat
  ∧ (∀ sym ob s, OrderBooks e !! sym = Some ob →
       order ∉ resting (side_tree s ob))
  ∧ RemainingQuantity (deref (store e) order)
    = OriginalQuantity (deref (store e) order)
  ∧ FilledQuantity (deref (store e) order) = 0.

(** The book of a symbol, as [getOrderBook] returns it. *)
Definition book_of (symbol : string) (e : Engine) : OrderBook :=
  default (NewOrderBook symbol) (OrderBooks e !! symbol).

(** The price test that breaks the matching loop of an order. *)
Definition stop_of (o : Order) : Order → Order → bool :=
  match Type_ o with
  | Limit =>
      match Side_ o with
      | Buy => λ o bestAsk, Price o <? Price bestAsk
      | Sell => λ o bestBid, Price o >? Price bestBid
      end
  | Market => λ _ _, false
  end.

(** The world [ProcessOrder] starts matching in. *)
Definition start_world (order : ptr) (e : Engine) : World :=
  {| mem := store e;
     book := book_of (Symbol (deref (store e) order)) e;
     mtr := IncOrdersReceived (metrics e);
     clock := draws e |}.

(** The status [ProcessOrder] leaves an order with. *)
Definition final_status (o : Order) : OrderStatus :=
  if 0 <? RemainingQuantity o then
    if 0 <? FilledQuantity o then PartialFill else Accepted
  else Filled.

(** The order goes to the book when [ProcessOrder] ends. *)
Definition goes_to_book (o : Order) : bool :=
  (0 <? RemainingQuantity o) && bool_decide (Type_ o = Limit).

(** The counters after the trades of a submission. *)
Definition count_trades (trades : list Trade) (m : Metrics) : Metrics :=
  let tradeCount := Z.of_nat (length trades) in
  let m := IncTradesExecuted tradeCount m in
  if 0 <? tradeCount then IncOrdersMatched (tradeCount + 1) m else m.

(** The engine [ProcessOrder] leaves after a matching run that ends in [w]. *)
Definition end_engine (order : ptr) (e : Engine) (trades : list Trade)
    (w : World) : Engine :=
  let o := deref (store e) order in
  let wf := finalize order
              {| mem := mem w; book := book w;
                 mtr := count_trades trades (mtr w); clock := clock w |} in
  {| OrderBooks := <[Symbol o := book wf]> (OrderBooks e);
     AllOrders := <[ID o := order]> (AllOrders e);
     metrics := mtr wf; store := mem wf; draws := clock wf |}.

(** The engine [submit] hands to [ProcessOrder]: the new order allocated. *)
Definition allocated (id symbol : string) (side : Side)
    (orderType : OrderType) (price quantity : Z) (e : Engine) : Engine :=
  {| OrderBooks := OrderBooks e; AllOrders := AllOrders e;
     metrics := metrics e;
     store := store e ++ [NewOrder id symbol side orderType price quantity
                            (time_Now (draws e))];
     draws := S (draws e) |}.

(** ** Distinct ids

    The callers of the engine draw the id of every order afresh
    ([uuid.New] in [handleCreateOrder]); the engine itself does not check
    that an id is new. *)

(** The id a request submits an order under. *)
Definition submitted_id (r : Request) : option string :=
  match r with
  | Submit id _ _ _ _ _ => Some id
  | Cancel _ | Depth _ _ => None
  end.

Definition submitted_ids (rs : list Request) : list string :=
  omap submitted_id rs.

(** The states an engine goes through when no two orders are submitted under
    the same id. *)
Definition reachable_distinct (e : Engine) : Prop :=
  ∃ rs, Forall request_ok rs ∧ NoDup (submitted_ids rs)
        ∧ run rs NewEngine = Some e.

(** The number of orders resting in a book, and in all the books. *)
Definition resting_count (ob : OrderBook) : nat :=
  (length (resting (Bids ob)) + length (resting (Asks ob)))%nat.

Definition books_resting (books : gmap string OrderBook) : nat :=
  map_fold (λ _ ob n, (resting_count ob + n)%nat) 0%nat books.

Definition total_resting (e : Engine) : nat := books_resting (OrderBooks e).

(** Every order a book indexes is the one the registry has under that id. *)
Definition index_agrees (e : Engine) : Prop :=
  ∀ sym ob id p, OrderBooks e !! sym = Some ob → Orders ob !! id = Some p →
    AllOrders e !! id = Some p.

(** What distinct ids add to [engine_ok]. *)
Definition distinct_ok (e : Engine) : Prop :=
  index_agrees e ∧ OrdersInBook (metrics e) = Z.of_nat (total_resting e).

(** [p] rests in some book of the engine. *)
Definition resting_in (e : Engine) (p : ptr) : Prop :=
  ∃ sym ob s, OrderBooks e !! sym = Some ob ∧ p ∈ resting (side_tree s ob).

(** ** Orders at rest and orders done *)

(** The status of an order that rests in a book: partially filled once a
    trade has filled some of it, accepted until then. *)
Definition resting_status (o : Order) : OrderStatus :=
  if 0 <? FilledQuantity o then PartialFill else Accepted.

Definition resting_order_ok (o : Order) : Prop :=
  Type_ o = Limit ∧ Status o = resting_status o.

(** Every order resting in a book of the engine is a limit order with the
    status of an order at rest. *)
Definition resting_ok (e : Engine) : Prop :=
  ∀ sym s p, p ∈ resting (side_tree s (book_of sym e)) →
    resting_order_ok (deref (store e) p).

Definition world_resting_ok (w : World) : Prop :=
  ∀ s p, p ∈ resting (side_tree s (book w)) →
    resting_order_ok (deref (mem w) p).

(** An order no operation touches again. *)
Definition done (o : Order) : Prop :=
  Status o = Filled ∨ Status o = Cancelled.

(** The id a request cancels. *)
Definition cancelled_id (r : Request) : option string :=
  match r with
  | Cancel orderID => Some orderID
  | Submit _ _ _ _ _ _ | Depth _ _ => None
  end.

(** A limit price that does not cross the price of the best order of the
    other side. *)
Definition no_cross (side : Side) (price best : Z) : Prop :=
  match side with
  | Buy => price < best
  | Sell => best < price
  end.

(** The quantity filled of the orders of one side, over the whole store. *)
Definition filled_on (s : Side) (h : Store) : Z :=
  foldr (λ o acc, (if decide (Side_ o = s) then FilledQuantity o else 0) + acc)
    0 h.

(** ** Arithmetic of [int64] *)

Lemma wrap64_id z : int64 z → wrap64 z = z.
Proof.
  unfold int64, min_int64, max_int64, wrap64. intros Hz.
  rewrite Z.mod_small; lia.
Qed.

Lemma wrap64_int64 z : int64 (wrap64 z).
Proof.
  unfold int64, min_int64, max_int64, wrap64.
  pose proof (Z.mod_pos_bound (z + 2 ^ 63) (2 ^ 64)). lia.
Qed.

(** A sum that wraps can only come out smaller when the operands are not
    below the range. *)
Lemma wrap64_le z : min_int64 ≤ z → wrap64 z ≤ z.
Proof.
  unfold min_int64, wrap64. intros Hz.
  pose proof (Z.mod_le (z + 2 ^ 63) (2 ^ 64)). lia.
Qed.

Lemma sub64_diag a : sub64 a a = 0.
Proof. unfold sub64. rewrite Z.sub_diag. reflexivity. Qed.

(** ** The comparators *)

Lemma side_cmp_eq s a b : side_cmp s a b = Eq ↔ a = b.
Proof.
  destruct s; unfold side_cmp, ReverseComparator, Int64Comparator;
    rewrite Z.compare_eq_iff; split; congruence.
Qed.

Lemma side_cmp_refl s a : side_cmp s a a = Eq.
Proof. by apply side_cmp_eq. Qed.

Lemma side_cmp_lt s a b :
  side_cmp s a b = Lt ↔ match s with Buy => b < a | Sell => a < b end.
Proof.
  destruct s; unfold side_cmp, ReverseComparator, Int64Comparator;
    by rewrite Z.compare_lt_iff.
Qed.

Lemma side_cmp_gt s a b : side_cmp s a b = Gt ↔ side_cmp s b a = Lt.
Proof.
  destruct s; unfold side_cmp, ReverseComparator, Int64Comparator;
    rewrite Z.compare_gt_iff, Z.compare_lt_iff; done.
Qed.

Lemma side_cmp_lt_trans s a b c :
  side_cmp s a b = Lt → side_cmp s b c = Lt → side_cmp s a c = Lt.
Proof. rewrite !side_cmp_lt. destruct s; lia. Qed.

Lemma side_cmp_lt_irrefl s a : side_cmp s a a ≠ Lt.
Proof. by rewrite side_cmp_refl. Qed.

(** ** The ordered map *)

Lemma tree_sorted_cons cmp k v t :
  tree_sorted cmp ((k, v) :: t) ↔
  Forall (λ e, cmp k e.1 = Lt) t ∧ tree_sorted cmp t.
Proof.
  unfold tree_sorted. rewrite fmap_cons, StronglySorted_cons, Forall_fmap.
  done.
Qed.

Lemma tree_sorted_app cmp t1 t2 :
  tree_sorted cmp (t1 ++ t2) ↔
  (∀ e1 e2, e1 ∈ t1 → e2 ∈ t2 → cmp e1.1 e2.1 = Lt)
  ∧ tree_sorted cmp t1 ∧ tree_sorted cmp t2.
Proof.
  unfold tree_sorted. rewrite fmap_app, StronglySorted_app.
  split; intros (H & ? & ?); split_and!; try done.
  - intros e1 e2 He1 He2. apply H; by apply list_elem_of_fmap_2.
  - intros k1 k2 (e1 & -> & ?)%list_elem_of_fmap (e2 & -> & ?)%list_elem_of_fmap.
    by apply H.
Qed.

Lemma tree_Get_Some_elem s k v t :
  tree_Get (side_cmp s) k t = Some v → (k, v) ∈ t.
Proof.
  induction t as [|[k' v'] r IH]; simpl; [done|].
  destruct (side_cmp s k k') eqn:E; intros H.
  - apply side_cmp_eq in E as ->. injection H as ->. left.
  - right. auto.
  - right. auto.
Qed.

Lemma tree_Get_None_elem s k v t :
  tree_Get (side_cmp s) k t = None → (k, v) ∉ t.
Proof.
  induction t as [|[k' v'] r IH]; simpl; [intros _; apply not_elem_of_nil|].
  destruct (side_cmp s k k') eqn:E; [done| |];
    intros H [Heq|Hin]%elem_of_cons; try (by apply IH);
    injection Heq as -> ->; by rewrite side_cmp_refl in E.
Qed.

Lemma tree_Remove_None s k t :
  tree_Get (side_cmp s) k t = None → tree_Remove (side_cmp s) k t = t.
Proof.
  induction t as [|[k' v'] r IH]; simpl; [done|].
  destruct (side_cmp s k k'); [done| |]; intros H; by rewrite IH.
Qed.

(** A key that is present splits a sorted tree around its entry; [Put]
    replaces the entry in place and [Remove] deletes it. *)
Lemma tree_Get_Some_split s k v t :
  tree_sorted (side_cmp s) t → tree_Get (side_cmp s) k t = Some v →
  ∃ t1 t2, t = t1 ++ (k, v) :: t2
    ∧ (∀ v', tree_Put (side_cmp s) k v' t = t1 ++ (k, v') :: t2)
    ∧ tree_Remove (side_cmp s) k t = t1 ++ t2.
Proof.
  induction t as [|[k' v'] r IH]; simpl; [done|].
  intros [Hall Hs]%tree_sorted_cons.
  destruct (side_cmp s k k') eqn:E; intros H.
  - apply side_cmp_eq in E as ->. injection H as ->.
    by exists [], r.
  - apply tree_Get_Some_elem in H.
    rewrite Forall_forall in Hall. apply Hall in H. simpl in H.
    apply side_cmp_gt in H. congruence.
  - destruct (IH Hs H) as (t1 & t2 & -> & HP & HR).
    exists ((k', v') :: t1), t2. split_and!; [done| |].
    + intros v''. by rewrite HP.
    + by rewrite HR.
Qed.

(** A key that is absent has its place in a sorted tree, where [Put] inserts
    it. *)
Lemma tree_Get_None_split s k t :
  tree_sorted (side_cmp s) t → tree_Get (side_cmp s) k t = None →
  ∃ t1 t2, t = t1 ++ t2
    ∧ (∀ v', tree_Put (side_cmp s) k v' t = t1 ++ (k, v') :: t2)
    ∧ Forall (λ e, side_cmp s e.1 k = Lt) t1
    ∧ Forall (λ e, side_cmp s k e.1 = Lt) t2.
Proof.
  induction t as [|[k' v'] r IH]; simpl.
  - intros _ _. by exists [], [].
  - intros [Hall Hs]%tree_sorted_cons.
    destruct (side_cmp s k k') eqn:E; intros H; [done| |].
    + exists [], ((k', v') :: r). split_and!; try done.
      constructor; [done|].
      eapply Forall_impl; [exact Hall|]. simpl. intros e He.
      by eapply side_cmp_lt_trans.
    + destruct (IH Hs H) as (t1 & t2 & -> & HP & H1 & H2).
      exists ((k', v') :: t1), t2. split_and!; try done.
      * intros v''. by rewrite HP.
      * constructor; [|done]. by apply side_cmp_gt.
Qed.

Lemma tree_sorted_insert s k v t1 t2 :
  tree_sorted (side_cmp s) (t1 ++ t2) →
  Forall (λ e, side_cmp s e.1 k = Lt) t1 →
  Forall (λ e, side_cmp s k e.1 = Lt) t2 →
  tree_sorted (side_cmp s) (t1 ++ (k, v) :: t2).
Proof.
  rewrite !tree_sorted_app, tree_sorted_cons, !Forall_forall.
  intros (H12 & H1 & H2) Hl Hr. split_and!; try done.
  intros e1 e2 He1 [->|He2]%elem_of_cons; [by apply Hl|by apply H12].
Qed.

Lemma tree_sorted_replace s k v v' t1 t2 :
  tree_sorted (side_cmp s) (t1 ++ (k, v) :: t2) →
  tree_sorted (side_cmp s) (t1 ++ (k, v') :: t2).
Proof. unfold tree_sorted. by rewrite !fmap_app, !fmap_cons. Qed.

Lemma tree_sorted_delete s k v t1 t2 :
  tree_sorted (side_cmp s) (t1 ++ (k, v) :: t2) →
  tree_sorted (side_cmp s) (t1 ++ t2).
Proof.
  rewrite !tree_sorted_app, tree_sorted_cons.
  intros (H12 & H1 & _ & H2). split_and!; try done.
  intros e1 e2 He1 He2. apply H12; [done|by right].
Qed.

(** In a sorted tree the entry of a key is the one [Get] finds. *)
Lemma tree_Get_mid s k v t1 t2 :
  tree_sorted (side_cmp s) (t1 ++ (k, v) :: t2) →
  tree_Get (side_cmp s) k (t1 ++ (k, v) :: t2) = Some v.
Proof.
  induction t1 as [|[k' v'] r IH]; simpl.
  - intros _. by rewrite side_cmp_refl.
  - intros [Hall Hs]%tree_sorted_cons.
    rewrite Forall_forall in Hall.
    assert (side_cmp s k' k = Lt) as Hlt.
    { apply (Hall (k, v)). apply elem_of_app. right. left. }
    destruct (side_cmp s k k') eqn:E; [| |by auto].
    + apply side_cmp_eq in E as ->. by rewrite side_cmp_refl in Hlt.
    + pose proof (side_cmp_lt_trans _ _ _ _ E Hlt) as Habs.
      by rewrite side_cmp_refl in Habs.
Qed.

Lemma tree_Get_elem s k v t :
  tree_sorted (side_cmp s) t → (k, v) ∈ t →
  tree_Get (side_cmp s) k t = Some v.
Proof.
  intros Hs (t1 & t2 & ->)%list_elem_of_split. by apply tree_Get_mid.
Qed.

(** Keys are unique in a sorted tree. *)
Lemma tree_sorted_mid_unique s k v v' t1 t2 :
  tree_sorted (side_cmp s) (t1 ++ (k, v) :: t2) →
  (k, v') ∈ t1 ++ t2 → False.
Proof.
  rewrite tree_sorted_app, tree_sorted_cons, Forall_forall.
  intros (H12 & _ & H2 & _) [Hin|Hin]%elem_of_app.
  - specialize (H12 _ (k, v) Hin ltac:(left)). simpl in H12.
    by rewrite side_cmp_refl in H12.
  - specialize (H2 _ Hin). simpl in H2. by rewrite side_cmp_refl in H2.
Qed.

(** The first entry of a sorted tree has the best key. *)
Lemma tree_sorted_head s t e0 e :
  tree_sorted (side_cmp s) t → head t = Some e0 → e ∈ t →
  e = e0 ∨ side_cmp s e0.1 e.1 = Lt.
Proof.
  destruct t as [|[k v] r]; simpl; [done|].
  intros [Hall _]%tree_sorted_cons [= <-] [->|Hin]%elem_of_cons; [by left|].
  right. rewrite Forall_forall in Hall. by apply Hall.
Qed.

Lemma resting_app t1 t2 : resting (t1 ++ t2) = resting t1 ++ resting t2.
Proof. unfold resting. by rewrite fmap_app, concat_app. Qed.

Lemma resting_cons k lvl t : resting ((k, lvl) :: t) = lvl ++ resting t.
Proof. done. Qed.

Lemma elem_of_resting p t :
  p ∈ resting t ↔ ∃ k lvl, (k, lvl) ∈ t ∧ p ∈ lvl.
Proof.
  induction t as [|[k lvl] r IH].
  - split; [by intros ?%elem_of_nil|]. by intros (? & ? & ?%elem_of_nil & _).
  - rewrite resting_cons, elem_of_app, IH. split.
    + intros [Hp|(k' & lvl' & He & Hp)].
      * exists k, lvl. split; [left|done].
      * exists k', lvl'. split; [by right|done].
    + intros (k' & lvl' & [[= -> ->]|He]%elem_of_cons & Hp); [by left|].
      right. eauto.
Qed.

(** ** The store *)

Lemma deref_lookup h p o : h !! p = Some o → deref h p = o.
Proof. unfold deref. by intros ->. Qed.

Lemma lookup_deref (h : Store) p :
  (p < length h)%nat → h !! p = Some (deref h p).
Proof.
  intros [o Ho]%lookup_lt_is_Some. by rewrite (deref_lookup _ _ _ Ho).
Qed.

Lemma length_update h p f : length (update h p f) = length h.
Proof. unfold update. by rewrite length_insert. Qed.

Lemma deref_update_eq h p f :
  (p < length h)%nat → deref (update h p f) p = f (deref h p).
Proof.
  intros Hp. unfold update. apply deref_lookup.
  by apply list_lookup_insert_eq.
Qed.

Lemma deref_update_ne h p q f : p ≠ q → deref (update h p f) q = deref h q.
Proof.
  intros Hne. unfold update, deref. by rewrite list_lookup_insert_ne.
Qed.

(** ** The book: assignments *)

Lemma side_tree_set s t ob : side_tree s (set_side_tree s t ob) = t.
Proof. by destruct s. Qed.

Lemma side_tree_set_ne s s' t ob :
  s ≠ s' → side_tree s' (set_side_tree s t ob) = side_tree s' ob.
Proof. by destruct s, s'. Qed.

Lemma side_tree_set_opposite s t ob :
  side_tree (opposite s) (set_side_tree s t ob) = side_tree (opposite s) ob.
Proof. by destruct s. Qed.

Lemma side_tree_set_Orders s m ob :
  side_tree s (set_Orders m ob) = side_tree s ob.
Proof. by destruct s. Qed.

Lemma Orders_set_side_tree s t ob : Orders (set_side_tree s t ob) = Orders ob.
Proof. by destruct s. Qed.

Lemma BookSymbol_set_side_tree s t ob :
  BookSymbol (set_side_tree s t ob) = BookSymbol ob.
Proof. by destruct s. Qed.

Lemma set_side_tree_id s ob : set_side_tree s (side_tree s ob) ob = ob.
Proof. by destruct s, ob. Qed.

Lemma opposite_ne s : opposite s ≠ s.
Proof. by destruct s. Qed.

Lemma side_cases (s s' : Side) : s' = s ∨ s' = opposite s.
Proof. destruct s, s'; auto. Qed.

Lemma uncrossed_sides s ob k lvl k' lvl' :
  uncrossed ob → (k, lvl) ∈ side_tree s ob →
  (k', lvl') ∈ side_tree (opposite s) ob →
  side_cmp s k' k = Lt.
Proof.
  intros Hu H1 H2. apply side_cmp_lt. destruct s; simpl in *.
  - by eapply Hu.
  - by eapply Hu.
Qed.

Lemma uncrossed_intro ob :
  (∀ s k lvl k' lvl', s = Buy → (k, lvl) ∈ side_tree s ob →
     (k', lvl') ∈ side_tree (opposite s) ob → side_cmp s k' k = Lt) →
  uncrossed ob.
Proof.
  intros H kb lb ka la Hb Ha.
  specialize (H Buy kb lb ka la eq_refl Hb Ha). by apply side_cmp_lt in H.
Qed.

(** ** The book: removal *)

Lemma level_remove_split h id (lvl1 : list nat) p lvl2 :
  ID (deref h p) = id →
  (∀ q, q ∈ lvl1 → ID (deref h q) ≠ id) →
  level_remove h id (lvl1 ++ p :: lvl2) = lvl1 ++ lvl2.
Proof.
  intros Hp. induction lvl1 as [|q r IH]; simpl; intros Hq.
  - by rewrite bool_decide_eq_true_2.
  - rewrite bool_decide_eq_false_2; [|apply Hq; left].
    rewrite IH; [done|]. intros q' Hq'. apply Hq. by right.
Qed.

Lemma RemoveOrder_None h id ob :
  Orders ob !! id = None → RemoveOrder h id ob = (None, ob).
Proof. unfold RemoveOrder. by intros ->. Qed.

Lemma rests_inj h ob s k p s' k' q :
  rests h ob s k p → rests h ob s' k' q →
  ID (deref h p) = ID (deref h q) → p = q.
Proof.
  intros (_ & _ & _ & _ & Hp & _) (_ & _ & _ & _ & Hq & _) Hid.
  rewrite Hid in Hp. congruence.
Qed.

Lemma book_ok_index h ob id p :
  book_ok h ob → Orders ob !! id = Some p →
  ID (deref h p) = id
  ∧ ∃ lvl, (Price (deref h p), lvl) ∈ side_tree (Side_ (deref h p)) ob
           ∧ p ∈ lvl
           ∧ rests h ob (Side_ (deref h p)) (Price (deref h p)) p.
Proof.
  intros Hok Hid. destruct (bk_index _ _ Hok _ _ Hid) as (-> & lvl & He & Hp).
  split; [done|]. exists lvl. split_and!; try done.
  by apply (bk_levels _ _ Hok _ _ _ He).
Qed.

(** The result of [RemoveOrder] on a well-formed book: the order leaves its
    level, and the level leaves the tree when it becomes empty. *)
Lemma RemoveOrder_Some h id ob p :
  book_ok h ob → Orders ob !! id = Some p →
  ∃ t1 lvl1 lvl2 t2,
    side_tree (Side_ (deref h p)) ob
      = t1 ++ (Price (deref h p), lvl1 ++ p :: lvl2) :: t2
    ∧ RemoveOrder h id ob
      = (Some p,
         set_side_tree (Side_ (deref h p))
           (t1 ++ level_entry (Price (deref h p)) (lvl1 ++ lvl2) ++ t2)
           (set_Orders (delete id (Orders ob)) ob)).
Proof.
  intros Hok Hid.
  destruct (book_ok_index _ _ _ _ Hok Hid) as (Hp & lvl & He & Hin & Hr).
  set (s := Side_ (deref h p)) in *. set (k := Price (deref h p)) in *.
  pose proof (bk_sorted _ _ Hok s) as Hs.
  pose proof (tree_Get_elem _ _ _ _ Hs He) as HG.
  destruct (tree_Get_Some_split _ _ _ _ Hs HG) as (t1 & t2 & Ht & HP & HR).
  destruct (list_elem_of_split_l _ _ Hin) as (lvl1 & lvl2 & -> & Hnin).
  exists t1, lvl1, lvl2, t2. split; [done|].
  unfold RemoveOrder. rewrite Hid. fold s k.
  rewrite side_tree_set_Orders.
  rewrite HG.
  rewrite level_remove_split; [|done|].
  - destruct (lvl1 ++ lvl2) as [|q r] eqn:E; simpl.
    + by rewrite HR.
    + by rewrite HP.
  - intros q Hq Hidq.
    destruct (bk_levels _ _ Hok _ _ _ He) as (_ & _ & Hall).
    assert (q = p) as ->; [|done].
    eapply rests_inj; [apply Hall| exact Hr | congruence].
    apply elem_of_app. by left.
Qed.

Lemma level_entry_elem k lvl e :
  e ∈ level_entry k lvl ↔ e = (k, lvl) ∧ lvl ≠ [].
Proof.
  destruct lvl as [|q r]; simpl.
  - split; [by intros ?%elem_of_nil|by intros [_ ?]].
  - rewrite list_elem_of_singleton. split; [by intros ->|by intros [-> _]].
Qed.

Lemma tree_sorted_level_entry s k lvl lvl' t1 t2 :
  tree_sorted (side_cmp s) (t1 ++ (k, lvl) :: t2) →
  tree_sorted (side_cmp s) (t1 ++ level_entry k lvl' ++ t2).
Proof.
  intros Hs. destruct lvl'; simpl.
  - by eapply tree_sorted_delete.
  - by eapply tree_sorted_replace.
Qed.

(** Removing a resting order keeps the book well-formed. *)
Lemma book_ok_remove h ob id p t1 lvl1 lvl2 t2 :
  book_ok h ob → Orders ob !! id = Some p →
  side_tree (Side_ (deref h p)) ob
    = t1 ++ (Price (deref h p), lvl1 ++ p :: lvl2) :: t2 →
  book_ok h
    (set_side_tree (Side_ (deref h p))
       (t1 ++ level_entry (Price (deref h p)) (lvl1 ++ lvl2) ++ t2)
       (set_Orders (delete id (Orders ob)) ob)).
Proof.
  intros Hok Hid Ht.
  destruct (book_ok_index _ _ _ _ Hok Hid) as (Hp & _ & _ & _ & Hr).
  set (s := Side_ (deref h p)) in *. set (k := Price (deref h p)) in *.
  pose proof (bk_sorted _ _ Hok s) as Hs. rewrite Ht in Hs.
  assert (Hmid : (k, lvl1 ++ p :: lvl2) ∈ side_tree s ob).
  { rewrite Ht. apply elem_of_app. right. left. }
  destruct (bk_levels _ _ Hok _ _ _ Hmid) as (_ & Hnd & Hall).
  (* an entry of the new tree is the shortened level or an old entry that
     does not hold [p] *)
  assert (Hnew : ∀ s' k' lvl',
    (k', lvl') ∈ side_tree s'
       (set_side_tree s (t1 ++ level_entry k (lvl1 ++ lvl2) ++ t2)
          (set_Orders (delete id (Orders ob)) ob)) →
    (p ∉ lvl') ∧
    ((s' = s ∧ k' = k ∧ lvl' = lvl1 ++ lvl2 ∧ lvl' ≠ [])
     ∨ (k', lvl') ∈ side_tree s' ob)).
  { intros s' k' lvl' He. destruct (decide (s' = s)) as [->|Hne].
    - rewrite side_tree_set in He.
      rewrite !elem_of_app, level_entry_elem in He.
      destruct He as [He|[[[= -> ->] Hnn]|He]].
      + split.
        * intros Hp'. eapply (tree_sorted_mid_unique _ _ _ lvl' _ _ Hs).
          assert ((k', lvl') ∈ side_tree s ob) as Hold.
          { rewrite Ht. apply elem_of_app. by left. }
          destruct (bk_levels _ _ Hok _ _ _ Hold) as (_ & _ & Hall').
          destruct (Hall' _ Hp') as (_ & _ & <- & _).
          apply elem_of_app. by left.
        * right. rewrite Ht. apply elem_of_app. by left.
      + split; [|left; done].
        apply NoDup_app in Hnd as (_ & Hd & Hnd2).
        apply NoDup_cons in Hnd2 as [Hnd2 _].
        intros [Hp'|Hp']%elem_of_app; [|done].
        apply (Hd _ Hp'). left.
      + split.
        * intros Hp'. eapply (tree_sorted_mid_unique _ _ _ lvl' _ _ Hs).
          assert ((k', lvl') ∈ side_tree s ob) as Hold.
          { rewrite Ht. apply elem_of_app. right. by right. }
          destruct (bk_levels _ _ Hok _ _ _ Hold) as (_ & _ & Hall').
          destruct (Hall' _ Hp') as (_ & _ & <- & _).
          apply elem_of_app. by right.
        * right. rewrite Ht. apply elem_of_app. right. by right.
    - rewrite side_tree_set_ne in He by done.
      rewrite side_tree_set_Orders in He.
      split; [|by right].
      intros Hp'. destruct (bk_levels _ _ Hok _ _ _ He) as (_ & _ & Hall').
      destruct (Hall' _ Hp') as (_ & Hside & _). by apply Hne. }
  (* an order that stays rests in the new book as it did *)
  assert (Hrests : ∀ s' k' q, q ≠ p → rests h ob s' k' q →
    rests h (set_side_tree s (t1 ++ level_entry k (lvl1 ++ lvl2) ++ t2)
               (set_Orders (delete id (Orders ob)) ob)) s' k' q).
  { intros s' k' q Hqp (? & ? & ? & ? & Hq & ?).
    split_and!; try done.
    - by rewrite BookSymbol_set_side_tree.
    - rewrite Orders_set_side_tree. simpl.
      rewrite lookup_delete_ne; [done|].
      intros Heq. rewrite <- Heq, Hid in Hq. congruence. }
  split.
  - intros s'. destruct (decide (s' = s)) as [->|Hne].
    + rewrite side_tree_set. by eapply tree_sorted_level_entry.
    + rewrite side_tree_set_ne by done.
      rewrite side_tree_set_Orders.
      apply (bk_sorted _ _ Hok).
  - intros s' k' lvl' He.
    destruct (Hnew _ _ _ He) as [Hnp [(-> & -> & -> & Hnn)|Hold]].
    + split_and!; [done| |].
      * apply NoDup_app in Hnd as (Hd1 & Hd & Hnd2).
        apply NoDup_cons in Hnd2 as [Hp2 Hd2].
        apply NoDup_app. split_and!; [done| |done].
        intros x Hx1 Hx2. apply (Hd _ Hx1). by right.
      * intros q Hq. apply Hrests; [by intros ->|].
        apply Hall. rewrite elem_of_app in Hq |- *.
        destruct Hq; [by left|right; by right].
    + destruct (bk_levels _ _ Hok _ _ _ Hold) as (? & ? & Hall').
      split_and!; try done.
      intros q Hq. apply Hrests; [by intros ->|by apply Hall'].
  - intros id' q. rewrite Orders_set_side_tree. simpl.
    intros [Hne Hq]%lookup_delete_Some.
    destruct (book_ok_index _ _ _ _ Hok Hq) as (Hidq & lvl & He & Hin & Hrq).
    split; [done|].
    assert (q ≠ p) as Hqp by (intros ->; congruence).
    destruct (decide (Side_ (deref h q) = s)) as [Hsq|Hsq].
    + rewrite Hsq in *. rewrite side_tree_set.
      rewrite Ht in He. apply elem_of_app in He as [He|[He|He]%elem_of_cons].
      * exists lvl. split; [|done]. apply elem_of_app. by left.
      * injection He as Hk ->. exists (lvl1 ++ lvl2).
        assert (q ∈ lvl1 ++ lvl2) as Hq'.
        { rewrite elem_of_app in Hin |- *.
          destruct Hin as [?|[?|?]%elem_of_cons]; [by left|done|by right]. }
        split; [|done]. rewrite Hk.
        rewrite !elem_of_app, level_entry_elem. right. left.
        split; [done|]. intros E. rewrite E in Hq'. by apply elem_of_nil in Hq'.
      * exists lvl. split; [|done]. rewrite !elem_of_app. right. by right.
    + exists lvl. split; [|done].
      rewrite side_tree_set_ne by done.
      by rewrite side_tree_set_Orders.
  - intros kb lb ka la Hb Ha.
    change (Bids ?b) with (side_tree Buy b) in Hb.
    change (Asks ?b) with (side_tree Sell b) in Ha.
    apply Hnew in Hb as [_ Hb]. apply Hnew in Ha as [_ Ha].
    assert (∃ lb', (kb, lb') ∈ side_tree Buy ob) as [lb' Hb'].
    { destruct Hb as [(Hs' & -> & _)|?]; [|by eauto].
      rewrite Hs'. eauto. }
    assert (∃ la', (ka, la') ∈ side_tree Sell ob) as [la' Ha'].
    { destruct Ha as [(Hs' & -> & _)|?]; [|by eauto].
      rewrite Hs'. eauto. }
    by eapply (bk_uncrossed _ _ Hok).
Qed.

(** ** The book: insertion *)

Lemma AddOrder_known h p ob q :
  Orders ob !! ID (deref h p) = Some q → AddOrder h p ob = ob.
Proof. unfold AddOrder. by intros ->. Qed.

(** The result of [AddOrder] on a well-formed book for an id it does not
    know: the order goes to the end of the level of its price, created at its
    place in the tree when there was none. *)
Lemma AddOrder_new h p ob :
  book_ok h ob → Orders ob !! ID (deref h p) = None →
  ∃ t1 lvl t2,
    side_tree (Side_ (deref h p)) ob
      = t1 ++ level_entry (Price (deref h p)) lvl ++ t2
    ∧ tree_sorted (side_cmp (Side_ (deref h p)))
        (t1 ++ (Price (deref h p), lvl ++ [p]) :: t2)
    ∧ AddOrder h p ob
      = set_side_tree (Side_ (deref h p))
          (t1 ++ (Price (deref h p), lvl ++ [p]) :: t2)
          (set_Orders (<[ID (deref h p) := p]> (Orders ob)) ob).
Proof.
  intros Hok Hid. unfold AddOrder. rewrite Hid.
  set (s := Side_ (deref h p)). set (k := Price (deref h p)).
  rewrite side_tree_set_Orders.
  pose proof (bk_sorted _ _ Hok s) as Hs.
  destruct (tree_Get (side_cmp s) k (side_tree s ob)) as [lvl|] eqn:HG.
  - destruct (tree_Get_Some_split _ _ _ _ Hs HG) as (t1 & t2 & Ht & HP & _).
    exists t1, lvl, t2.
    assert (lvl ≠ []) as Hne.
    { apply (bk_levels _ _ Hok s k). by apply (tree_Get_Some_elem s). }
    split_and!.
    + rewrite Ht. by destruct lvl.
    + rewrite Ht in Hs. by eapply tree_sorted_replace.
    + by rewrite HP.
  - destruct (tree_Get_None_split s k _ Hs HG) as (t1 & t2 & Ht & HP & H1 & H2).
    exists t1, [], t2. split_and!.
    + done.
    + rewrite Ht in Hs. by apply tree_sorted_insert.
    + by rewrite HP.
Qed.

Lemma ident_ID o o' : ident o = ident o' → ID o = ID o'.
Proof. unfold ident. congruence. Qed.
Lemma ident_Symbol o o' : ident o = ident o' → Symbol o = Symbol o'.
Proof. unfold ident. congruence. Qed.
Lemma ident_Side o o' : ident o = ident o' → Side_ o = Side_ o'.
Proof. unfold ident. congruence. Qed.
Lemma ident_Type o o' : ident o = ident o' → Type_ o = Type_ o'.
Proof. unfold ident. congruence. Qed.
Lemma ident_Price o o' : ident o = ident o' → Price o = Price o'.
Proof. unfold ident. congruence. Qed.
Lemma ident_OriginalQuantity o o' :
  ident o = ident o' → OriginalQuantity o = OriginalQuantity o'.
Proof. unfold ident. congruence. Qed.

(** Adding an order under a new id keeps the book well-formed, provided its
    price does not cross the other side. *)
Lemma book_ok_add h p ob t1 lvl t2 :
  book_ok h ob → Orders ob !! ID (deref h p) = None →
  (p < length h)%nat →
  Symbol (deref h p) = BookSymbol ob →
  0 < RemainingQuantity (deref h p) →
  side_tree (Side_ (deref h p)) ob
    = t1 ++ level_entry (Price (deref h p)) lvl ++ t2 →
  tree_sorted (side_cmp (Side_ (deref h p)))
    (t1 ++ (Price (deref h p), lvl ++ [p]) :: t2) →
  (∀ k' lvl', (k', lvl') ∈ side_tree (opposite (Side_ (deref h p))) ob →
     side_cmp (Side_ (deref h p)) k' (Price (deref h p)) = Lt) →
  book_ok h
    (set_side_tree (Side_ (deref h p))
       (t1 ++ (Price (deref h p), lvl ++ [p]) :: t2)
       (set_Orders (<[ID (deref h p) := p]> (Orders ob)) ob)).
Proof.
  intros Hok Hid Hlt Hsym Hrem Ht Hs Hcross.
  remember (Side_ (deref h p)) as s eqn:Hside.
  remember (Price (deref h p)) as k eqn:Hprice.
  set (ob' := set_side_tree s _ _).
  assert (Hnotin : ∀ s' k' lvl', (k', lvl') ∈ side_tree s' ob → p ∉ lvl').
  { intros s' k' lvl' He Hin.
    destruct (bk_levels _ _ Hok _ _ _ He) as (_ & _ & Hall).
    destruct (Hall _ Hin) as (_ & _ & _ & _ & Hp & _). congruence. }
  assert (Hlvl : lvl = [] ∨ (k, lvl) ∈ side_tree s ob).
  { destruct lvl as [|q r]; [by left|right].
    rewrite Ht. simpl. apply elem_of_app. right. left. }
  assert (Hnew : ∀ s' k' lvl', (k', lvl') ∈ side_tree s' ob' →
    (s' = s ∧ k' = k ∧ lvl' = lvl ++ [p]) ∨ (k', lvl') ∈ side_tree s' ob).
  { intros s' k' lvl' He. unfold ob' in He.
    destruct (decide (s' = s)) as [->|Hne].
    - rewrite side_tree_set in He.
      apply elem_of_app in He as [He|[[= -> ->]|He]%elem_of_cons].
      + right. rewrite Ht. apply elem_of_app. by left.
      + by left.
      + right. rewrite Ht, !elem_of_app. right. by right.
    - right. rewrite side_tree_set_ne in He by done.
      by destruct s'. }
  assert (Hrests : ∀ s' k' q, rests h ob s' k' q → rests h ob' s' k' q).
  { intros s' k' q (? & ? & ? & ? & Hq & ?). split_and!; try done.
    - unfold ob'. by rewrite BookSymbol_set_side_tree.
    - unfold ob'. rewrite Orders_set_side_tree. simpl.
      rewrite lookup_insert_ne; [done|]. intros Heq.
      rewrite <- Heq in Hq. congruence. }
  assert (Hp : rests h ob' s k p).
  { split_and!; try done.
    - unfold ob'. by rewrite BookSymbol_set_side_tree.
    - unfold ob'. rewrite Orders_set_side_tree. simpl.
      by rewrite lookup_insert_eq. }
  split.
  - intros s'. destruct (decide (s' = s)) as [->|Hne].
    + unfold ob'. by rewrite side_tree_set.
    + unfold ob'. rewrite side_tree_set_ne by done.
      rewrite side_tree_set_Orders.
      apply (bk_sorted _ _ Hok).
  - intros s' k' lvl' He.
    destruct (Hnew _ _ _ He) as [(-> & -> & ->)|Hold].
    + split_and!.
      * by destruct lvl.
      * apply NoDup_app. split_and!.
        -- destruct Hlvl as [->|Hl]; [constructor|].
           by apply (bk_levels _ _ Hok _ _ _ Hl).
        -- intros x Hx ->%list_elem_of_singleton.
           destruct Hlvl as [->|Hl]; [by apply elem_of_nil in Hx|].
           by eapply Hnotin.
        -- apply NoDup_singleton.
      * intros q [Hq| ->%list_elem_of_singleton]%elem_of_app; [|done].
        destruct Hlvl as [->|Hl]; [by apply elem_of_nil in Hq|].
        apply Hrests. by apply (bk_levels _ _ Hok _ _ _ Hl).
    + destruct (bk_levels _ _ Hok _ _ _ Hold) as (? & ? & Hall).
      split_and!; try done. intros q Hq. by apply Hrests, Hall.
  - intros id' q. unfold ob'. rewrite Orders_set_side_tree. simpl.
    intros [[<- <-]|[Hne Hq]]%lookup_insert_Some.
    + split; [done|]. exists (lvl ++ [p]). rewrite <- Hside, <- Hprice.
      rewrite side_tree_set. split.
      * apply elem_of_app. right. left.
      * apply elem_of_app. right. left.
    + destruct (book_ok_index _ _ _ _ Hok Hq) as (Hidq & lvlq & He & Hin & _).
      split; [done|].
      destruct (decide (Side_ (deref h q) = s)) as [Hsq|Hsq].
      * rewrite Hsq in *. rewrite side_tree_set. rewrite Ht in He.
        apply elem_of_app in He as [He|[He|He]%elem_of_app].
        -- exists lvlq. split; [|done]. apply elem_of_app. by left.
        -- apply level_entry_elem in He as [[= Hk ->] _].
           exists (lvl ++ [p]). rewrite Hk. split.
           ++ apply elem_of_app. right. left.
           ++ apply elem_of_app. by left.
        -- exists lvlq. split; [|done]. apply elem_of_app. right. by right.
      * exists lvlq. split; [|done].
        rewrite side_tree_set_ne by done.
        by destruct (Side_ (deref h q)).
  - apply uncrossed_intro. intros s0 kb lb ka la -> Hb Ha.
    apply Hnew in Hb. apply Hnew in Ha.
    destruct Hb as [(Hsb & -> & _)|Hb], Ha as [(Hsa & -> & _)|Ha].
    + rewrite <- Hsa in Hsb. done.
    + rewrite <- Hsb in Hcross. by eapply Hcross.
    + rewrite <- Hsa in Hcross. simpl in Hcross.
      specialize (Hcross _ _ Hb). apply (side_cmp_lt Sell) in Hcross.
      by apply (side_cmp_lt Buy).
    + eapply (uncrossed_sides Buy); [|done..]. apply (bk_uncrossed _ _ Hok).
Qed.

(** A well-formed book stays so when the store changes, as long as the
    orders resting in it keep their identity and a positive remaining
    quantity. *)
Lemma book_ok_store h h' ob :
  book_ok h ob →
  (∀ s p, p ∈ resting (side_tree s ob) →
     (p < length h')%nat ∧ ident (deref h' p) = ident (deref h p)
     ∧ 0 < RemainingQuantity (deref h' p)) →
  book_ok h' ob.
Proof.
  intros Hok Hfr.
  assert (Hrests : ∀ s k lvl p, (k, lvl) ∈ side_tree s ob → p ∈ lvl →
    rests h' ob s k p ∧ ident (deref h' p) = ident (deref h p)).
  { intros s k lvl p He Hp.
    destruct (bk_levels _ _ Hok _ _ _ He) as (_ & _ & Hall).
    destruct (Hall _ Hp) as (? & ? & ? & ? & ? & ?).
    destruct (Hfr s p) as (? & Hi & ?).
    { apply elem_of_resting. eauto. }
    split; [|done].
    rewrite <- (ident_ID _ _ Hi), <- (ident_Symbol _ _ Hi) in *.
    split_and!; try done.
    - by rewrite (ident_Side _ _ Hi).
    - by rewrite (ident_Price _ _ Hi). }
  split.
  - apply (bk_sorted _ _ Hok).
  - intros s k lvl He.
    destruct (bk_levels _ _ Hok _ _ _ He) as (? & ? & Hall).
    split_and!; try done. intros p Hp. by eapply Hrests.
  - intros id p Hid.
    destruct (book_ok_index _ _ _ _ Hok Hid) as (Hidp & lvl & He & Hin & _).
    destruct (Hrests _ _ _ _ He Hin) as [_ Hi].
    rewrite (ident_ID _ _ Hi), (ident_Side _ _ Hi), (ident_Price _ _ Hi).
    split; [done|]. eauto.
  - apply (bk_uncrossed _ _ Hok).
Qed.

(** ** One trade *)

Lemma update_update h p f g :
  (p < length h)%nat →
  update (update h p f) p g = update h p (λ o, g (f o)).
Proof.
  intros Hp. unfold update at 1. rewrite deref_update_eq by done.
  unfold update. by rewrite list_insert_insert_eq.
Qed.

Lemma GetBest_Some s ob b :
  GetBest s ob = Some b → ∃ k lvl r, side_tree s ob = (k, b :: lvl) :: r.
Proof.
  unfold GetBest, tree_Left.
  destruct (side_tree s ob) as [|[k [|b' lvl]] r]; simpl; try done.
  intros [= ->]. eauto.
Qed.

Lemma GetBest_rests h s ob b :
  book_ok h ob → GetBest s ob = Some b →
  ∃ k lvl r, side_tree s ob = (k, b :: lvl) :: r ∧ rests h ob s k b.
Proof.
  intros Hok (k & lvl & r & Ht)%GetBest_Some. exists k, lvl, r.
  split; [done|].
  apply (bk_levels _ _ Hok s k (b :: lvl)); [rewrite Ht|]; left.
Qed.

Lemma GetBest_is_Some h s ob :
  book_ok h ob → side_tree s ob ≠ [] → is_Some (GetBest s ob).
Proof.
  intros Hok Hne. unfold GetBest, tree_Left.
  destruct (side_tree s ob) as [|[k lvl] r] eqn:Ht; [done|]. simpl.
  destruct (bk_levels _ _ Hok s k lvl) as (Hnn & _); [rewrite Ht; left|].
  destruct lvl; [done|]. by eexists.
Qed.

(** [RemoveOrder] on the best order of a side. *)
Lemma RemoveOrder_best h s ob b k lvl r :
  side_tree s ob = (k, b :: lvl) :: r → rests h ob s k b →
  RemoveOrder h (ID (deref h b)) ob = (Some b, without_best h s ob).
Proof.
  intros Ht (_ & Hs & Hk & _ & Hid & _).
  unfold RemoveOrder, without_best. rewrite Hid, Hs, Hk, Ht.
  rewrite side_tree_set_Orders, Ht. simpl.
  rewrite !side_cmp_refl. simpl.
  rewrite (bool_decide_eq_true_2 (ID (deref h b) = ID (deref h b))) by done.
  by destruct lvl as [|q l].
Qed.

(** [RemoveOrder] reads the store only for the identity of the orders. *)
Lemma level_remove_ident h h' id (l : list nat) :
  (∀ p, ident (deref h' p) = ident (deref h p)) →
  level_remove h' id l = level_remove h id l.
Proof.
  intros Hi. induction l as [|q r IH]; simpl; [done|].
  by rewrite (ident_ID _ _ (Hi q)), IH.
Qed.

Lemma RemoveOrder_ident h h' id ob :
  (∀ p, ident (deref h' p) = ident (deref h p)) →
  RemoveOrder h' id ob = RemoveOrder h id ob.
Proof.
  intros Hi. unfold RemoveOrder.
  destruct (Orders ob !! id) as [p|]; [|done].
  rewrite (ident_Side _ _ (Hi p)), (ident_Price _ _ (Hi p)).
  destruct (tree_Get _ _ _); [|done].
  by rewrite (level_remove_ident h h').
Qed.

Lemma ident_traded st p b h q :
  ident (deref (traded st p b h) q) = ident (deref h q).
Proof.
  unfold traded, deref.
  destruct (decide (b = q)) as [->|Hb].
  - destruct (decide (q < length h)%nat) as [Hq|Hq].
    + rewrite list_lookup_insert_eq by (by rewrite length_insert).
      destruct (h !! q) eqn:E; [done|].
      apply lookup_ge_None in E. lia.
    + rewrite !list_insert_ge by (rewrite ?length_insert; lia).
      rewrite list_lookup_insert. case_decide as Hc; [|done].
      destruct Hc as [-> ?]. simpl.
      destruct (h !! q) eqn:E; [done|]. apply lookup_ge_None in E. lia.
  - rewrite list_lookup_insert_ne by done.
    destruct (decide (p = q)) as [->|Hp].
    + destruct (decide (q < length h)%nat) as [Hq|Hq].
      * rewrite list_lookup_insert_eq by done.
        destruct (h !! q) eqn:E; [done|]. apply lookup_ge_None in E. lia.
      * by rewrite list_insert_ge by lia.
    + by rewrite list_lookup_insert_ne by done.
Qed.

Lemma min_int64_neg : min_int64 < 0.
Proof. done. Qed.

(** The closed form of [executeTrade] on a well-formed world, for an incoming
    order with quantity left against the best order of a side. *)
Lemma executeTrade_eq order s w b :
  world_ok order w → 0 < RemainingQuantity (deref (mem w) order) →
  GetBest s (book w) = Some b →
  executeTrade order b w =
    (NewTrade (uuid_New (clock w))
       (getBuyerOrderID (deref (mem w) order) (deref (mem w) b))
       (getSellerOrderID (deref (mem w) order) (deref (mem w) b))
       (Price (deref (mem w) b)) (tradeQuantity (mem w) order b)
       (time_Now (clock w)),
     if bool_decide (RemainingQuantity (deref (mem w) b)
                       ≤ RemainingQuantity (deref (mem w) order))
     then {| mem := traded Filled order b (mem w);
             book := without_best (mem w) s (book w);
             mtr := DecOrdersInBook (mtr w); clock := S (clock w) |}
     else {| mem := traded PartialFill order b (mem w);
             book := book w; mtr := mtr w; clock := S (clock w) |}).
Proof.
  intros [Hst Hok Hp Hfresh] Hrem HB.
  destruct (GetBest_rests _ _ _ _ Hok HB) as (k & lvl & r & Ht & Hr).
  pose proof Hr as (Hb & Hside & Hprice & Hsym & Hid & Hremb).
  assert (b ≠ order) as Hne.
  { intros ->. apply (Hfresh s). rewrite Ht, resting_cons. left. }
  set (h := mem w) in *.
  set (oi := deref h order) in *. set (om := deref h b) in *.
  assert (order_ok oi) as (Hsi & Hfi & Hoi & _).
  { rewrite Forall_forall in Hst. apply Hst.
    apply list_elem_of_lookup. exists order. by apply lookup_deref. }
  assert (order_ok om) as (Hsm & Hfm & Hom & _).
  { rewrite Forall_forall in Hst. apply Hst.
    apply list_elem_of_lookup. exists b. by apply lookup_deref. }
  unfold int64, max_int64 in Hoi, Hom. pose proof min_int64_neg as Hmin.
  unfold executeTrade. fold h oi om.
  set (q := if RemainingQuantity om <? RemainingQuantity oi
            then RemainingQuantity om else RemainingQuantity oi).
  assert (q = tradeQuantity h order b) as Hq.
  { unfold q, tradeQuantity. fold oi om.
    destruct (Z.ltb_spec (RemainingQuantity om) (RemainingQuantity oi)); lia. }
  assert (0 < q ≤ RemainingQuantity oi ∧ q ≤ RemainingQuantity om) as Hqb.
  { rewrite Hq. unfold tradeQuantity. fold oi om. lia. }
  set (h1 := update h order _).
  set (h2 := update h1 order _).
  assert (h2 = <[order := fill q oi]> h) as Hh2.
  { unfold h2, h1. rewrite update_update by done.
    unfold update. fold oi. f_equal. unfold fill. simpl.
    unfold sub64, add64. rewrite !wrap64_id; [done|unfold int64, max_int64; lia..]. }
  assert (deref h2 b = om) as Hb2.
  { rewrite Hh2. unfold deref. by rewrite list_lookup_insert_ne. }
  set (h3 := update h2 b _).
  set (h4 := update h3 b _).
  assert (h4 = <[b := fill q om]> h2) as Hh4.
  { unfold h4, h3. rewrite update_update by (rewrite Hh2, length_insert; done).
    unfold update. rewrite Hb2. f_equal. unfold fill. simpl.
    unfold sub64, add64. rewrite !wrap64_id; [done|unfold int64, max_int64; lia..]. }
  assert (b < length h2)%nat as Hbl by (rewrite Hh2, length_insert; done).
  assert (deref h4 b = fill q om) as Hb4.
  { rewrite Hh4. apply deref_lookup. by apply list_lookup_insert_eq. }
  rewrite Hb4. simpl RemainingQuantity at 1.
  assert (∀ st, update h4 b (set_Status st) = traded st order b h) as Hfin.
  { intros st. unfold update. rewrite Hb4, Hh4, list_insert_insert_eq, Hh2.
    unfold traded. fold oi om. by rewrite <- Hq. }
  rewrite !Hfin, <- Hq.
  destruct (Z.eqb_spec (RemainingQuantity om - q) 0) as [Hz|Hz].
  - rewrite bool_decide_eq_true_2 by lia.
    rewrite (RemoveOrder_ident h) by apply ident_traded.
    rewrite (ident_ID _ _ (ident_traded _ _ _ _ _)).
    by rewrite (RemoveOrder_best _ _ _ _ _ _ _ Ht Hr).
  - rewrite bool_decide_eq_false_2; [done|].
    rewrite Hq in Hz. unfold tradeQuantity in Hz. fold oi om in Hz. lia.
Qed.

Lemma length_traded st p b h : length (traded st p b h) = length h.
Proof. unfold traded. by rewrite !length_insert. Qed.

Lemma deref_traded_incoming st p b h :
  (p < length h)%nat → b ≠ p →
  deref (traded st p b h) p = fill (tradeQuantity h p b) (deref h p).
Proof.
  intros Hp Hne. unfold traded. apply deref_lookup.
  rewrite list_lookup_insert_ne by done. by apply list_lookup_insert_eq.
Qed.

Lemma deref_traded_maker st p b h :
  (b < length h)%nat →
  deref (traded st p b h) b
  = set_Status st (fill (tradeQuantity h p b) (deref h b)).
Proof.
  intros Hb. unfold traded. apply deref_lookup.
  apply list_lookup_insert_eq. by rewrite length_insert.
Qed.

Lemma lookup_traded_other st p b h x :
  x ≠ p → x ≠ b → traded st p b h !! x = h !! x.
Proof.
  intros Hp Hb. unfold traded. by rewrite !list_lookup_insert_ne.
Qed.

Lemma deref_traded_other st p b h x :
  x ≠ p → x ≠ b → deref (traded st p b h) x = deref h x.
Proof. intros Hp Hb. unfold deref. by rewrite lookup_traded_other. Qed.

Lemma store_order_ok h p :
  Forall order_ok h → (p < length h)%nat → order_ok (deref h p).
Proof.
  rewrite Forall_forall. intros Hst Hp. apply Hst.
  apply list_elem_of_lookup. exists p. by apply lookup_deref.
Qed.

Lemma order_ok_set_Status st o : order_ok o → order_ok (set_Status st o).
Proof. done. Qed.

Lemma order_ok_fill q o :
  order_ok o → 0 ≤ q ≤ RemainingQuantity o → order_ok (fill q o).
Proof.
  intros (Hs & Hf & Ho & _) Hq. unfold order_ok, fill. simpl.
  split_and!; [lia|lia|done|left; lia].
Qed.

Lemma traded_order_ok st p b h :
  Forall order_ok h → (p < length h)%nat → (b < length h)%nat →
  0 ≤ RemainingQuantity (deref h p) → 0 ≤ RemainingQuantity (deref h b) →
  Forall order_ok (traded st p b h).
Proof.
  intros Hst Hp Hb Hrp Hrb. unfold traded.
  apply Forall_insert; [apply Forall_insert; [done|]|].
  - apply order_ok_fill; [by apply store_order_ok|].
    unfold tradeQuantity. lia.
  - apply order_ok_set_Status, order_ok_fill; [by apply store_order_ok|].
    unfold tradeQuantity. lia.
Qed.

Lemma resting_level_entry k lvl (r : list (Z * list nat)) :
  resting (level_entry k lvl ++ r) = lvl ++ resting r.
Proof. by destruct lvl. Qed.

Lemma without_best_ok h s ob b k lvl r :
  book_ok h ob → side_tree s ob = (k, b :: lvl) :: r →
  book_ok h (without_best h s ob).
Proof.
  intros Hok Ht.
  destruct (bk_levels _ _ Hok s k (b :: lvl)) as (_ & _ & Hall);
    [rewrite Ht; left|].
  destruct (Hall b) as (_ & Hs & Hk & _ & Hid & _); [left|].
  unfold without_best. rewrite Ht.
  pose proof (book_ok_remove h ob (ID (deref h b)) b [] [] lvl r Hok Hid)
    as Hrm.
  rewrite Hs, Hk in Hrm. by apply Hrm.
Qed.

Lemma without_best_side h s ob b k lvl r :
  side_tree s ob = (k, b :: lvl) :: r →
  side_tree s (without_best h s ob) = level_entry k lvl ++ r
  ∧ side_tree (opposite s) (without_best h s ob) = side_tree (opposite s) ob
  ∧ Orders (without_best h s ob) = delete (ID (deref h b)) (Orders ob)
  ∧ BookSymbol (without_best h s ob) = BookSymbol ob.
Proof.
  intros Ht. unfold without_best. rewrite Ht.
  rewrite side_tree_set, side_tree_set_opposite, side_tree_set_Orders,
    Orders_set_side_tree, BookSymbol_set_side_tree. done.
Qed.

(** An order resting in a well-formed book is found through the index. *)
Lemma resting_index h ob s p :
  book_ok h ob → p ∈ resting (side_tree s ob) →
  Orders ob !! ID (deref h p) = Some p ∧ Side_ (deref h p) = s.
Proof.
  intros Hok (k & lvl & He & Hp)%elem_of_resting.
  destruct (bk_levels _ _ Hok _ _ _ He) as (_ & _ & Hall).
  by destruct (Hall _ Hp) as (_ & ? & _ & _ & ? & _).
Qed.

Lemma index_resting h ob id p :
  book_ok h ob → Orders ob !! id = Some p →
  p ∈ resting (side_tree (Side_ (deref h p)) ob).
Proof.
  intros Hok Hid.
  destruct (book_ok_index _ _ _ _ Hok Hid) as (_ & lvl & He & Hp & _).
  apply elem_of_resting. eauto.
Qed.

Lemma without_best_resting h s ob b k lvl r s' x :
  book_ok h ob → side_tree s ob = (k, b :: lvl) :: r →
  x ∈ resting (side_tree s' (without_best h s ob)) →
  x ∈ resting (side_tree s' ob) ∧ x ≠ b.
Proof.
  intros Hok Ht Hx.
  pose proof (without_best_ok _ _ _ _ _ _ _ Hok Ht) as Hok'.
  destruct (resting_index _ _ _ _ Hok' Hx) as [Hid Hs].
  destruct (without_best_side h _ _ _ _ _ _ Ht) as (_ & _ & HO & _).
  rewrite HO in Hid. apply lookup_delete_Some in Hid as [Hne Hid].
  split; [|by intros ->].
  rewrite <- Hs. by eapply index_resting.
Qed.

(** A trade keeps the world well-formed. *)
Lemma executeTrade_ok order s w b :
  world_ok order w → 0 < RemainingQuantity (deref (mem w) order) →
  GetBest s (book w) = Some b →
  world_ok order (executeTrade order b w).2.
Proof.
  intros Hw Hrem HB. rewrite (executeTrade_eq _ _ _ _ Hw Hrem HB). simpl.
  destruct Hw as [Hst Hok Hp Hfresh].
  destruct (GetBest_rests _ _ _ _ Hok HB) as (k & lvl & r & Ht & Hr).
  pose proof Hr as (Hb & Hside & Hprice & Hsym & Hid & Hremb).
  assert (b ≠ order) as Hne.
  { intros ->. apply (Hfresh s). rewrite Ht, resting_cons. left. }
  case_bool_decide as Hfull; simpl.
  - split; simpl.
    + apply traded_order_ok; try done; lia.
    + eapply book_ok_store; [by eapply without_best_ok|].
      intros s' x Hx.
      destruct (without_best_resting _ _ _ _ _ _ _ _ _ Hok Ht Hx) as [Hx' Hxb].
      assert (x ≠ order) as Hxo by (intros ->; by apply (Hfresh s')).
      rewrite length_traded, deref_traded_other by done.
      destruct (resting_index _ _ _ _ Hok Hx') as [Hidx _].
      apply elem_of_resting in Hx' as (k' & lvl' & He & Hin).
      destruct (bk_levels _ _ Hok _ _ _ He) as (_ & _ & Hall).
      by destruct (Hall _ Hin) as (? & _ & _ & _ & _ & ?).
    + by rewrite length_traded.
    + intros s' Hin.
      apply (without_best_resting _ _ _ _ _ _ _ _ _ Hok Ht) in Hin as [Hin _].
      by apply (Hfresh s').
  - split; simpl.
    + apply traded_order_ok; try done; lia.
    + eapply book_ok_store; [done|].
      intros s' x Hx. rewrite length_traded.
      assert (x ≠ order) as Hxo by (intros ->; by apply (Hfresh s')).
      apply elem_of_resting in Hx as (k' & lvl' & He & Hin).
      destruct (bk_levels _ _ Hok _ _ _ He) as (_ & _ & Hall).
      destruct (Hall _ Hin) as (? & _ & _ & _ & _ & ?).
      split; [done|]. split; [apply ident_traded|].
      destruct (decide (x = b)) as [->|Hxb].
      * rewrite deref_traded_maker by done. simpl.
        unfold tradeQuantity. lia.
      * by rewrite deref_traded_other.
    + by rewrite length_traded.
    + done.
Qed.

(** ** The matching loop *)

(** With the fuel [ProcessOrder] gives it, the loop returns, and what it
    returns is a run of [matched]. *)
Lemma match_loop_matched fuel stop s order w acc :
  world_ok order w →
  (length (resting (side_tree s (book w))) < fuel)%nat
  ∨ (RemainingQuantity (deref (mem w) order) ≤ 0 ∧ (0 < fuel)%nat) →
  ∃ ts w', match_loop fuel stop s order w acc = Some (acc ++ ts, w')
           ∧ matched stop s order w ts w'.
Proof.
  revert w acc. induction fuel as [|fuel IH]; intros w acc Hw Hfuel.
  { destruct Hfuel as [?|[_ ?]]; lia. }
  simpl.
  destruct (Z.ltb_spec 0 (RemainingQuantity (deref (mem w) order))) as [Hrem|Hrem];
    simpl.
  2:{ exists [], w. rewrite app_nil_r. split; [done|].
      apply matched_done. by left. }
  destruct Hfuel as [Hfuel|[? _]]; [|lia].
  destruct (side_tree s (book w)) as [|e r] eqn:Ht; simpl.
  { exists [], w. rewrite app_nil_r. split; [done|].
    apply matched_done. right. by left. }
  destruct (GetBest_is_Some (mem w) s (book w)) as [b HB].
  { apply Hw. } { by rewrite Ht. }
  rewrite HB.
  destruct (stop (deref (mem w) order) (deref (mem w) b)) eqn:Hstop.
  { exists [], w. rewrite app_nil_r. split; [done|].
    apply matched_done. right. right. eauto. }
  pose proof (executeTrade_ok _ _ _ _ Hw Hrem HB) as Hw1.
  pose proof (executeTrade_eq _ _ _ _ Hw Hrem HB) as Heq.
  destruct (executeTrade order b w) as [t w1] eqn:Hex. simpl in Hw1.
  destruct (IH w1 (acc ++ [t]) Hw1) as (ts & w' & Hloop & Hm).
  { injection Heq as _ ->.
    destruct (GetBest_Some _ _ _ HB) as (k & lvl & r' & Ht').
    rewrite Ht' in Ht. injection Ht as <- <-.
    rewrite resting_cons in Hfuel. simpl in Hfuel.
    case_bool_decide as Hfull; simpl.
    - left.
      destruct (without_best_side (mem w) _ _ _ _ _ _ Ht') as (-> & _).
      rewrite resting_level_entry. lia.
    - right. split; [|lia].
      destruct Hw as [_ Hok Hp Hfresh].
      assert (b ≠ order) as Hne.
      { intros ->. apply (Hfresh s). rewrite Ht', resting_cons. left. }
      rewrite deref_traded_incoming by done. simpl.
      unfold tradeQuantity. lia. }
  exists (t :: ts), w'. split.
  - rewrite Hloop. by rewrite <- app_assoc.
  - replace t with (executeTrade order b w).1 by (by rewrite Hex).
    apply matched_step; try done. by rewrite Hex.
Qed.

Lemma evolves_refl o : evolves o o.
Proof. unfold evolves. split_and!; [done|lia..]. Qed.

Lemma evolves_trans o1 o2 o3 : evolves o1 o2 → evolves o2 o3 → evolves o1 o3.
Proof.
  unfold evolves. intros (-> & ? & ?) (-> & ? & ?). split_and!; [done|lia..].
Qed.

Lemma store_evolves_refl h : store_evolves h h.
Proof. intros p o Hp. exists o. split; [done|apply evolves_refl]. Qed.

Lemma store_evolves_trans h1 h2 h3 :
  store_evolves h1 h2 → store_evolves h2 h3 → store_evolves h1 h3.
Proof.
  intros H12 H23 p o Hp.
  destruct (H12 _ _ Hp) as (o2 & Hp2 & He2).
  destruct (H23 _ _ Hp2) as (o3 & Hp3 & He3).
  exists o3. split; [done|by eapply evolves_trans].
Qed.

Lemma evolves_set_Status st o : evolves o (set_Status st o).
Proof. unfold evolves. simpl. split_and!; [done|lia..]. Qed.

Lemma evolves_fill q o : 0 ≤ q → evolves o (fill q o).
Proof. intros Hq. unfold evolves. simpl. split_and!; [done|lia..]. Qed.

Lemma store_evolves_update h p f :
  (∀ o, evolves o (f o)) → store_evolves h (update h p f).
Proof.
  intros Hf x o Hx. unfold update.
  destruct (decide (p = x)) as [->|Hne].
  - rewrite list_lookup_insert_eq by (by eapply lookup_lt_Some).
    eexists. split; [done|]. rewrite (deref_lookup _ _ _ Hx). apply Hf.
  - rewrite list_lookup_insert_ne by done. exists o.
    split; [done|apply evolves_refl].
Qed.

Lemma store_evolves_traded st p b h :
  0 ≤ tradeQuantity h p b → store_evolves h (traded st p b h).
Proof.
  intros Hq x o Hx. pose proof (lookup_lt_Some _ _ _ Hx) as Hlt.
  unfold traded.
  destruct (decide (b = x)) as [->|Hb].
  - rewrite list_lookup_insert_eq by (by rewrite length_insert).
    eexists. split; [done|]. rewrite (deref_lookup _ _ _ Hx).
    eapply evolves_trans; [by apply evolves_fill|apply evolves_set_Status].
  - rewrite list_lookup_insert_ne by done.
    destruct (decide (p = x)) as [->|Hp].
    + rewrite list_lookup_insert_eq by done.
      eexists. split; [done|]. rewrite (deref_lookup _ _ _ Hx).
      by apply evolves_fill.
    + rewrite list_lookup_insert_ne by done. exists o.
      split; [done|apply evolves_refl].
Qed.

(** What one trade does to the world around the two orders it fills. *)
Lemma executeTrade_frame order s w b :
  world_ok order w → 0 < RemainingQuantity (deref (mem w) order) →
  GetBest s (book w) = Some b →
  let w1 := (executeTrade order b w).2 in
  length (mem w1) = length (mem w)
  ∧ (∀ x, ident (deref (mem w1) x) = ident (deref (mem w) x))
  ∧ (∀ x, x ≠ order → x ∉ resting (side_tree s (book w)) →
       mem w1 !! x = mem w !! x)
  ∧ side_tree (opposite s) (book w1) = side_tree (opposite s) (book w)
  ∧ BookSymbol (book w1) = BookSymbol (book w)
  ∧ (∃ n, resting (side_tree s (book w1))
          = drop n (resting (side_tree s (book w))))
  ∧ (∀ id p, Orders (book w1) !! id = Some p → Orders (book w) !! id = Some p)
  ∧ store_evolves (mem w) (mem w1).
Proof.
  intros Hw Hrem HB w1. unfold w1.
  rewrite (executeTrade_eq _ _ _ _ Hw Hrem HB). simpl.
  destruct Hw as [Hst Hok Hp Hfresh].
  destruct (GetBest_rests _ _ _ _ Hok HB) as (k & lvl & r & Ht & Hr).
  pose proof Hr as (Hb & Hside & Hprice & Hsym & Hid & Hremb).
  assert (0 ≤ tradeQuantity (mem w) order b) as Hq.
  { unfold tradeQuantity. lia. }
  assert (∀ st x, x ≠ order → x ∉ resting (side_tree s (book w)) →
            traded st order b (mem w) !! x = mem w !! x) as Hfr.
  { intros st x Hxo Hx. apply lookup_traded_other; [done|].
    intros ->. apply Hx. rewrite Ht, resting_cons. left. }
  case_bool_decide as Hfull; simpl.
  - destruct (without_best_side (mem w) _ _ _ _ _ _ Ht) as (Hs1 & Hs2 & HO & HS).
    split_and!; try done.
    + apply length_traded.
    + intros x. apply ident_traded.
    + apply Hfr.
    + exists 1%nat. by rewrite Hs1, Ht, resting_level_entry, resting_cons.
    + intros id p. rewrite HO. by intros [_ ?]%lookup_delete_Some.
    + by apply store_evolves_traded.
  - split_and!; try done.
    + apply length_traded.
    + intros x. apply ident_traded.
    + apply Hfr.
    + by exists 0%nat.
    + by apply store_evolves_traded.
Qed.

(** What a whole run of the loop does. *)
Lemma matched_frame stop s order w ts w' :
  matched stop s order w ts w' → world_ok order w →
  world_ok order w'
  ∧ length (mem w') = length (mem w)
  ∧ (∀ x, ident (deref (mem w') x) = ident (deref (mem w) x))
  ∧ (∀ x, x ≠ order → x ∉ resting (side_tree s (book w)) →
       mem w' !! x = mem w !! x)
  ∧ side_tree (opposite s) (book w') = side_tree (opposite s) (book w)
  ∧ BookSymbol (book w') = BookSymbol (book w)
  ∧ (∃ n, resting (side_tree s (book w'))
          = drop n (resting (side_tree s (book w))))
  ∧ (∀ id p, Orders (book w') !! id = Some p → Orders (book w) !! id = Some p)
  ∧ store_evolves (mem w) (mem w').
Proof.
  induction 1 as [w Hend|w b ts w' Hrem HB Hstop Hm IH]; intros Hw.
  - split_and!; try done. + by exists 0%nat. + apply store_evolves_refl.
  - pose proof (executeTrade_ok _ _ _ _ Hw Hrem HB) as Hw1.
    destruct (executeTrade_frame _ _ _ _ Hw Hrem HB)
      as (Hl1 & Hi1 & Hf1 & Ho1 & Hs1 & [n1 Hr1] & HO1 & He1).
    destruct (IH Hw1) as (Hw' & Hl & Hi & Hf & Ho & Hs & [n Hr] & HO & He).
    split_and!; try done.
    + by rewrite Hl.
    + intros x. by rewrite Hi.
    + intros x Hxo Hx. rewrite Hf; [by apply Hf1|done|].
      rewrite Hr1. intros Hin. by apply Hx, (subseteq_drop n1).
    + by rewrite Ho.
    + by rewrite Hs.
    + exists (n1 + n)%nat. by rewrite Hr, Hr1, drop_drop.
    + intros id p Hp. by apply HO1, HO.
    + by eapply store_evolves_trans.
Qed.

(** The condition a run ends on. *)
Lemma matched_final stop s order w ts w' :
  matched stop s order w ts w' →
  RemainingQuantity (deref (mem w') order) ≤ 0
  ∨ side_tree s (book w') = []
  ∨ (∃ b, GetBest s (book w') = Some b
          ∧ stop (deref (mem w') order) (deref (mem w') b) = true).
Proof. by induction 1. Qed.

(** ** ProcessOrder *)

Lemma getOrderBook_eq symbol e :
  getOrderBook symbol e
  = (book_of symbol e,
     set_OrderBooks (<[symbol := book_of symbol e]> (OrderBooks e)) e).
Proof.
  unfold getOrderBook, book_of.
  destruct (OrderBooks e !! symbol) as [ob|] eqn:E; simpl; [|done].
  rewrite insert_id by done. by destruct e.
Qed.

Lemma process_dispatch order w :
  match Type_ (deref (mem w) order) with
  | Limit => processLimitOrder order w
  | Market => processMarketOrder order w
  end
  = match_loop (loop_bound (opposite (Side_ (deref (mem w) order))) w)
      (stop_of (deref (mem w) order))
      (opposite (Side_ (deref (mem w) order))) order w [].
Proof.
  unfold processLimitOrder, processMarketOrder, stop_of.
  by destruct (Type_ (deref (mem w) order)), (Side_ (deref (mem w) order)).
Qed.

Lemma book_ok_empty h symbol : book_ok h (NewOrderBook symbol).
Proof.
  split.
  - intros []; apply SSorted_nil.
  - intros [] k lvl He; by apply elem_of_nil in He.
  - intros id p Hid. simpl in Hid. by rewrite lookup_empty in Hid.
  - intros kb lb ka la Hb. by apply elem_of_nil in Hb.
Qed.

Lemma book_of_ok e symbol :
  engine_ok e →
  book_ok (store e) (book_of symbol e) ∧ BookSymbol (book_of symbol e) = symbol.
Proof.
  intros He. unfold book_of.
  destruct (OrderBooks e !! symbol) as [ob|] eqn:E; simpl.
  - by apply (e_books _ He).
  - split; [apply book_ok_empty|done].
Qed.

Lemma book_of_fresh order e symbol s :
  incoming_ok order e → order ∉ resting (side_tree s (book_of symbol e)).
Proof.
  intros (_ & Hfr & _). unfold book_of.
  destruct (OrderBooks e !! symbol) as [ob|] eqn:E; simpl.
  - by eapply Hfr.
  - destruct s; apply not_elem_of_nil.
Qed.

Lemma start_world_ok order e :
  engine_ok e → incoming_ok order e → world_ok order (start_world order e).
Proof.
  intros He Hin. split; simpl.
  - apply (e_store _ He).
  - by apply book_of_ok.
  - apply Hin.
  - intros s. by apply book_of_fresh.
Qed.

(** The three outcomes of [ProcessOrder] on a state of the engine: rejected by
    validation, rejected for liquidity, or matched by a run of the loop that
    returns. *)
Lemma ProcessOrder_cases order e :
  engine_ok e → incoming_ok order e →
  let o := deref (store e) order in
  let e1 := set_metrics (IncOrdersReceived (metrics e)) e in
  (∃ err, Validate o = Some err ∧ ProcessOrder order e = Some (e1, Err err))
  ∨ (Validate o = None ∧ Type_ o = Market
     ∧ CalculateLiquidity (store e) (Side_ o) (OriginalQuantity o)
         (book_of (Symbol o) e) < OriginalQuantity o
     ∧ ProcessOrder order e
       = Some ({| OrderBooks := <[Symbol o := book_of (Symbol o) e]> (OrderBooks e);
                  AllOrders := delete (ID o) (AllOrders e);
                  metrics := IncOrdersReceived (metrics e);
                  store := store e; draws := draws e |},
               Err (ErrInsufficientLiquidity
                      (CalculateLiquidity (store e) (Side_ o)
                         (OriginalQuantity o) (book_of (Symbol o) e))
                      (OriginalQuantity o))))
  ∨ (Validate o = None
     ∧ (Type_ o = Market →
        OriginalQuantity o
        ≤ CalculateLiquidity (store e) (Side_ o) (OriginalQuantity o)
            (book_of (Symbol o) e))
     ∧ ∃ ts w',
         matched (stop_of o) (opposite (Side_ o)) order
           (start_world order e) ts w'
         ∧ ProcessOrder order e
           = Some (end_engine order e ts w',
                   Ok {| ResultOrder := order; Trades := ts |})).
Proof.
  intros He Hin o e1. unfold ProcessOrder. simpl. fold o.
  destruct (Validate o) as [err|] eqn:HV; [left; eauto|right].
  rewrite getOrderBook_eq. simpl.
  assert (book_of (Symbol o)
            (set_AllOrders (<[ID o:=order]> (AllOrders e))
               (set_metrics (IncOrdersReceived (metrics e)) e))
          = book_of (Symbol o) e) as Hbo by done.
  rewrite !Hbo. clear Hbo.
  set (ob := book_of (Symbol o) e).
  set (available := CalculateLiquidity (store e) (Side_ o) (OriginalQuantity o) ob).
  assert (Hrej :
    match Type_ o with
    | Market => if available <? OriginalQuantity o then Some available else None
    | Limit => None
    end = None ∨
    (Type_ o = Market ∧ available < OriginalQuantity o ∧
     match Type_ o with
     | Market => if available <? OriginalQuantity o then Some available else None
     | Limit => None
     end = Some available)).
  { destruct (Type_ o); [by left|].
    destruct (Z.ltb_spec available (OriginalQuantity o)); [right|left]; done. }
  destruct Hrej as [Hrej|(Hty & Hlt & Hrej)]; rewrite Hrej.
  2:{ left. split_and!; try done. do 2 f_equal.
      unfold set_AllOrders. simpl. by rewrite delete_insert_eq. }
  right. split; [done|]. split.
  { intros Hty. rewrite Hty in Hrej.
    destruct (Z.ltb_spec available (OriginalQuantity o)); [done|lia]. }
  pose proof (start_world_ok _ _ He Hin) as Hw.
  change {| mem := store e; book := ob; mtr := IncOrdersReceived (metrics e);
            clock := draws e |} with (start_world order e).
  pose proof (process_dispatch order (start_world order e)) as Hd.
  change (mem (start_world order e)) with (store e) in Hd. fold o in Hd.
  rewrite Hd. clear Hd.
  destruct (match_loop_matched
              (loop_bound (opposite (Side_ o)) (start_world order e))
              (stop_of o) (opposite (Side_ o)) order (start_world order e) []
              Hw) as (ts & w' & Hloop & Hm).
  { left. unfold loop_bound. lia. }
  rewrite app_nil_l in Hloop. rewrite Hloop.
  exists ts, w'. split; [done|]. unfold end_engine, count_trades. fold o.
  do 2 f_equal. by rewrite insert_insert_eq.
Qed.

Lemma update_set_Status_twice h p st st' :
  update (update h p (set_Status st)) p (set_Status st')
  = update h p (set_Status st').
Proof.
  destruct (decide (p < length h)%nat) as [Hp|Hp].
  - by rewrite update_update.
  - unfold update. by rewrite !list_insert_ge by (rewrite ?length_insert; lia).
Qed.

Lemma deref_update_set_Status h p st x :
  RemainingQuantity (deref (update h p (set_Status st)) x)
  = RemainingQuantity (deref h x)
  ∧ FilledQuantity (deref (update h p (set_Status st)) x)
    = FilledQuantity (deref h x)
  ∧ ident (deref (update h p (set_Status st)) x) = ident (deref h x).
Proof.
  destruct (decide (p = x)) as [->|Hne].
  - destruct (decide (x < length h)%nat) as [Hp|Hp].
    + by rewrite deref_update_eq.
    + unfold update. by rewrite !list_insert_ge by lia.
  - by rewrite deref_update_ne.
Qed.

(** The closed form of the end of [ProcessOrder]. *)
Lemma finalize_eq order w :
  finalize order w =
    let o := deref (mem w) order in
    let h := update (mem w) order (set_Status (final_status o)) in
    {| mem := h;
       book := if goes_to_book o then AddOrder h order (book w) else book w;
       mtr := if goes_to_book o then IncOrdersInBook (mtr w) else mtr w;
       clock := clock w |}.
Proof.
  unfold finalize, final_status, goes_to_book. simpl.
  set (o := deref (mem w) order).
  assert (∀ st, RemainingQuantity (deref (update (mem w) order (set_Status st)) order)
                = RemainingQuantity o) as Hr.
  { intros st. apply deref_update_set_Status. }
  assert (∀ st, Type_ (deref (update (mem w) order (set_Status st)) order)
                = Type_ o) as Ht.
  { intros st. apply ident_Type, deref_update_set_Status. }
  destruct (0 <? FilledQuantity o), (Z.eqb_spec (RemainingQuantity o) 0) as [Hz|Hz];
    rewrite ?Hr, ?Ht, ?Hz; simpl;
    destruct (Z.ltb_spec 0 (RemainingQuantity o)); simpl;
    rewrite ?update_set_Status_twice; try lia; try done;
    by destruct (Type_ o).
Qed.

Lemma stop_no_cross h ob o o' b :
  book_ok h ob → Type_ o = Limit → Price o' = Price o →
  GetBest (opposite (Side_ o)) ob = Some b →
  stop_of o o' (deref h b) = true →
  ∀ k' lvl', (k', lvl') ∈ side_tree (opposite (Side_ o)) ob →
    side_cmp (Side_ o) k' (Price o) = Lt.
Proof.
  intros Hok Hty Hpr HB Hstop k' lvl' He.
  destruct (GetBest_rests _ _ _ _ Hok HB) as (k & lvl & r & Ht & Hr).
  destruct Hr as (_ & _ & Hk & _).
  pose proof (tree_sorted_head _ _ (k, b :: lvl) _
                (bk_sorted _ _ Hok _) ltac:(by rewrite Ht) He) as Hhd.
  unfold stop_of in Hstop. rewrite Hty in Hstop.
  apply side_cmp_lt.
  destruct (Side_ o); simpl in *; rewrite Hk, Hpr in Hstop.
  - apply Z.ltb_lt in Hstop.
    destruct Hhd as [[= -> _]|Hlt]; [lia|].
    change (k < k') in Hlt. lia.
  - apply Z.gtb_lt in Hstop.
    destruct Hhd as [[= -> _]|Hlt]; [lia|].
    change (k' < k) in Hlt. lia.
Qed.

(** The end of [ProcessOrder] keeps the store and the book well-formed. *)
Lemma finalize_ok order w :
  world_ok order w →
  Symbol (deref (mem w) order) = BookSymbol (book w) →
  (goes_to_book (deref (mem w) order) = true →
   ∀ k' lvl',
     (k', lvl') ∈ side_tree (opposite (Side_ (deref (mem w) order))) (book w) →
     side_cmp (Side_ (deref (mem w) order)) k'
       (Price (deref (mem w) order)) = Lt) →
  Forall order_ok (mem (finalize order w))
  ∧ book_ok (mem (finalize order w)) (book (finalize order w))
  ∧ BookSymbol (book (finalize order w)) = BookSymbol (book w).
Proof.
  intros [Hst Hok Hp Hfresh] Hsym Hcross. rewrite finalize_eq. simpl.
  set (o := deref (mem w) order) in *.
  set (h := update (mem w) order (set_Status (final_status o))).
  assert (Forall order_ok h) as Hst'.
  { unfold h, update. apply Forall_insert; [done|].
    apply order_ok_set_Status. by apply store_order_ok. }
  assert (book_ok h (book w)) as Hok'.
  { eapply book_ok_store; [done|]. intros s x Hx.
    assert (x ≠ order) as Hne by (intros ->; by apply (Hfresh s)).
    unfold h. rewrite length_update, deref_update_ne by done.
    apply elem_of_resting in Hx as (k' & lvl' & He & Hin).
    destruct (bk_levels _ _ Hok _ _ _ He) as (_ & _ & Hall).
    by destruct (Hall _ Hin) as (? & _ & _ & _ & _ & ?). }
  split; [done|].
  destruct (goes_to_book o) eqn:Hg; [|done].
  assert (deref h order = set_Status (final_status o) o) as Hd.
  { unfold h. by rewrite deref_update_eq. }
  destruct (Orders (book w) !! ID (deref h order)) as [q|] eqn:Hid.
  { by rewrite (AddOrder_known _ _ _ _ Hid). }
  destruct (AddOrder_new _ _ _ Hok' Hid) as (t1 & lvl & t2 & Ht & Hs & ->).
  split; [|by rewrite BookSymbol_set_side_tree].
  apply book_ok_add; try done.
  - unfold h. by rewrite length_update.
  - by rewrite Hd.
  - rewrite Hd. simpl. unfold goes_to_book in Hg.
    apply andb_true_iff in Hg as [Hg _]. by apply Z.ltb_lt in Hg.
  - rewrite Hd. simpl. by apply Hcross.
Qed.

Lemma finalize_mem order w :
  mem (finalize order w)
  = update (mem w) order (set_Status (final_status (deref (mem w) order))).
Proof. by rewrite finalize_eq. Qed.

Lemma world_ok_ext order w w' :
  mem w' = mem w → book w' = book w → world_ok order w → world_ok order w'.
Proof. intros Hm Hb [? ? ? ?]. split; by rewrite ?Hm, ?Hb. Qed.

(** An order resting in the book of one symbol is not an order resting in
    the book of another. *)
Lemma resting_symbol h ob s x :
  book_ok h ob → x ∈ resting (side_tree s ob) →
  (x < length h)%nat ∧ Symbol (deref h x) = BookSymbol ob
  ∧ 0 < RemainingQuantity (deref h x).
Proof.
  intros Hok (k & lvl & He & Hin)%elem_of_resting.
  destruct (bk_levels _ _ Hok _ _ _ He) as (_ & _ & Hall).
  by destruct (Hall _ Hin) as (? & _ & _ & ? & _ & ?).
Qed.

(** The cross condition [finalize_ok] asks for holds at the end of a run. *)
Lemma matched_no_cross order e ts w' :
  engine_ok e → incoming_ok order e →
  matched (stop_of (deref (store e) order))
    (opposite (Side_ (deref (store e) order))) order
    (start_world order e) ts w' →
  goes_to_book (deref (mem w') order) = true →
  ∀ k' lvl',
    (k', lvl') ∈ side_tree (opposite (Side_ (deref (mem w') order))) (book w') →
    side_cmp (Side_ (deref (mem w') order)) k'
      (Price (deref (mem w') order)) = Lt.
Proof.
  intros He Hin Hm Hg k' lvl' Hel.
  pose proof (start_world_ok _ _ He Hin) as Hw0.
  destruct (matched_frame _ _ _ _ _ _ Hm Hw0)
    as (Hw' & Hl & Hi & Hf & Ho & Hs & _ & HO & Hev).
  simpl in Hi.
  rewrite (ident_Side _ _ (Hi order)) in Hel |- *.
  rewrite (ident_Price _ _ (Hi order)).
  unfold goes_to_book in Hg. apply andb_true_iff in Hg as [Hr Hty].
  apply Z.ltb_lt in Hr. apply bool_decide_eq_true in Hty.
  rewrite (ident_Type _ _ (Hi order)) in Hty.
  destruct (matched_final _ _ _ _ _ _ Hm) as [Hfin|[Hfin|(b & HB & Hstop)]].
  - lia.
  - rewrite Hfin in Hel. by apply elem_of_nil in Hel.
  - apply (stop_no_cross (mem w') (book w') (deref (store e) order)
             (deref (mem w') order) b) with lvl'; try done.
    + apply Hw'.
    + by rewrite (ident_Price _ _ (Hi order)).
Qed.

(** The engine after a successful [ProcessOrder] is well-formed. *)
Lemma end_engine_ok order e ts w' :
  engine_ok e → incoming_ok order e →
  matched (stop_of (deref (store e) order))
    (opposite (Side_ (deref (store e) order))) order
    (start_world order e) ts w' →
  engine_ok (end_engine order e ts w').
Proof.
  intros He Hin Hm.
  pose proof (start_world_ok _ _ He Hin) as Hw0.
  destruct (matched_frame _ _ _ _ _ _ Hm Hw0)
    as (Hw' & Hl & Hi & Hf & Ho & Hs & _ & HO & Hev).
  simpl in Hl, Hi, Hf, Ho, Hs.
  destruct (book_of_ok e (Symbol (deref (store e) order)) He) as [Hbo Hbs].
  set (o := deref (store e) order) in *.
  set (W := {| mem := mem w'; book := book w';
               mtr := count_trades ts (mtr w'); clock := clock w' |}).
  assert (world_ok order W) as HW by (by apply (world_ok_ext order w')).
  destruct (finalize_ok order W HW) as (Hst & Hok & Hsym).
  { simpl. by rewrite (ident_Symbol _ _ (Hi order)), Hs. }
  { simpl. by eapply matched_no_cross. }
  pose proof (finalize_mem order W) as Hmem. simpl in Hmem, Hsym.
  assert (∀ x, ident (deref (mem (finalize order W)) x) = ident (deref (store e) x))
    as Hid.
  { intros x. rewrite Hmem.
    destruct (deref_update_set_Status (mem w') order
                (final_status (deref (mem w') order)) x) as (_ & _ & ->).
    apply Hi. }
  assert (length (mem (finalize order W)) = length (store e)) as Hlen.
  { by rewrite Hmem, length_update. }
  unfold end_engine. fold o W. split; simpl.
  - done.
  - intros sym ob [[<- <-]|[Hne Hob]]%lookup_insert_Some.
    + split; [done|]. by rewrite Hsym, Hs.
    + destruct (e_books _ He _ _ Hob) as [Hokb Hsb]. split; [|done].
      eapply book_ok_store; [done|]. intros s x Hx.
      destruct (resting_symbol _ _ _ _ Hokb Hx) as (Hxl & Hxs & Hxr).
      assert (x ≠ order) as Hxo.
      { intros ->. destruct Hin as (_ & Hfr & _). by eapply Hfr. }
      assert (mem (finalize order W) !! x = store e !! x) as Hsame.
      { rewrite Hmem. unfold update. rewrite list_lookup_insert_ne by done.
        apply Hf; [done|]. intros Hx'.
        destruct (resting_symbol _ _ _ _ Hbo Hx') as (_ & Hxs' & _).
        congruence. }
      unfold deref. rewrite Hsame. fold (deref (store e) x).
      split_and!; [lia|done|done].
  - intros id p [[<- <-]|[Hne Hp]]%lookup_insert_Some.
    + split; [rewrite Hlen; apply Hin|]. by rewrite (ident_ID _ _ (Hid order)).
    + destruct (e_registry _ He _ _ Hp) as [Hpl Hpi].
      split; [lia|]. by rewrite (ident_ID _ _ (Hid p)).
Qed.

(** ** The operations keep the engine well-formed *)

Lemma book_ok_update_status h ob p st :
  book_ok h ob → book_ok (update h p (set_Status st)) ob.
Proof.
  intros Hok. eapply book_ok_store; [done|]. intros s x Hx.
  destruct (resting_symbol _ _ _ _ Hok Hx) as (? & _ & ?).
  destruct (deref_update_set_Status h p st x) as (-> & _ & ->).
  by rewrite length_update.
Qed.

Lemma RemoveOrder_ok h id ob :
  book_ok h ob →
  book_ok h (RemoveOrder h id ob).2
  ∧ BookSymbol (RemoveOrder h id ob).2 = BookSymbol ob.
Proof.
  intros Hok. destruct (Orders ob !! id) as [p|] eqn:Hid.
  - destruct (RemoveOrder_Some _ _ _ _ Hok Hid)
      as (t1 & lvl1 & lvl2 & t2 & Ht & ->). simpl. split.
    + by apply book_ok_remove.
    + by rewrite BookSymbol_set_side_tree.
  - by rewrite RemoveOrder_None.
Qed.

Lemma engine_ok_rejected e symbol id m :
  engine_ok e →
  engine_ok {| OrderBooks := <[symbol := book_of symbol e]> (OrderBooks e);
               AllOrders := delete id (AllOrders e);
               metrics := m; store := store e; draws := draws e |}.
Proof.
  intros He. split; simpl.
  - apply He.
  - intros sym ob [[<- <-]|[_ Hob]]%lookup_insert_Some.
    + by apply book_of_ok.
    + by apply (e_books _ He).
  - intros id' p [_ Hp]%lookup_delete_Some. by apply (e_registry _ He).
Qed.

Lemma engine_ok_metrics e m :
  engine_ok e → engine_ok (set_metrics m e).
Proof. intros [? ? ?]. by split. Qed.

Lemma ProcessOrder_ok order e :
  engine_ok e → incoming_ok order e →
  ∃ e' r, ProcessOrder order e = Some (e', r) ∧ engine_ok e'.
Proof.
  intros He Hin.
  destruct (ProcessOrder_cases order e He Hin)
    as [(err & _ & ->)|[(_ & _ & _ & ->)|(_ & _ & ts & w' & Hm & ->)]].
  - eexists _, _. split; [done|]. by apply engine_ok_metrics.
  - eexists _, _. split; [done|]. by apply engine_ok_rejected.
  - eexists _, _. split; [done|]. by apply end_engine_ok.
Qed.

Lemma deref_app_l (h : list Order) o p :
  (p < length h)%nat → deref (h ++ [o]) p = deref h p.
Proof. intros Hp. unfold deref. by rewrite lookup_app_l. Qed.

Lemma deref_app_new (h : list Order) o : deref (h ++ [o]) (length h) = o.
Proof.
  unfold deref. rewrite lookup_app_r by lia. by rewrite Nat.sub_diag.
Qed.

Lemma order_ok_NewOrder id symbol side ty price quantity now :
  int64 quantity →
  order_ok (NewOrder id symbol side ty price quantity now).
Proof. intros Hq. unfold order_ok. simpl. split_and!; [lia|lia|done|by right]. Qed.

Lemma allocated_ok id symbol side ty price quantity e :
  engine_ok e → int64 quantity →
  engine_ok (allocated id symbol side ty price quantity e)
  ∧ incoming_ok (length (store e))
      (allocated id symbol side ty price quantity e).
Proof.
  intros He Hq.
  assert (∀ sym ob s x, OrderBooks e !! sym = Some ob →
            x ∈ resting (side_tree s ob) → (x < length (store e))%nat) as Hlt.
  { intros sym ob s x Hob Hx. destruct (e_books _ He _ _ Hob) as [Hok _].
    by destruct (resting_symbol _ _ _ _ Hok Hx) as (? & _). }
  split; [split|]; simpl.
  - apply Forall_app. split; [apply He|].
    apply Forall_singleton. by apply order_ok_NewOrder.
  - intros sym ob Hob. destruct (e_books _ He _ _ Hob) as [Hok Hs].
    split; [|done]. eapply book_ok_store; [done|]. intros s x Hx.
    pose proof (Hlt _ _ _ _ Hob Hx) as Hxl.
    destruct (resting_symbol _ _ _ _ Hok Hx) as (_ & _ & ?).
    rewrite deref_app_l, length_app by done. split_and!; [lia|done|done].
  - intros id' p Hp. destruct (e_registry _ He _ _ Hp) as [Hpl Hpi].
    rewrite deref_app_l, length_app by done. split; [lia|done].
  - unfold incoming_ok. simpl. rewrite deref_app_new, length_app. simpl.
    split_and!; [lia| |done|done].
    intros sym ob s Hob Hx. apply (Hlt _ _ _ _ Hob) in Hx. lia.
Qed.

Lemma submit_ok id symbol side ty price quantity e :
  engine_ok e → int64 quantity →
  ∃ e' r, submit id symbol side ty price quantity e = Some (e', r)
          ∧ engine_ok e'.
Proof.
  intros He Hq.
  destruct (allocated_ok id symbol side ty price quantity e He Hq) as [He1 Hin].
  by apply ProcessOrder_ok.
Qed.

Lemma engine_ok_getOrderBook symbol e :
  engine_ok e → engine_ok (getOrderBook symbol e).2.
Proof.
  intros He. rewrite getOrderBook_eq. simpl. split; simpl.
  - apply He.
  - intros sym ob [[<- <-]|[_ Hob]]%lookup_insert_Some.
    + by apply book_of_ok.
    + by apply (e_books _ He).
  - apply He.
Qed.

Lemma CancelOrder_ok orderID e :
  engine_ok e → engine_ok (CancelOrder orderID e).1.
Proof.
  intros He. unfold CancelOrder.
  destruct (AllOrders e !! orderID) as [order|] eqn:Hreg; [|done].
  case_bool_decide; [done|]. case_bool_decide; [done|].
  rewrite getOrderBook_eq. simpl.
  set (symbol := Symbol (deref (store e) order)).
  case_bool_decide; [by apply (engine_ok_getOrderBook symbol) in He;
                     rewrite getOrderBook_eq in He|].
  destruct (book_of_ok e symbol He) as [Hbo Hbs].
  destruct (RemoveOrder_ok (store e) orderID _ Hbo) as [Hrm Hrs].
  assert (∀ p ob,
    engine_ok {| OrderBooks := <[symbol := (RemoveOrder (store e) orderID
                                              (book_of symbol e)).2]>
                                 (<[symbol := book_of symbol e]> (OrderBooks e));
                 AllOrders := AllOrders e; metrics := ob;
                 store := update (store e) p (set_Status Cancelled);
                 draws := draws e |}) as Hgen.
  { intros p m. split; simpl.
    - unfold update. apply Forall_insert; [apply He|].
      destruct (decide (p < length (store e))%nat).
      + by apply order_ok_set_Status, store_order_ok; [apply He|].
      + unfold deref. rewrite lookup_ge_None_2 by lia. simpl.
        unfold order_ok, int64, min_int64, max_int64. simpl. lia.
    - intros sym ob [[<- <-]|[_ [[<- <-]|[_ Hob]]%lookup_insert_Some]]%lookup_insert_Some.
      + split; [|congruence]. by apply book_ok_update_status.
      + split; [|done]. by apply book_ok_update_status.
      + destruct (e_books _ He _ _ Hob). split; [|done].
        by apply book_ok_update_status.
    - intros id q Hq. destruct (e_registry _ He _ _ Hq) as [Hql Hqi].
      rewrite length_update. split; [done|].
      destruct (deref_update_set_Status (store e) p Cancelled q) as (_ & _ & Hi).
      by rewrite (ident_ID _ _ Hi). }
  destruct (RemoveOrder (store e) orderID (book_of symbol e)) as [[removed|] ob]
    eqn:Hrem; simpl in *; apply Hgen.
Qed.

Lemma GetOrderBookDepth_ok symbol depthLimit e :
  engine_ok e → engine_ok (GetOrderBookDepth symbol depthLimit e).1.
Proof.
  intros He. unfold GetOrderBookDepth. rewrite getOrderBook_eq. simpl.
  apply (engine_ok_getOrderBook symbol) in He.
  rewrite getOrderBook_eq in He. simpl in He.
  destruct He as [? ? ?]. by split.
Qed.

Lemma NewEngine_ok : engine_ok NewEngine.
Proof.
  split; simpl.
  - constructor.
  - intros sym ob Hob. by rewrite lookup_empty in Hob.
  - intros id p Hp. by rewrite lookup_empty in Hp.
Qed.

Lemma step_ok r e :
  engine_ok e → request_ok r → ∃ e', step r e = Some e' ∧ engine_ok e'.
Proof.
  intros He Hr. destruct r as [id symbol side ty price quantity|id|symbol limit];
    simpl.
  - destruct Hr as [_ Hq].
    destruct (submit_ok id symbol side ty price quantity e He Hq)
      as (e' & r & -> & He'). by exists e'.
  - eexists. split; [done|]. by apply CancelOrder_ok.
  - eexists. split; [done|]. by apply GetOrderBookDepth_ok.
Qed.

Lemma run_ok rs e :
  engine_ok e → Forall request_ok rs →
  ∃ e', run rs e = Some e' ∧ engine_ok e'.
Proof.
  revert e. induction rs as [|r rs IH]; intros e He Hrs; simpl.
  - by exists e.
  - apply Forall_cons in Hrs as [Hr Hrs].
    destruct (step_ok r e He Hr) as (e1 & -> & He1). by apply IH.
Qed.

Lemma reachable_ok e : reachable e → engine_ok e.
Proof.
  intros (rs & Hrs & Hrun).
  destruct (run_ok rs NewEngine NewEngine_ok Hrs) as (e' & Hrun' & He').
  congruence.
Qed.

(** ** Add then remove *)

Lemma tree_sorted_before s k v k' v' r t2 :
  tree_sorted (side_cmp s) ((k', v') :: r ++ (k, v) :: t2) →
  side_cmp s k k' = Gt.
Proof.
  intros [Hall _]%tree_sorted_cons. rewrite Forall_forall in Hall.
  apply side_cmp_gt, (Hall (k, v)). apply elem_of_app. right. left.
Qed.

Lemma tree_Remove_mid s k v t1 t2 :
  tree_sorted (side_cmp s) (t1 ++ (k, v) :: t2) →
  tree_Remove (side_cmp s) k (t1 ++ (k, v) :: t2) = t1 ++ t2.
Proof.
  induction t1 as [|[k' v'] r IH]; simpl; intros Hs.
  - by rewrite side_cmp_refl.
  - rewrite (tree_sorted_before _ _ _ _ _ _ _ Hs).
    apply tree_sorted_cons in Hs as [_ Hs]. by rewrite IH.
Qed.

Lemma tree_Put_mid s k v v' t1 t2 :
  tree_sorted (side_cmp s) (t1 ++ (k, v) :: t2) →
  tree_Put (side_cmp s) k v' (t1 ++ (k, v) :: t2) = t1 ++ (k, v') :: t2.
Proof.
  induction t1 as [|[k1 v1] r IH]; simpl; intros Hs.
  - by rewrite side_cmp_refl.
  - rewrite (tree_sorted_before _ _ _ _ _ _ _ Hs).
    apply tree_sorted_cons in Hs as [_ Hs]. by rewrite IH.
Qed.

(** C9.  Adding an order under an id the book does not know and removing
    that id at once gives the order back and leaves the book as it was:
    the same levels with the same sequences of orders (a level the addition
    created is deleted again) and the same index by id. *)
Theorem AddOrder_RemoveOrder_roundtrip h ob order :
  book_ok h ob → Orders ob !! ID (deref h order) = None →
  RemoveOrder h (ID (deref h order)) (AddOrder h order ob) = (Some order, ob).
Proof.
  intros Hok Hid.
  destruct (AddOrder_new _ _ _ Hok Hid) as (t1 & lvl & t2 & Ht & Hs & ->).
  set (o := deref h order) in *.
  unfold RemoveOrder. rewrite Orders_set_side_tree. simpl.
  rewrite lookup_insert_eq. fold o.
  rewrite side_tree_set_Orders, side_tree_set.
  rewrite (tree_Get_mid _ _ _ _ _ Hs).
  assert (level_remove h (ID o) (lvl ++ [order]) = lvl) as ->.
  { rewrite level_remove_split, app_nil_r; [done..|].
    intros q Hq Hidq.
    assert ((Price o, lvl) ∈ side_tree (Side_ o) ob) as He.
    { rewrite Ht. destruct lvl; [by apply elem_of_nil in Hq|].
      apply elem_of_app. right. left. }
    destruct (bk_levels _ _ Hok _ _ _ He) as (_ & _ & Hall).
    destruct (Hall _ Hq) as (_ & _ & _ & _ & Hq' & _). congruence. }
  assert (delete (ID o) (<[ID o:=order]> (Orders ob)) = Orders ob) as HO.
  { by rewrite delete_insert_eq, delete_id. }
  f_equal. destruct lvl as [|q l]; simpl in *.
  - rewrite (tree_Remove_mid _ _ _ _ _ Hs), <- Ht.
    destruct ob, (Side_ o); simpl in *; by rewrite HO.
  - rewrite (tree_Put_mid _ _ _ _ _ _ Hs), <- Ht.
    destruct ob, (Side_ o); simpl in *; by rewrite HO.
Qed.

(** C4.  No crossed book at rest: in every state the engine reaches from the
    empty one by submissions, cancellations and depth queries (so in
    particular after every successful submit), a book that has both a best
    bid and a best ask has its best bid priced strictly below its best ask. *)
Theorem no_crossed_book e symbol ob bestBid bestAsk :
  reachable e → OrderBooks e !! symbol = Some ob →
  GetBestBid ob = Some bestBid → GetBestAsk ob = Some bestAsk →
  Price (deref (store e) bestBid) < Price (deref (store e) bestAsk).
Proof.
  intros He%reachable_ok Hob Hb Ha.
  destruct (e_books _ He _ _ Hob) as [Hok _].
  destruct (GetBest_rests _ _ _ _ Hok Hb) as (kb & lb & rb & Htb & Hrb).
  destruct (GetBest_rests _ _ _ _ Hok Ha) as (ka & la & ra & Hta & Hra).
  destruct Hrb as (_ & _ & -> & _). destruct Hra as (_ & _ & -> & _).
  eapply (bk_uncrossed _ _ Hok).
  - change (Bids ob) with (side_tree Buy ob). rewrite Htb. left.
  - change (Asks ob) with (side_tree Sell ob). rewrite Hta. left.
Qed.

(** ** Submissions *)

(** The three outcomes of a submission. *)
Lemma submit_cases id symbol side ty price quantity e :
  engine_ok e → int64 quantity →
  let o := NewOrder id symbol side ty price quantity (time_Now (draws e)) in
  let e1 := allocated id symbol side ty price quantity e in
  let order := length (store e) in
  engine_ok e1 ∧ incoming_ok order e1 ∧ deref (store e1) order = o ∧
  ((∃ err, Validate o = Some err
      ∧ submit id symbol side ty price quantity e
        = Some (set_metrics (IncOrdersReceived (metrics e)) e1, Err err))
   ∨ (Validate o = None ∧ ty = Market
      ∧ CalculateLiquidity (store e1) side quantity (book_of symbol e)
        < quantity
      ∧ submit id symbol side ty price quantity e
        = Some ({| OrderBooks := <[symbol := book_of symbol e]> (OrderBooks e);
                   AllOrders := delete id (AllOrders e);
                   metrics := IncOrdersReceived (metrics e);
                   store := store e1; draws := draws e1 |},
                Err (ErrInsufficientLiquidity
                       (CalculateLiquidity (store e1) side quantity
                          (book_of symbol e)) quantity)))
   ∨ (Validate o = None
      ∧ (ty = Market →
         quantity ≤ CalculateLiquidity (store e1) side quantity
                      (book_of symbol e))
      ∧ ∃ ts w',
          matched (stop_of o) (opposite side) order (start_world order e1) ts w'
          ∧ submit id symbol side ty price quantity e
            = Some (end_engine order e1 ts w',
                    Ok {| ResultOrder := order; Trades := ts |}))).
Proof.
  intros He Hq o e1 order.
  destruct (allocated_ok id symbol side ty price quantity e He Hq) as [He1 Hin].
  assert (deref (store e1) order = o) as Hd by apply deref_app_new.
  split_and!; try done.
  pose proof (ProcessOrder_cases order e1 He1 Hin) as Hc.
  simpl in Hc. fold e1 order in Hc. unfold e1 at 1 in Hc. simpl store in Hc.
  change (store e ++ [NewOrder id symbol side ty price quantity (time_Now (draws e))])
    with (store e1) in Hc.
  rewrite Hd in Hc. exact Hc.
Qed.

(** C7 (as amended).  Validation: a submission fails with [ErrInvalidPrice]
    exactly for a limit order with a price that is not positive, and with
    [ErrInvalidQuantity] exactly when that is not the case and the quantity is
    not positive.  Atomicity of errors: when a submission fails, every book
    and every order that existed is unchanged, the only book that can appear
    is the empty book of the order's symbol, and the rejected order is not in
    the registry; its id is absent from the registry whenever no earlier
    order had registered it, and always after a liquidity failure. *)
Theorem submit_validation_and_error_atomicity
    e id symbol side ty price quantity :
  reachable e → int64 price → int64 quantity →
  ∃ e' r,
    submit id symbol side ty price quantity e = Some (e', r)
    ∧ (r = Err ErrInvalidPrice ↔ ty = Limit ∧ price ≤ 0)
    ∧ (r = Err ErrInvalidQuantity ↔ ¬ (ty = Limit ∧ price ≤ 0) ∧ quantity ≤ 0)
    ∧ ∀ err, r = Err err →
        (∀ sym ob, OrderBooks e !! sym = Some ob →
                   OrderBooks e' !! sym = Some ob)
        ∧ (∀ sym ob, OrderBooks e' !! sym = Some ob →
             OrderBooks e !! sym = Some ob
             ∨ (sym = symbol ∧ ob = NewOrderBook symbol))
        ∧ (∀ p o, store e !! p = Some o → store e' !! p = Some o)
        ∧ AllOrders e' !! id ≠ Some (length (store e))
        ∧ (AllOrders e !! id = None → AllOrders e' !! id = None)
        ∧ (∀ available requested,
             err = ErrInsufficientLiquidity available requested →
             AllOrders e' !! id = None).
Proof.
  intros He%reachable_ok Hp Hq.
  destruct (submit_cases id symbol side ty price quantity e He Hq)
    as (He1 & Hin & Hd & Hc).
  set (o := NewOrder id symbol side ty price quantity (time_Now (draws e))) in *.
  assert (HVp : Validate o = Some ErrInvalidPrice ↔ ty = Limit ∧ price ≤ 0).
  { unfold Validate. simpl.
    destruct ty; simpl; destruct (Z.leb_spec price 0);
      destruct (Z.leb_spec quantity 0); split; try done; intros [? ?];
      try done; lia. }
  assert (HVq : Validate o = Some ErrInvalidQuantity
                ↔ ¬ (ty = Limit ∧ price ≤ 0) ∧ quantity ≤ 0).
  { unfold Validate. simpl.
    destruct ty; simpl; destruct (Z.leb_spec price 0);
      destruct (Z.leb_spec quantity 0); split; try done;
      try (intros [Hn ?]; try lia; exfalso; apply Hn; done);
      try (intros _; split; [intros [? ?]; done || lia|lia]). }
  assert (HVn : Validate o = None →
                ¬ (ty = Limit ∧ price ≤ 0) ∧ ¬ quantity ≤ 0).
  { unfold Validate. simpl.
    destruct ty; simpl; destruct (Z.leb_spec price 0);
      destruct (Z.leb_spec quantity 0); try done; intros _;
      split; try lia; intros [? ?]; done || lia. }
  assert (Hreg : ∀ p, AllOrders e !! id = Some p → (p < length (store e))%nat).
  { intros p Hreg. by apply (e_registry _ He) in Hreg as [? _]. }
  destruct Hc as [(err & HV & Hs)|[(HV & Hty & Hlt & Hs)|(HV & _ & ts & w' & _ & Hs)]];
    rewrite Hs; eexists _, _; (split; [done|]).
  - split_and!.
    + rewrite <- HVp, HV. split; congruence.
    + rewrite <- HVq, HV. split; congruence.
    + intros err' [= <-]. simpl. split_and!; try done.
      * intros sym ob Hob. by left.
      * intros p o' Hp'. by apply lookup_app_l_Some.
      * intros Hreg'. apply Hreg in Hreg'. lia.
      * intros a r ->. unfold Validate in HV.
        repeat case_match; done.
  - destruct (HVn HV) as [Hnp Hnq]. split_and!.
    + split; [done|]. intros ?. done.
    + split; [done|]. intros [_ ?]. done.
    + intros err' [= <-]. simpl. split_and!.
      * intros sym ob Hob. destruct (decide (symbol = sym)) as [<-|Hne].
        -- unfold book_of. rewrite Hob. simpl. by rewrite lookup_insert_eq.
        -- by rewrite lookup_insert_ne.
      * intros sym ob [[<- <-]|[_ Hob]]%lookup_insert_Some; [|by left].
        unfold book_of. destruct (OrderBooks e !! symbol); simpl; auto.
      * intros p o' Hp'. by apply lookup_app_l_Some.
      * by rewrite lookup_delete_eq.
      * intros _. by rewrite lookup_delete_eq.
      * intros _ _ _. by rewrite lookup_delete_eq.
  - destruct (HVn HV) as [Hnp Hnq]. split_and!.
    + split; [done|]. intros ?. done.
    + split; [done|]. intros [_ ?]. done.
    + intros err' [=].
Qed.

(** ** Sums of remaining quantities *)

Lemma sum_remaining_cons h p l :
  sum_remaining h (p :: l) = RemainingQuantity (deref h p) + sum_remaining h l.
Proof. done. Qed.

Lemma sum_remaining_app h l1 l2 :
  sum_remaining h (l1 ++ l2) = sum_remaining h l1 + sum_remaining h l2.
Proof.
  induction l1 as [|p r IH]; [done|].
  rewrite <- app_comm_cons, !sum_remaining_cons, IH. lia.
Qed.

Lemma sum_remaining_pos h l :
  (∀ p, p ∈ l → 0 < RemainingQuantity (deref h p)) → 0 ≤ sum_remaining h l.
Proof.
  induction l as [|p r IH]; intros Hall; [done|].
  rewrite sum_remaining_cons.
  assert (0 < RemainingQuantity (deref h p)) by (apply Hall; left).
  assert (0 ≤ sum_remaining h r) by (apply IH; intros; apply Hall; by right).
  lia.
Qed.

(** ** Depth *)

Lemma wrap64_add_l a b : wrap64 (wrap64 a + b) = wrap64 (a + b).
Proof.
  unfold wrap64. f_equal.
  replace ((a + 2 ^ 63) mod 2 ^ 64 - 2 ^ 63 + b + 2 ^ 63)
    with ((a + 2 ^ 63) mod 2 ^ 64 + b) by lia.
  rewrite Zplus_mod_idemp_l. f_equal. lia.
Qed.

Lemma level_total_wrap h l a :
  level_total h l (wrap64 a) = wrap64 (a + sum_remaining h l).
Proof.
  revert a. induction l as [|p r IH]; intros a; simpl.
  - unfold sum_remaining. simpl. by rewrite Z.add_0_r.
  - unfold add64. rewrite wrap64_add_l, IH, sum_remaining_cons. f_equal. lia.
Qed.

Lemma level_total_eq h l : level_total h l 0 = wrap64 (sum_remaining h l).
Proof.
  pose proof (level_total_wrap h l 0) as H.
  change (wrap64 0) with 0 in H. by rewrite Z.add_0_l in H.
Qed.

Lemma depth_side_eq h depthLimit t count acc :
  0 ≤ count →
  depth_side h depthLimit t count acc
  = acc ++ (depth_entry h <$>
              if 0 <? depthLimit then take (Z.to_nat (depthLimit - count)) t
              else t).
Proof.
  revert count acc. induction t as [|[k lvl] r IH]; intros count acc Hc; simpl.
  - rewrite take_nil. destruct (0 <? depthLimit); by rewrite app_nil_r.
  - destruct (Z.ltb_spec 0 depthLimit) as [Hl|Hl]; simpl.
    + destruct (Z.leb_spec depthLimit count) as [Hle|Hlt].
      * replace (Z.to_nat (depthLimit - count)) with 0%nat by lia.
        by rewrite app_nil_r.
      * rewrite IH by lia.
        destruct (Z.ltb_spec 0 depthLimit); [|lia].
        replace (Z.to_nat (depthLimit - count))
          with (S (Z.to_nat (depthLimit - (count + 1)))) by lia.
        simpl. rewrite <- app_assoc. simpl. unfold depth_entry at 2. simpl.
        by rewrite level_total_eq.
    + rewrite IH by lia.
      destruct (Z.ltb_spec 0 depthLimit); [lia|].
      rewrite <- app_assoc. simpl. unfold depth_entry at 2. simpl.
      by rewrite level_total_eq.
Qed.

Lemma tree_sorted_take cmp n t :
  tree_sorted cmp t → tree_sorted cmp (take n t).
Proof.
  intros Hs. rewrite <- (take_drop n t) in Hs.
  by apply tree_sorted_app in Hs as (_ & ? & _).
Qed.

Lemma shown_levels_sorted cmp depthLimit t :
  tree_sorted cmp t → tree_sorted cmp (shown_levels depthLimit t).
Proof.
  intros Hs. unfold shown_levels.
  destruct (0 <? depthLimit); [by apply tree_sorted_take|done].
Qed.

Lemma shown_levels_elem depthLimit t e :
  e ∈ shown_levels depthLimit t → e ∈ t.
Proof.
  unfold shown_levels. destruct (0 <? depthLimit); [|done].
  apply subseteq_take.
Qed.

Lemma depth_entries_sorted h s t :
  tree_sorted (side_cmp s) t →
  StronglySorted
    (λ a b, match s with
            | Buy => LevelPrice b < LevelPrice a
            | Sell => LevelPrice a < LevelPrice b
            end) (depth_entry h <$> t).
Proof.
  induction t as [|[k lvl] r IH]; simpl.
  - intros _. constructor.
  - intros [Hall Hs]%tree_sorted_cons. constructor; [by apply IH|].
    rewrite Forall_fmap. eapply Forall_impl; [exact Hall|].
    intros [k' lvl'] Hlt. simpl in *. by apply side_cmp_lt in Hlt.
Qed.

Lemma sum_remaining_nonneg h ob s k lvl :
  book_ok h ob → (k, lvl) ∈ side_tree s ob → 0 ≤ sum_remaining h lvl.
Proof.
  intros Hok He. destruct (bk_levels _ _ Hok _ _ _ He) as (_ & _ & Hall).
  apply sum_remaining_pos. intros p Hp. by apply (Hall p).
Qed.

(** C8 (as amended).  A depth query returns, for each side, one entry per
    price level of the book, none of them empty: its price, with the sum of
    the remaining quantities of the orders of the level reduced to a signed
    64-bit integer, which is the sum itself whenever the sum is at most
    2^63 - 1.  The entries come best first, bids by descending and asks by
    ascending price; they are the first [depthLimit] levels of the side when
    [depthLimit > 0] and all its levels when [depthLimit ≤ 0]. *)
Theorem GetOrderBookDepth_spec e symbol depthLimit :
  reachable e →
  let ob := book_of symbol e in
  let d := (GetOrderBookDepth symbol depthLimit e).2 in
  DepthBids d = depth_entry (store e) <$> shown_levels depthLimit (Bids ob)
  ∧ DepthAsks d = depth_entry (store e) <$> shown_levels depthLimit (Asks ob)
  ∧ (∀ k lvl, (k, lvl) ∈ Bids ob ++ Asks ob →
       lvl ≠ []
       ∧ (sum_remaining (store e) lvl ≤ max_int64 →
          LevelQuantity (depth_entry (store e) (k, lvl))
          = sum_remaining (store e) lvl))
  ∧ StronglySorted (λ a b, LevelPrice b < LevelPrice a) (DepthBids d)
  ∧ StronglySorted (λ a b, LevelPrice a < LevelPrice b) (DepthAsks d).
Proof.
  intros He%reachable_ok ob d.
  destruct (book_of_ok e symbol He) as [Hok _]. fold ob in Hok.
  assert (DepthBids d
          = depth_entry (store e) <$> shown_levels depthLimit (Bids ob)) as Hb.
  { unfold d, GetOrderBookDepth. rewrite getOrderBook_eq. simpl.
    rewrite depth_side_eq by done. by rewrite Z.sub_0_r. }
  assert (DepthAsks d
          = depth_entry (store e) <$> shown_levels depthLimit (Asks ob)) as Ha.
  { unfold d, GetOrderBookDepth. rewrite getOrderBook_eq. simpl.
    rewrite depth_side_eq by done. by rewrite Z.sub_0_r. }
  split_and!; try done.
  - intros k lvl Hel.
    assert (∃ s, (k, lvl) ∈ side_tree s ob) as [s Hs].
    { apply elem_of_app in Hel as [?|?]; [by exists Buy|by exists Sell]. }
    split; [by apply (bk_levels _ _ Hok _ _ _ Hs)|].
    intros Hle. simpl. apply wrap64_id.
    pose proof (sum_remaining_nonneg _ _ _ _ _ Hok Hs).
    pose proof min_int64_neg. unfold int64. lia.
  - rewrite Hb.
    apply (depth_entries_sorted (store e) Buy), shown_levels_sorted.
    apply (bk_sorted _ _ Hok Buy).
  - rewrite Ha.
    apply (depth_entries_sorted (store e) Sell), shown_levels_sorted.
    apply (bk_sorted _ _ Hok Sell).
Qed.

(** ** Quantity accounting *)

Lemma store_evolves_app h l : store_evolves h (h ++ l).
Proof.
  intros p o Hp. exists o. split; [by apply lookup_app_l_Some|].
  apply evolves_refl.
Qed.

Lemma store_end_engine order e ts w' :
  store (end_engine order e ts w')
  = update (mem w') order (set_Status (final_status (deref (mem w') order))).
Proof. unfold end_engine. simpl. by rewrite finalize_mem. Qed.

Lemma submit_evolves id symbol side ty price quantity e :
  engine_ok e → int64 quantity →
  ∃ e' r, submit id symbol side ty price quantity e = Some (e', r)
          ∧ store_evolves (store e) (store e').
Proof.
  intros He Hq.
  destruct (submit_cases id symbol side ty price quantity e He Hq)
    as (He1 & Hin & Hd & Hc).
  destruct Hc as [(err & HV & ->)|[(HV & Hty & Hlt & ->)|(HV & _ & ts & w' & Hm & ->)]];
    eexists _, _; (split; [done|]); simpl.
  - apply store_evolves_app.
  - apply store_evolves_app.
  - rewrite finalize_mem. simpl.
    destruct (matched_frame _ _ _ _ _ _ Hm (start_world_ok _ _ He1 Hin))
      as (_ & _ & _ & _ & _ & _ & _ & _ & Hev).
    eapply store_evolves_trans; [apply store_evolves_app|].
    eapply store_evolves_trans; [exact Hev|].
    apply store_evolves_update. intros o. apply evolves_set_Status.
Qed.

Lemma CancelOrder_evolves orderID e :
  store_evolves (store e) (store (CancelOrder orderID e).1).
Proof.
  unfold CancelOrder.
  destruct (AllOrders e !! orderID) as [order|]; [|apply store_evolves_refl].
  case_bool_decide; [apply store_evolves_refl|].
  case_bool_decide; [apply store_evolves_refl|].
  rewrite getOrderBook_eq. simpl.
  case_bool_decide; [apply store_evolves_refl|].
  destruct (RemoveOrder _ _ _) as [[removed|] ob]; simpl;
    apply store_evolves_update; intros o; apply evolves_set_Status.
Qed.

Lemma step_evolves r e :
  engine_ok e → request_ok r →
  ∃ e', step r e = Some e' ∧ store_evolves (store e) (store e').
Proof.
  intros He Hr. destruct r as [id symbol side ty price quantity|id|symbol limit];
    simpl.
  - destruct Hr as [_ Hq].
    destruct (submit_evolves id symbol side ty price quantity e He Hq)
      as (e' & r & -> & Hev). by exists e'.
  - eexists. split; [done|]. apply CancelOrder_evolves.
  - eexists. split; [done|]. unfold GetOrderBookDepth.
    rewrite getOrderBook_eq. simpl. apply store_evolves_refl.
Qed.

(** C5.  Quantity accounting.  In every state the engine reaches, every order
    with a positive original quantity (every order that passed validation,
    so every order accepted) has [filled + remaining = original] and
    [0 ≤ remaining ≤ original]; the order a successful submission returns is
    such an order; and over every operation each order keeps its original
    quantity, its remaining quantity does not grow and its filled quantity
    does not shrink. *)
Theorem quantity_accounting e :
  reachable e →
  (∀ p o, store e !! p = Some o → 0 < OriginalQuantity o →
     FilledQuantity o + RemainingQuantity o = OriginalQuantity o
     ∧ 0 ≤ RemainingQuantity o ≤ OriginalQuantity o)
  ∧ (∀ id symbol side ty price quantity e' res,
       int64 quantity →
       submit id symbol side ty price quantity e = Some (e', Ok res) →
       ∃ o, store e' !! ResultOrder res = Some o ∧ 0 < OriginalQuantity o)
  ∧ (∀ r, request_ok r →
       ∃ e', step r e = Some e'
         ∧ ∀ p o, store e !! p = Some o →
             ∃ o', store e' !! p = Some o'
               ∧ OriginalQuantity o' = OriginalQuantity o
               ∧ RemainingQuantity o' ≤ RemainingQuantity o
               ∧ FilledQuantity o ≤ FilledQuantity o').
Proof.
  intros He%reachable_ok. split_and!.
  - intros p o Hp Hpos.
    pose proof (e_store _ He) as Hst. rewrite Forall_forall in Hst.
    destruct (Hst o) as (Hsum & Hf & Hi & Hr).
    { apply list_elem_of_lookup. eauto. }
    split; [done|]. destruct Hr; lia.
  - intros id symbol side ty price quantity e' res Hq Hs.
    destruct (submit_cases id symbol side ty price quantity e He Hq)
      as (He1 & Hin & Hd & Hc).
    destruct Hc as [(err & HV & Hs')|[(HV & Hty & Hlt & Hs')|(HV & _ & ts & w' & Hm & Hs')]];
      rewrite Hs' in Hs; try done.
    injection Hs as <- <-. simpl ResultOrder.
    destruct (matched_frame _ _ _ _ _ _ Hm (start_world_ok _ _ He1 Hin))
      as (_ & Hl & Hi & _).
    rewrite store_end_engine.
    set (order := length (store e)) in *.
    exists (set_Status (final_status (deref (mem w') order)) (deref (mem w') order)).
    split.
    + unfold update. apply list_lookup_insert_eq. rewrite Hl. apply Hin.
    + simpl. rewrite (ident_OriginalQuantity _ _ (Hi order)). simpl.
      unfold order. rewrite deref_app_new. simpl.
      unfold Validate in HV. simpl in HV.
      destruct (bool_decide (ty = Limit) && (price <=? 0)); [done|].
      destruct (Z.leb_spec quantity 0); [done|lia].
  - intros r Hr. destruct (step_evolves r e He Hr) as (e' & Hs & Hev).
    exists e'. split; [done|]. intros p o Hp.
    destruct (Hev _ _ Hp) as (o' & Hp' & Hi & ? & ?).
    exists o'. split_and!; try done.
    symmetry. by apply ident_OriginalQuantity.
Qed.

(** ** Liquidity *)

Lemma CalculateLiquidity_eq h side maxNeeded ob :
  CalculateLiquidity h side maxNeeded ob
  = liquidity_tree h maxNeeded (side_tree (opposite side) ob) 0.
Proof.
  unfold CalculateLiquidity. by destruct (side_tree (opposite side) ob).
Qed.

Lemma sum_remaining_ge0 h l :
  (∀ p, p ∈ l → 0 ≤ RemainingQuantity (deref h p)) → 0 ≤ sum_remaining h l.
Proof.
  induction l as [|p r IH]; intros Hall; [done|].
  rewrite sum_remaining_cons.
  assert (0 ≤ RemainingQuantity (deref h p)) by (apply Hall; left).
  assert (0 ≤ sum_remaining h r) by (apply IH; intros; apply Hall; by right).
  lia.
Qed.

(** The 64-bit sum of the pre-scan never exceeds the sum of the integers. *)
Lemma liquidity_level_le h maxNeeded l a :
  (∀ p, p ∈ l → 0 ≤ RemainingQuantity (deref h p)) → min_int64 ≤ a →
  match liquidity_level h maxNeeded l a with
  | inl v | inr v => min_int64 ≤ v ≤ a + sum_remaining h l
  end.
Proof.
  revert a. induction l as [|p r IH]; intros a Hall Ha; cbn [liquidity_level].
  - unfold sum_remaining. simpl. lia.
  - assert (0 ≤ RemainingQuantity (deref h p)) as Hp by (apply Hall; left).
    assert (min_int64 ≤ add64 a (RemainingQuantity (deref h p))
            ≤ a + RemainingQuantity (deref h p)) as Hadd.
    { unfold add64. split; [apply wrap64_int64|apply wrap64_le; lia]. }
    assert (0 ≤ sum_remaining h r) as Hr.
    { apply sum_remaining_ge0. intros; apply Hall; by right. }
    rewrite sum_remaining_cons.
    destruct (maxNeeded <=? add64 a (RemainingQuantity (deref h p))); [lia|].
    specialize (IH (add64 a (RemainingQuantity (deref h p)))).
    assert (∀ p0, p0 ∈ r → 0 ≤ RemainingQuantity (deref h p0)) as Hall'.
    { intros; apply Hall; by right. }
    specialize (IH Hall' ltac:(lia)).
    destruct (liquidity_level h maxNeeded r _); lia.
Qed.

Lemma liquidity_tree_le h maxNeeded t a :
  (∀ p, p ∈ resting t → 0 ≤ RemainingQuantity (deref h p)) → min_int64 ≤ a →
  min_int64 ≤ liquidity_tree h maxNeeded t a ≤ a + sum_remaining h (resting t).
Proof.
  revert a. induction t as [|[k lvl] r IH]; intros a Hall Ha;
    cbn [liquidity_tree].
  - unfold sum_remaining. simpl. lia.
  - rewrite resting_cons in Hall. rewrite resting_cons, sum_remaining_app.
    assert (∀ p, p ∈ lvl → 0 ≤ RemainingQuantity (deref h p)) as Hl.
    { intros p Hp. apply Hall, elem_of_app. by left. }
    assert (∀ p, p ∈ resting r → 0 ≤ RemainingQuantity (deref h p)) as Hr.
    { intros p Hp. apply Hall, elem_of_app. by right. }
    pose proof (sum_remaining_ge0 _ _ Hr).
    pose proof (liquidity_level_le h maxNeeded lvl a Hl Ha) as Hlv.
    destruct (liquidity_level h maxNeeded lvl a) as [v|v]; [lia|].
    specialize (IH v Hr ltac:(lia)). lia.
Qed.

(** When the sum fits in 64 bits the pre-scan computes it, or returns early
    with enough. *)
Lemma liquidity_level_exact h maxNeeded l a :
  (∀ p, p ∈ l → 0 ≤ RemainingQuantity (deref h p)) →
  0 ≤ a → a + sum_remaining h l ≤ max_int64 →
  match liquidity_level h maxNeeded l a with
  | inl v => maxNeeded ≤ v ≤ a + sum_remaining h l
  | inr v => v = a + sum_remaining h l
  end.
Proof.
  revert a. induction l as [|p r IH]; intros a Hall Ha Hmax;
    cbn [liquidity_level].
  - unfold sum_remaining. simpl. lia.
  - assert (0 ≤ RemainingQuantity (deref h p)) as Hp by (apply Hall; left).
    assert (∀ p0, p0 ∈ r → 0 ≤ RemainingQuantity (deref h p0)) as Hall'.
    { intros; apply Hall; by right. }
    pose proof (sum_remaining_ge0 _ _ Hall') as Hr.
    rewrite sum_remaining_cons in Hmax |- *.
    assert (add64 a (RemainingQuantity (deref h p))
            = a + RemainingQuantity (deref h p)) as ->.
    { unfold add64. apply wrap64_id. pose proof min_int64_neg.
      unfold int64. lia. }
    destruct (Z.leb_spec maxNeeded (a + RemainingQuantity (deref h p))); [lia|].
    specialize (IH (a + RemainingQuantity (deref h p)) Hall' ltac:(lia)
                  ltac:(lia)).
    destruct (liquidity_level h maxNeeded r _); lia.
Qed.

Lemma liquidity_tree_exact h maxNeeded t a :
  (∀ p, p ∈ resting t → 0 ≤ RemainingQuantity (deref h p)) →
  0 ≤ a → a + sum_remaining h (resting t) ≤ max_int64 →
  liquidity_tree h maxNeeded t a = a + sum_remaining h (resting t)
  ∨ maxNeeded ≤ liquidity_tree h maxNeeded t a
               ≤ a + sum_remaining h (resting t).
Proof.
  revert a. induction t as [|[k lvl] r IH]; intros a Hall Ha Hmax;
    cbn [liquidity_tree].
  - left. unfold sum_remaining. simpl. lia.
  - rewrite resting_cons in Hall.
    rewrite resting_cons, sum_remaining_app in Hmax |- *.
    assert (∀ p, p ∈ lvl → 0 ≤ RemainingQuantity (deref h p)) as Hl.
    { intros p Hp. apply Hall, elem_of_app. by left. }
    assert (∀ p, p ∈ resting r → 0 ≤ RemainingQuantity (deref h p)) as Hr.
    { intros p Hp. apply Hall, elem_of_app. by right. }
    pose proof (sum_remaining_ge0 _ _ Hl).
    pose proof (sum_remaining_ge0 _ _ Hr).
    pose proof (liquidity_level_exact h maxNeeded lvl a Hl Ha ltac:(lia)) as Hlv.
    destruct (liquidity_level h maxNeeded lvl a) as [v|v]; [right; lia|].
    subst v.
    destruct (IH (a + sum_remaining h lvl) Hr ltac:(lia) ltac:(lia)) as [->|?];
      [left|right]; lia.
Qed.

Lemma sum_remaining_ext h h' l :
  (∀ x, x ∈ l → RemainingQuantity (deref h' x) = RemainingQuantity (deref h x)) →
  sum_remaining h' l = sum_remaining h l.
Proof.
  induction l as [|p r IH]; intros Hall; [done|].
  rewrite !sum_remaining_cons, IH, Hall; [done|left|].
  intros x Hx. apply Hall. by right.
Qed.

Lemma liquidity_level_ext h h' maxNeeded l a :
  (∀ x, x ∈ l → RemainingQuantity (deref h' x) = RemainingQuantity (deref h x)) →
  liquidity_level h' maxNeeded l a = liquidity_level h maxNeeded l a.
Proof.
  revert a. induction l as [|p r IH]; intros a Hall; simpl; [done|].
  rewrite Hall by left. destruct (_ <=? _); [done|].
  apply IH. intros x Hx. apply Hall. by right.
Qed.

Lemma liquidity_tree_ext h h' maxNeeded t a :
  (∀ x, x ∈ resting t →
     RemainingQuantity (deref h' x) = RemainingQuantity (deref h x)) →
  liquidity_tree h' maxNeeded t a = liquidity_tree h maxNeeded t a.
Proof.
  revert a. induction t as [|[k lvl] r IH]; intros a Hall; simpl; [done|].
  rewrite (liquidity_level_ext h h').
  - destruct (liquidity_level h maxNeeded lvl a); [done|].
    apply IH. intros x Hx. apply Hall. rewrite resting_cons, elem_of_app.
    by right.
  - intros x Hx. apply Hall. rewrite resting_cons, elem_of_app. by left.
Qed.

(** ** Quantities along a run *)

Lemma tree_sorted_NoDup_keys s (t : list (Z * list nat)) :
  tree_sorted (side_cmp s) t → NoDup (t.*1).
Proof.
  induction t as [|[k lvl] r IH]; simpl; [constructor|].
  intros [Hall Hs]%tree_sorted_cons. constructor; [|by apply IH].
  intros ([k' lvl'] & Hk & He)%list_elem_of_fmap. simpl in Hk. subst k'.
  rewrite Forall_forall in Hall. specialize (Hall _ He). simpl in Hall.
  by rewrite side_cmp_refl in Hall.
Qed.

(** No order rests twice in a side of a well-formed book. *)
Lemma resting_NoDup h ob s : book_ok h ob → NoDup (resting (side_tree s ob)).
Proof.
  intros Hok.
  pose proof (tree_sorted_NoDup_keys _ _ (bk_sorted _ _ Hok s)) as Hk.
  assert (∀ k lvl, (k, lvl) ∈ side_tree s ob →
            NoDup lvl ∧ ∀ p, p ∈ lvl → Price (deref h p) = k) as Hl.
  { intros k lvl He. destruct (bk_levels _ _ Hok _ _ _ He) as (_ & ? & Hall).
    split; [done|]. intros p Hp. by destruct (Hall p Hp) as (_ & _ & ? & _). }
  revert Hk Hl. generalize (side_tree s ob). intros t.
  induction t as [|[k lvl] r IH]; intros Hk Hl; [constructor|].
  rewrite resting_cons. simpl in Hk. apply NoDup_cons in Hk as [Hk Hk'].
  destruct (Hl k lvl ltac:(left)) as [Hnd Hp].
  apply NoDup_app. split_and!; [done| |].
  - intros x Hx (k' & lvl' & He & Hx')%elem_of_resting.
    destruct (Hl k' lvl' ltac:(by right)) as [_ Hp'].
    apply Hk. rewrite <- (Hp x Hx), (Hp' x Hx').
    apply list_elem_of_fmap. by exists (k', lvl').
  - apply IH; [done|]. intros k' lvl' He. apply Hl. by right.
Qed.

Lemma trade_quantities_cons t ts :
  trade_quantities (t :: ts) = Quantity t + trade_quantities ts.
Proof. done. Qed.

(** Over a run, the trades take their quantities out of the incoming order
    and out of the side consumed. *)
Lemma matched_quantities stop s order w ts w' :
  matched stop s order w ts w' → world_ok order w →
  RemainingQuantity (deref (mem w') order)
  = RemainingQuantity (deref (mem w) order) - trade_quantities ts
  ∧ FilledQuantity (deref (mem w') order)
    = FilledQuantity (deref (mem w) order) + trade_quantities ts
  ∧ sum_remaining (mem w') (resting (side_tree s (book w')))
    = sum_remaining (mem w) (resting (side_tree s (book w)))
      - trade_quantities ts
  ∧ (0 ≤ RemainingQuantity (deref (mem w) order) →
     0 ≤ RemainingQuantity (deref (mem w') order))
  ∧ 0 ≤ trade_quantities ts.
Proof.
  induction 1 as [w Hend|w b ts w' Hrem HB Hstop Hm IH]; intros Hw.
  - unfold trade_quantities. simpl. split_and!; try done; lia.
  - pose proof (executeTrade_ok _ _ _ _ Hw Hrem HB) as Hw1.
    destruct (IH Hw1) as (IHr & IHf & IHs & IHn & IHq). clear IH.
    rewrite trade_quantities_cons.
    rewrite (executeTrade_eq _ _ _ _ Hw Hrem HB) in IHr, IHf, IHs, IHn |- *.
    simpl in *.
    destruct Hw as [Hst Hok Hp Hfresh].
    destruct (GetBest_rests _ _ _ _ Hok HB) as (k & lvl & r & Ht & Hr).
    pose proof Hr as (Hb & Hside & Hprice & Hsym & Hid & Hremb).
    assert (b ≠ order) as Hne.
    { intros ->. apply (Hfresh s). rewrite Ht, resting_cons. left. }
    pose proof (resting_NoDup _ _ s Hok) as Hnd.
    rewrite Ht, resting_cons in Hnd. simpl in Hnd.
    apply NoDup_cons in Hnd as [Hbn Hnd].
    assert (∀ st, sum_remaining (traded st order b (mem w)) (lvl ++ resting r)
                  = sum_remaining (mem w) (lvl ++ resting r)) as Htail.
    { intros st. apply sum_remaining_ext. intros x Hx.
      rewrite deref_traded_other; [done| |by intros ->].
      intros ->. apply (Hfresh s). rewrite Ht, resting_cons. by right. }
    assert (tradeQuantity (mem w) order b
            = Z.min (RemainingQuantity (deref (mem w) order))
                    (RemainingQuantity (deref (mem w) b))) as Hq by done.
    case_bool_decide as Hfull; simpl in *.
    + destruct (without_best_side (mem w) _ _ _ _ _ _ Ht) as (Hs1 & _).
      rewrite Hs1, resting_level_entry, Htail in IHs.
      rewrite deref_traded_incoming in IHr, IHf, IHn by done. simpl in *.
      rewrite Ht, resting_cons. simpl. rewrite sum_remaining_cons.
      split_and!; try lia.
    + rewrite Ht, resting_cons in IHs |- *. simpl in IHs |- *.
      rewrite sum_remaining_cons in IHs |- *. rewrite Htail in IHs.
      rewrite deref_traded_maker in IHs by done.
      rewrite deref_traded_incoming in IHr, IHf, IHn by done. simpl in *.
      split_and!; try lia.
Qed.

(** ** Market orders *)

Lemma mem_start_world order e : mem (start_world order e) = store e.
Proof. done. Qed.

Lemma book_start_world order e :
  book (start_world order e) = book_of (Symbol (deref (store e) order)) e.
Proof. done. Qed.

Lemma book_of_allocated sym id symbol side ty price quantity e :
  book_of sym (allocated id symbol side ty price quantity e) = book_of sym e.
Proof. done. Qed.

Lemma book_of_resting e symbol s x :
  engine_ok e → x ∈ resting (side_tree s (book_of symbol e)) →
  (x < length (store e))%nat ∧ 0 < RemainingQuantity (deref (store e) x).
Proof.
  intros He Hx. destruct (book_of_ok e symbol He) as [Hok _].
  by destruct (resting_symbol _ _ _ _ Hok Hx) as (? & _ & ?).
Qed.

Lemma Validate_not_liquidity o available requested :
  Validate o ≠ Some (ErrInsufficientLiquidity available requested).
Proof. unfold Validate. by repeat case_match. Qed.

(** C1 (as amended).  All-or-none execution of market orders.  A market
    submission fails with [ErrInsufficientLiquidity], carrying the quantity
    available and the quantity requested, whenever the remaining quantities
    resting on the opposite side sum to less than the quantity of the order;
    provided that sum is at most 2^63 - 1 it fails so only then.  Whenever a
    market submission succeeds, the order returned has no remaining quantity
    and status [Filled], and the quantities of the trades returned sum to the
    original quantity. *)
Theorem market_all_or_none e id symbol side price quantity :
  reachable e → int64 quantity →
  let total := sum_remaining (store e)
                 (resting (side_tree (opposite side) (book_of symbol e))) in
  ∃ e' r,
    submit id symbol side Market price quantity e = Some (e', r)
    ∧ (total < quantity → r = Err (ErrInsufficientLiquidity total quantity))
    ∧ (total ≤ max_int64 →
       ∀ available requested,
         r = Err (ErrInsufficientLiquidity available requested) →
         total < quantity)
    ∧ (∀ res, r = Ok res →
         ∃ o, store e' !! ResultOrder res = Some o
           ∧ ID o = id
           ∧ OriginalQuantity o = quantity
           ∧ RemainingQuantity o = 0
           ∧ Status o = Filled
           ∧ trade_quantities (Trades res) = quantity).
Proof.
  intros He%reachable_ok Hq total.
  destruct (submit_cases id symbol side Market price quantity e He Hq)
    as (He1 & Hin & Hd & Hc).
  set (o := NewOrder id symbol side Market price quantity (time_Now (draws e))) in *.
  set (e1 := allocated id symbol side Market price quantity e) in *.
  set (order := length (store e)) in *.
  set (queue := resting (side_tree (opposite side) (book_of symbol e))) in *.
  assert (∀ x, x ∈ queue →
            RemainingQuantity (deref (store e1) x)
            = RemainingQuantity (deref (store e) x)
            ∧ 0 < RemainingQuantity (deref (store e) x)) as Hqueue.
  { intros x Hx. destruct (book_of_resting _ _ _ _ He Hx) as [Hxl Hxr].
    split; [|done]. unfold e1. simpl. by rewrite deref_app_l. }
  assert (sum_remaining (store e1) queue = total) as Htot.
  { apply sum_remaining_ext. intros x Hx. by apply Hqueue. }
  assert (0 ≤ total) as Htot0.
  { apply sum_remaining_ge0. intros x Hx. destruct (Hqueue x Hx). lia. }
  assert (∀ x, x ∈ queue → 0 ≤ RemainingQuantity (deref (store e1) x)) as Hq1.
  { intros x Hx. destruct (Hqueue x Hx) as [-> ?]. lia. }
  set (CL := CalculateLiquidity (store e1) side quantity (book_of symbol e)) in *.
  assert (CL ≤ total) as HCLle.
  { unfold CL. rewrite CalculateLiquidity_eq.
    pose proof (liquidity_tree_le (store e1) quantity
                  (side_tree (opposite side) (book_of symbol e)) 0 Hq1) as H.
    fold queue in H. rewrite Htot in H. pose proof min_int64_neg. lia. }
  assert (total ≤ max_int64 → CL = total ∨ quantity ≤ CL) as HCLex.
  { intros Hmax. unfold CL. rewrite CalculateLiquidity_eq.
    pose proof (liquidity_tree_exact (store e1) quantity
                  (side_tree (opposite side) (book_of symbol e)) 0 Hq1) as H.
    fold queue in H. rewrite Htot in H. lia. }
  unfold int64, max_int64 in Hq. unfold max_int64 in HCLex.
  destruct Hc as [(err & HV & ->)|[(HV & _ & Hlt & ->)|(HV & Hge & ts & w' & Hm & ->)]];
    eexists _, _; (split; [done|]).
  - assert (quantity ≤ 0) as Hq0.
    { unfold Validate in HV. simpl in HV.
      destruct (Z.leb_spec quantity 0); [done|congruence]. }
    split_and!.
    + lia.
    + intros _ a r [= ->]. by apply Validate_not_liquidity in HV.
    + intros res [=].
  - split_and!.
    + intros Hlt'. destruct HCLex as [->|?]; [lia|done|lia].
    + intros Hmax a r _. destruct HCLex as [<-|?]; [done|done|lia].
    + intros res [=].
  - specialize (Hge eq_refl).
    split_and!.
    + lia.
    + intros _ a r [=].
    + intros res [= <-]. simpl ResultOrder. simpl Trades.
      pose proof (start_world_ok _ _ He1 Hin) as Hw0.
      destruct (matched_frame _ _ _ _ _ _ Hm Hw0) as (_ & Hl & Hi & _).
      destruct (matched_quantities _ _ _ _ _ _ Hm Hw0)
        as (Hr & Hf & Hs & Hn & Hts).
      rewrite !mem_start_world in Hl, Hi, Hr, Hf, Hs, Hn.
      rewrite book_start_world in Hs.
      rewrite Hd in Hr, Hf, Hs, Hn. simpl in Hr, Hf, Hn.
      change (Symbol o) with symbol in Hs. unfold e1 in Hs at 2.
      rewrite book_of_allocated in Hs.
      fold queue in Hs. rewrite Htot in Hs.
      assert (0 < quantity) as Hpos.
      { unfold Validate in HV. simpl in HV.
        destruct (Z.leb_spec quantity 0); [done|lia]. }
      assert (RemainingQuantity (deref (mem w') order) = 0) as Hzero.
      { destruct (matched_final _ _ _ _ _ _ Hm) as [Hfin|[Hfin|(b & _ & Hstop)]].
        - lia.
        - rewrite Hfin in Hs. unfold sum_remaining in Hs at 1. simpl in Hs. lia.
        - done. }
      rewrite store_end_engine.
      exists (set_Status (final_status (deref (mem w') order))
                (deref (mem w') order)).
      split_and!.
      * unfold update. apply list_lookup_insert_eq. rewrite Hl. apply Hin.
      * simpl. rewrite (ident_ID _ _ (Hi order)), Hd. done.
      * simpl. rewrite (ident_OriginalQuantity _ _ (Hi order)), Hd. done.
      * done.
      * simpl. unfold final_status. by rewrite Hzero.
      * lia.
Qed.

(** ** The trades of a run *)


Lemma executeTrade_facts order s w b :
  world_ok order w → Side_ (deref (mem w) order) = opposite s →
  0 < RemainingQuantity (deref (mem w) order) →
  GetBest s (book w) = Some b →
  trade_facts order w b (executeTrade order b w).1 (executeTrade order b w).2.
Proof.
  intros Hw Hsd Hrem HB. rewrite (executeTrade_eq _ _ _ _ Hw Hrem HB).
  destruct Hw as [Hst Hok Hp Hfresh].
  destruct (GetBest_rests _ _ _ _ Hok HB) as (k & lvl & r & Ht & Hr).
  pose proof Hr as (Hb & Hside & Hprice & Hsym & Hid & Hremb).
  assert (b ≠ order) as Hne.
  { intros ->. apply (Hfresh s). rewrite Ht, resting_cons. left. }
  unfold trade_facts. cbn [fst snd].
  set (i := deref (mem w) order) in *. set (m := deref (mem w) b) in *.
  assert (∀ w1 st, mem w1 = traded st order b (mem w) →
            FilledQuantity (deref (mem w1) order)
            = FilledQuantity i + tradeQuantity (mem w) order b
            ∧ RemainingQuantity (deref (mem w1) order)
              = RemainingQuantity i - tradeQuantity (mem w) order b
            ∧ FilledQuantity (deref (mem w1) b)
              = FilledQuantity m + tradeQuantity (mem w) order b
            ∧ RemainingQuantity (deref (mem w1) b)
              = RemainingQuantity m - tradeQuantity (mem w) order b) as Hq.
  { intros w1 st ->.
    rewrite deref_traded_incoming, deref_traded_maker by done. done. }
  split_and!.
  - rewrite Hside, Ht, resting_cons. left.
  - done.
  - done.
  - simpl. unfold getBuyerOrderID, getSellerOrderID. fold i m.
    rewrite Hsd, Hside. destruct s; simpl; [right|left]; done.
  - simpl Quantity. case_bool_decide; by eapply Hq.
  - simpl Quantity. case_bool_decide; by eapply Hq.
  - simpl Quantity. case_bool_decide; by eapply Hq.
  - simpl Quantity. case_bool_decide; by eapply Hq.
Qed.

(** A successful submission is a run of the matching loop of the new order
    from the state of the engine with the order allocated. *)
Lemma submit_success id symbol side ty price quantity e e' res :
  engine_ok e → int64 quantity →
  submit id symbol side ty price quantity e = Some (e', Ok res) →
  let o := NewOrder id symbol side ty price quantity (time_Now (draws e)) in
  let e1 := allocated id symbol side ty price quantity e in
  let order := length (store e) in
  engine_ok e1 ∧ incoming_ok order e1 ∧ deref (store e1) order = o
  ∧ Validate o = None
  ∧ ResultOrder res = order
  ∧ ∃ w', matched (stop_of o) (opposite side) order (start_world order e1)
            (Trades res) w'
          ∧ e' = end_engine order e1 (Trades res) w'.
Proof.
  intros He Hq Hs o e1 order.
  destruct (submit_cases id symbol side ty price quantity e He Hq)
    as (He1 & Hin & Hd & Hc).
  destruct Hc as [(err & HV & Hs')|[(HV & Hty & Hlt & Hs')|(HV & _ & ts & w' & Hm & Hs')]];
    rewrite Hs' in Hs; try done.
  injection Hs as <- <-. split_and!; try done. by exists w'.
Qed.


(** ** Price-time priority *)

Lemma matched_zero stop s order w ts w' :
  matched stop s order w ts w' →
  RemainingQuantity (deref (mem w) order) ≤ 0 → ts = [] ∧ w' = w.
Proof. destruct 1 as [w Hend|w b ts w' Hrem HB Hstop Hm]; [done|lia]. Qed.

Lemma MakerOrderID_executeTrade order s w b :
  world_ok order w → Side_ (deref (mem w) order) = opposite s →
  0 < RemainingQuantity (deref (mem w) order) →
  GetBest s (book w) = Some b →
  MakerOrderID (opposite s) (executeTrade order b w).1 = ID (deref (mem w) b).
Proof.
  intros Hw Hsd Hrem HB.
  destruct (executeTrade_facts _ _ _ _ Hw Hsd Hrem HB)
    as (_ & _ & _ & Hids & _).
  unfold MakerOrderID. rewrite <- Hsd.
  destruct Hids as [(-> & _ & _ & ->)|(-> & _ & -> & _)]; done.
Qed.

(** The makers of a run are the first orders of the side consumed, in the
    order of its iteration, and the side is left with the rest. *)
Lemma matched_makers stop s order w ts w' :
  matched stop s order w ts w' → world_ok order w →
  Side_ (deref (mem w) order) = opposite s →
  MakerOrderID (opposite s) <$> ts
  = (λ p, ID (deref (mem w) p))
      <$> take (length ts) (resting (side_tree s (book w)))
  ∧ ∃ n, resting (side_tree s (book w'))
         = drop n (resting (side_tree s (book w)))
         ∧ (n ≤ length ts ≤ S n)%nat.
Proof.
  induction 1 as [w Hend|w b ts w' Hrem HB Hstop Hm IH]; intros Hw Hsd.
  - split; [done|]. exists 0%nat. split; [done|simpl; lia].
  - pose proof (executeTrade_ok _ _ _ _ Hw Hrem HB) as Hw1.
    pose proof (MakerOrderID_executeTrade _ _ _ _ Hw Hsd Hrem HB) as Hmk.
    destruct (executeTrade_frame _ _ _ _ Hw Hrem HB) as (_ & Hi & _).
    assert (Side_ (deref (mem (executeTrade order b w).2) order) = opposite s)
      as Hsd1 by (by rewrite (ident_Side _ _ (Hi order))).
    specialize (IH Hw1 Hsd1).
    rewrite fmap_cons, Hmk. clear Hmk.
    pose proof (executeTrade_eq _ _ _ _ Hw Hrem HB) as Heq.
    destruct Hw as [Hst Hok Hp Hfresh].
    destruct (GetBest_rests _ _ _ _ Hok HB) as (k & lvl & r & Ht & Hr).
    assert (b ≠ order) as Hne.
    { intros ->. apply (Hfresh s). rewrite Ht, resting_cons. left. }
    destruct (executeTrade order b w) as [t w1]. simpl in *.
    injection Heq as _ Hw1eq.
    case_bool_decide as Hfull.
    + destruct IH as (IHm & n & IHn & IHl).
      assert (resting (side_tree s (book w1)) = lvl ++ resting r) as Hq1.
      { rewrite Hw1eq. simpl.
        destruct (without_best_side (mem w) _ _ _ _ _ _ Ht) as (-> & _).
        by rewrite resting_level_entry. }
      rewrite Hq1 in IHm, IHn. rewrite Ht, resting_cons. simpl. split.
      * f_equal. rewrite IHm. apply list_fmap_ext. intros _ x _.
        by rewrite (ident_ID _ _ (Hi x)).
      * exists (S n). split; [done|lia].
    + assert (RemainingQuantity (deref (mem w1) order) ≤ 0) as Hz.
      { rewrite Hw1eq. simpl. rewrite deref_traded_incoming by done. simpl.
        unfold tradeQuantity. lia. }
      destruct (matched_zero _ _ _ _ _ _ Hm Hz) as [-> ->].
      rewrite Ht, resting_cons. simpl. split; [done|].
      exists 0%nat. rewrite Hw1eq. simpl. rewrite Ht, resting_cons.
      split; [done|lia].
Qed.

(** The trades of a limit order are made at prices that cross its own. *)
Lemma matched_limit_prices o s order w ts w' :
  matched (stop_of o) s order w ts w' → world_ok order w →
  Type_ o = Limit → s = opposite (Side_ o) →
  Price (deref (mem w) order) = Price o →
  Forall (λ t, match Side_ o with
               | Buy => TradePrice t ≤ Price o
               | Sell => Price o ≤ TradePrice t
               end) ts.
Proof.
  intros Hm Hw Hty Hs. revert Hw.
  induction Hm as [w Hend|w b ts w' Hrem HB Hstop Hm IH]; intros Hw Hpr.
  - constructor.
  - pose proof (executeTrade_ok _ _ _ _ Hw Hrem HB) as Hw1.
    destruct (executeTrade_frame _ _ _ _ Hw Hrem HB) as (_ & Hi & _).
    constructor.
    + rewrite (executeTrade_eq _ _ _ _ Hw Hrem HB). simpl.
      unfold stop_of in Hstop. rewrite Hty in Hstop.
      destruct (Side_ o); simpl in Hstop; rewrite Hpr in Hstop.
      * apply Z.ltb_ge in Hstop. lia.
      * destruct (Z.gtb_spec (Price o) (Price (deref (mem w) b))); [done|lia].
    + apply IH; [done|]. by rewrite (ident_Price _ _ (Hi order)).
Qed.

Lemma AddOrder_opposite h p ob :
  side_tree (opposite (Side_ (deref h p))) (AddOrder h p ob)
  = side_tree (opposite (Side_ (deref h p))) ob.
Proof.
  unfold AddOrder. destruct (Orders ob !! ID (deref h p)); [done|].
  destruct (tree_Get _ _ _);
    by rewrite side_tree_set_opposite, side_tree_set_Orders.
Qed.

Lemma tree_sorted_keys s (t : list (Z * list nat)) :
  tree_sorted (side_cmp s) t →
  StronglySorted (λ k1 k2, match s with Buy => k2 < k1 | Sell => k1 < k2 end)
    (t.*1).
Proof.
  induction t as [|[k lvl] r IH]; simpl; [constructor|].
  intros [Hall Hs]%tree_sorted_cons. constructor; [by apply IH|].
  rewrite Forall_fmap. eapply Forall_impl; [exact Hall|].
  intros [k' lvl'] Hlt. simpl in *. by apply side_cmp_lt in Hlt.
Qed.

Lemma book_of_end_engine order e ts w' :
  book_of (Symbol (deref (store e) order)) (end_engine order e ts w')
  = book (finalize order
            {| mem := mem w'; book := book w';
               mtr := count_trades ts (mtr w'); clock := clock w' |}).
Proof. unfold book_of, end_engine. simpl. by rewrite lookup_insert_eq. Qed.

(** C3.  Price-time priority.  For every successful submission: the levels
    of the side it consumes are ordered best price first (asks ascending for
    a buy, bids descending for a sell) and each level is a queue in insertion
    order; the makers of its trades are, in order, the first orders of that
    sequence of queues, and the side is left with the rest; an order that
    comes to rest is put at the end of the queue of its price.  The trades of
    a limit order are at prices that cross its own, and when its matching
    ends the order is filled, or the side consumed is empty, or the best
    price left does not cross; the matching of a market order ends only with
    the order filled or the side consumed empty. *)
Theorem price_time_priority e id symbol side ty price quantity e' res :
  reachable e → int64 quantity →
  submit id symbol side ty price quantity e = Some (e', Ok res) →
  let order := length (store e) in
  let consumed := opposite side in
  let ob := book_of symbol e in
  let ob' := book_of symbol e' in
  let queue := resting (side_tree consumed ob) in
  StronglySorted
    (λ k1 k2, match side with Buy => k1 < k2 | Sell => k2 < k1 end)
    ((side_tree consumed ob).*1)
  ∧ MakerOrderID side <$> Trades res
    = (λ p, ID (deref (store e) p)) <$> take (length (Trades res)) queue
  ∧ (∃ n, resting (side_tree consumed ob') = drop n queue
          ∧ (n ≤ length (Trades res) ≤ S n)%nat)
  ∧ (Orders ob !! id = None → ty = Limit →
     0 < RemainingQuantity (deref (store e') order) →
     ∃ t1 lvl t2,
       side_tree side ob = t1 ++ level_entry price lvl ++ t2
       ∧ side_tree side ob' = t1 ++ (price, lvl ++ [order]) :: t2)
  ∧ (ty = Limit →
     Forall (λ t, match side with
                  | Buy => TradePrice t ≤ price
                  | Sell => price ≤ TradePrice t
                  end) (Trades res)
     ∧ (RemainingQuantity (deref (store e') order) = 0
        ∨ side_tree consumed ob' = []
        ∨ ∃ best, GetBest consumed ob' = Some best
            ∧ match side with
              | Buy => price < Price (deref (store e') best)
              | Sell => Price (deref (store e') best) < price
              end))
  ∧ (ty = Market →
     RemainingQuantity (deref (store e') order) = 0
     ∨ side_tree consumed ob' = []).
Proof.
  intros He%reachable_ok Hq Hs order consumed ob ob' queue.
  destruct (submit_success _ _ _ _ _ _ _ _ _ He Hq Hs)
    as (He1 & Hin & Hd & HV & Hres & w' & Hm & He').
  set (o := NewOrder id symbol side ty price quantity (time_Now (draws e))) in *.
  set (e1 := allocated id symbol side ty price quantity e) in *.
  fold order in He1, Hin, Hd, Hres, Hm, He'.
  pose proof (start_world_ok _ _ He1 Hin) as Hw0.
  destruct (matched_frame _ _ _ _ _ _ Hm Hw0)
    as (Hw' & Hl & Hi & Hf & Ho & Hbs & _ & HO & _).
  destruct (matched_quantities _ _ _ _ _ _ Hm Hw0) as (Hr & _ & _ & Hn & _).
  destruct (matched_makers _ _ _ _ _ _ Hm Hw0) as (Hmk & n & Hdrop & Hnl).
  { rewrite mem_start_world, Hd. simpl. by destruct side. }
  rewrite mem_start_world in Hl, Hi, Hf, Hr, Hn, Hmk.
  rewrite book_start_world, Hd in Hf, Ho, Hbs, HO, Hmk, Hdrop.
  change (Symbol o) with symbol in Hf, Ho, Hbs, HO, Hmk, Hdrop.
  unfold e1 in Hf, Ho, Hbs, HO, Hmk, Hdrop.
  rewrite book_of_allocated in Hf, Ho, Hbs, HO, Hmk, Hdrop.
  fold ob consumed in Hf, Ho, Hbs, HO, Hmk, Hdrop. fold queue in Hmk, Hdrop.
  rewrite Hd in Hr, Hn. simpl in Hr, Hn.
  assert (0 < quantity) as Hpos.
  { unfold Validate in HV. simpl in HV.
    destruct (bool_decide (ty = Limit) && (price <=? 0)); [done|].
    destruct (Z.leb_spec quantity 0); [done|lia]. }
  destruct (book_of_ok e symbol He) as [Hok _]. fold ob in Hok.
  (* the state after *)
  set (W := {| mem := mem w'; book := book w';
               mtr := count_trades (Trades res) (mtr w'); clock := clock w' |}).
  assert (mem (finalize order W)
          = update (mem w') order
              (set_Status (final_status (deref (mem w') order)))) as Hfm
    by exact (finalize_mem order W).
  assert (ob' = book (finalize order W)) as Hob'.
  { unfold ob'. rewrite He'.
    pose proof (book_of_end_engine order e1 (Trades res) w') as Hb.
    rewrite Hd in Hb. exact Hb. }
  assert (∀ x, RemainingQuantity (deref (store e') x)
               = RemainingQuantity (deref (mem w') x)
               ∧ ident (deref (store e') x) = ident (deref (mem w') x)) as He'x.
  { intros x. rewrite He', store_end_engine.
    by destruct (deref_update_set_Status (mem w') order
                   (final_status (deref (mem w') order)) x) as (? & _ & ?). }
  assert (Side_ (deref (mem (finalize order W)) order) = side) as Hside.
  { rewrite Hfm.
    destruct (deref_update_set_Status (mem w') order
                (final_status (deref (mem w') order)) order) as (_ & _ & Hi').
    rewrite (ident_Side _ _ Hi'), (ident_Side _ _ (Hi order)), Hd. done. }
  assert (side_tree consumed ob' = side_tree consumed (book w')) as Hcons.
  { rewrite Hob', finalize_eq. simpl.
    destruct (goes_to_book _); [|done].
    pose proof (AddOrder_opposite (mem (finalize order W)) order (book w'))
      as HA.
    rewrite Hside, Hfm in HA. exact HA. }
  assert (RemainingQuantity (deref (store e') order) ≤ 0 →
          RemainingQuantity (deref (store e') order) = 0) as Hle0.
  { destruct (He'x order) as [-> _]. lia. }
  split_and!.
  - pose proof (tree_sorted_keys _ _ (bk_sorted _ _ Hok consumed)) as Hsk.
    unfold consumed in *. by destruct side.
  - replace (opposite consumed) with side in Hmk
      by (unfold consumed; by destruct side).
    rewrite Hmk. apply list_fmap_ext. intros i x Hx.
    apply lookup_take_Some in Hx as [Hx _].
    apply list_elem_of_lookup_2 in Hx.
    destruct (book_of_resting _ _ _ _ He Hx) as [Hxl _].
    simpl. by rewrite deref_app_l.
  - exists n. by rewrite Hcons.
  - intros Hnew Hty Hrem.
    assert (goes_to_book (deref (mem w') order) = true) as Hg.
    { unfold goes_to_book. rewrite (ident_Type _ _ (Hi order)), Hd. simpl.
      rewrite Hty. destruct (He'x order) as [<- _].
      apply andb_true_iff. split; [by apply Z.ltb_lt|by apply bool_decide_eq_true]. }
    assert (book_ok (mem (finalize order W)) (book w')) as Hokf.
    { rewrite Hfm. apply book_ok_update_status, Hw'. }
    assert (ident (deref (mem (finalize order W)) order) = ident o) as Hio.
    { rewrite Hfm.
      destruct (deref_update_set_Status (mem w') order
                  (final_status (deref (mem w') order)) order) as (_ & _ & ->).
      by rewrite (Hi order), Hd. }
    destruct (AddOrder_new (mem (finalize order W)) order (book w') Hokf)
      as (t1 & lvl & t2 & Ht & _ & Hadd).
    { rewrite (ident_ID _ _ Hio). simpl.
      destruct (Orders (book w') !! id) as [q|] eqn:E; [|done].
      apply HO in E. congruence. }
    rewrite (ident_Side _ _ Hio), (ident_Price _ _ Hio) in Ht, Hadd.
    simpl in Ht, Hadd.
    exists t1, lvl, t2. split.
    + rewrite <- Ht. unfold consumed in Ho.
      replace (opposite (opposite side)) with side in Ho by (by destruct side).
      done.
    + rewrite Hob', finalize_eq. simpl. rewrite Hg.
      rewrite <- Hfm, Hadd. by rewrite side_tree_set.
  - intros Hty. split.
    + pose proof (matched_limit_prices o _ _ _ _ _ Hm Hw0 Hty eq_refl) as Hp.
      rewrite mem_start_world, Hd in Hp. by apply Hp.
    + destruct (matched_final _ _ _ _ _ _ Hm) as [Hfin|[Hfin|(b & HB & Hstop)]].
      * left. apply Hle0. by destruct (He'x order) as [-> _].
      * right. left. by rewrite Hcons.
      * right. right. exists b. split.
        -- unfold GetBest. rewrite Hcons. exact HB.
        -- destruct (He'x b) as [_ Hib]. rewrite (ident_Price _ _ Hib).
           unfold stop_of in Hstop. change (Type_ o) with ty in Hstop.
           rewrite Hty in Hstop.
           change (Side_ o) with side in Hstop.
           assert (Price (deref (mem w') order) = price) as Hpo
             by (by rewrite (ident_Price _ _ (Hi order)), Hd).
           destruct side; simpl in Hstop; rewrite Hpo in Hstop.
           ++ by apply Z.ltb_lt in Hstop.
           ++ by apply Z.gtb_lt in Hstop.
  - intros Hty.
    destruct (matched_final _ _ _ _ _ _ Hm) as [Hfin|[Hfin|(b & HB & Hstop)]].
    + left. apply Hle0. by destruct (He'x order) as [-> _].
    + right. by rewrite Hcons.
    + unfold stop_of in Hstop. change (Type_ o) with ty in Hstop.
           rewrite Hty in Hstop. done.
Qed.


(** ** The counter of resting orders *)

Lemma resting_count_sides s ob :
  resting_count ob
  = (length (resting (side_tree s ob))
     + length (resting (side_tree (opposite s) ob)))%nat.
Proof. unfold resting_count. destruct s; simpl; lia. Qed.

Lemma resting_count_empty symbol : resting_count (NewOrderBook symbol) = 0%nat.
Proof. done. Qed.

(** Replacing the book of one symbol changes the count by the difference of
    the two books. *)
Lemma books_resting_insert books symbol ob :
  (books_resting (<[symbol := ob]> books)
   + resting_count (default (NewOrderBook symbol) (books !! symbol))
   = books_resting books + resting_count ob)%nat.
Proof.
  unfold books_resting.
  destruct (books !! symbol) as [ob0|] eqn:Hb; simpl.
  - rewrite <- (insert_delete_eq books).
    rewrite (map_fold_delete_L _ _ symbol ob0 books); [|intros; lia|done].
    rewrite map_fold_insert_L; [lia|intros; lia|by rewrite lookup_delete_eq].
  - rewrite map_fold_insert_L; [|intros; lia|done].
    rewrite resting_count_empty. lia.
Qed.

Lemma total_resting_insert e symbol ob :
  (books_resting (<[symbol := ob]> (OrderBooks e))
   + resting_count (book_of symbol e)
   = total_resting e + resting_count ob)%nat.
Proof. apply books_resting_insert. Qed.

Lemma executeTrade_count order s w b :
  world_ok order w → 0 < RemainingQuantity (deref (mem w) order) →
  GetBest s (book w) = Some b →
  OrdersInBook (mtr (executeTrade order b w).2)
    + Z.of_nat (resting_count (book w))
  = OrdersInBook (mtr w)
    + Z.of_nat (resting_count (book (executeTrade order b w).2)).
Proof.
  intros Hw Hrem HB. rewrite (executeTrade_eq _ _ _ _ Hw Hrem HB). simpl.
  case_bool_decide; simpl; [|lia].
  destruct (GetBest_Some _ _ _ HB) as (k & lvl & r & Ht).
  destruct (without_best_side (mem w) _ _ _ _ _ _ Ht) as (Hs & Ho & _).
  rewrite !(resting_count_sides s), Hs, Ho, Ht, resting_cons,
    resting_level_entry.
  simpl. rewrite !length_app. lia.
Qed.

(** A matching loop takes one off the counter with every order it takes out
    of the book. *)
Lemma matched_count stop s order w ts w' :
  matched stop s order w ts w' → world_ok order w →
  OrdersInBook (mtr w') + Z.of_nat (resting_count (book w))
  = OrdersInBook (mtr w) + Z.of_nat (resting_count (book w')).
Proof.
  induction 1 as [w _|w b ts w' Hrem HB Hstop Hm IH]; intros Hw; [lia|].
  pose proof (executeTrade_count _ _ _ _ Hw Hrem HB).
  specialize (IH (executeTrade_ok _ _ _ _ Hw Hrem HB)). lia.
Qed.

Lemma OrdersInBook_count_trades ts m :
  OrdersInBook (count_trades ts m) = OrdersInBook m.
Proof. unfold count_trades. by case_match. Qed.

(** The end of [ProcessOrder] for an order whose id the book does not
    index: the counter goes up by one exactly when the order comes to rest. *)
Lemma finalize_count order w :
  world_ok order w →
  Orders (book w) !! ID (deref (mem w) order) = None →
  OrdersInBook (mtr (finalize order w)) + Z.of_nat (resting_count (book w))
  = OrdersInBook (mtr w)
    + Z.of_nat (resting_count (book (finalize order w)))
  ∧ ∀ id p, Orders (book (finalize order w)) !! id = Some p →
      Orders (book w) !! id = Some p
      ∨ (id = ID (deref (mem w) order) ∧ p = order).
Proof.
  intros Hw Hid. rewrite finalize_eq. simpl.
  set (o := deref (mem w) order) in *.
  set (h := update (mem w) order (set_Status (final_status o))).
  destruct (goes_to_book o); [|split; [lia|auto]].
  assert (book_ok h (book w)) as Hok
    by apply book_ok_update_status, Hw.
  assert (ID (deref h order) = ID o) as Hio.
  { destruct (deref_update_set_Status (mem w) order (final_status o) order)
      as (_ & _ & Hi). by apply ident_ID. }
  rewrite <- Hio in Hid.
  destruct (AddOrder_new _ _ _ Hok Hid) as (t1 & lvl & t2 & Ht & _ & ->).
  split.
  - rewrite !(resting_count_sides (Side_ (deref h order))), side_tree_set,
      side_tree_set_opposite, !side_tree_set_Orders, Ht, !(resting_app t1),
      resting_level_entry, resting_cons, !length_app.
    simpl. lia.
  - intros id p. rewrite Orders_set_side_tree. simpl.
    intros [[<- <-]|[_ ?]]%lookup_insert_Some; auto.
Qed.

(** ** Distinct ids along a run *)

Lemma book_of_index e symbol id p :
  index_agrees e → Orders (book_of symbol e) !! id = Some p →
  AllOrders e !! id = Some p.
Proof.
  intros Hi. unfold book_of.
  destruct (OrderBooks e !! symbol) as [ob|] eqn:Hob; simpl.
  - by apply (Hi symbol).
  - by rewrite lookup_empty.
Qed.

(** An engine whose book of [symbol] is replaced by one that indexes no more
    than before, with the counter moved by the change of its count. *)
Lemma distinct_ok_insert e symbol ob reg m h d :
  distinct_ok e →
  (∀ id p, AllOrders e !! id = Some p → reg !! id = Some p) →
  (∀ id p, Orders ob !! id = Some p → reg !! id = Some p) →
  OrdersInBook m + Z.of_nat (resting_count (book_of symbol e))
  = OrdersInBook (metrics e) + Z.of_nat (resting_count ob) →
  distinct_ok {| OrderBooks := <[symbol := ob]> (OrderBooks e);
                 AllOrders := reg; metrics := m; store := h; draws := d |}.
Proof.
  intros [Hi Hc] Hreg Hob Hm. split; simpl.
  - intros sym ob' id p Hs Hp. simpl in Hs, Hp |- *.
    apply lookup_insert_Some in Hs as [[<- <-]|[_ Hs]].
    + by apply Hob.
    + by apply Hreg, (Hi sym ob').
  - unfold total_resting. simpl.
    pose proof (total_resting_insert e symbol ob). lia.
Qed.

Lemma end_engine_distinct order e ts w' :
  engine_ok e → incoming_ok order e → distinct_ok e →
  AllOrders e !! ID (deref (store e) order) = None →
  matched (stop_of (deref (store e) order))
    (opposite (Side_ (deref (store e) order))) order
    (start_world order e) ts w' →
  distinct_ok (end_engine order e ts w').
Proof.
  intros He Hin Hd Hfresh Hm.
  pose proof (start_world_ok _ _ He Hin) as Hw0.
  destruct (matched_frame _ _ _ _ _ _ Hm Hw0)
    as (Hw' & _ & Hi & _ & _ & _ & _ & HO & _).
  pose proof (matched_count _ _ _ _ _ _ Hm Hw0) as Hc.
  rewrite mem_start_world in Hi. rewrite book_start_world in HO, Hc.
  set (o := deref (store e) order) in *.
  set (W := {| mem := mem w'; book := book w';
               mtr := count_trades ts (mtr w'); clock := clock w' |}).
  assert (world_ok order W) as HW by by apply (world_ok_ext order w').
  assert (Orders (book W) !! ID (deref (mem W) order) = None) as Hid.
  { simpl. rewrite (ident_ID _ _ (Hi order)).
    destruct (Orders (book w') !! ID o) as [q|] eqn:Hq; [|done].
    apply HO, (book_of_index _ _ _ _ (proj1 Hd)) in Hq. congruence. }
  destruct (finalize_count order W HW Hid) as [Hfc Hfi].
  simpl in Hfc, Hfi. rewrite (ident_ID _ _ (Hi order)) in Hfi.
  rewrite OrdersInBook_count_trades in Hfc.
  unfold end_engine. fold o. fold W.
  apply distinct_ok_insert; try done.
  - intros id p Hp. rewrite lookup_insert_ne; [done|]. fold o. congruence.
  - intros id p [Hp|[-> ->]]%Hfi.
    + apply HO, (book_of_index _ _ _ _ (proj1 Hd)) in Hp.
      rewrite lookup_insert_ne; [done|]. fold o. congruence.
    + by rewrite lookup_insert_eq.
  - simpl in Hc. fold o. lia.
Qed.

Lemma submit_distinct id symbol side ty price quantity e e' r :
  engine_ok e → int64 quantity → distinct_ok e → AllOrders e !! id = None →
  submit id symbol side ty price quantity e = Some (e', r) →
  distinct_ok e'
  ∧ ∀ id', id' ≠ id → AllOrders e !! id' = None → AllOrders e' !! id' = None.
Proof.
  intros He Hq Hd Hfresh Hs.
  destruct (submit_cases id symbol side ty price quantity e He Hq)
    as (He1 & Hin & Hdo & Hc).
  destruct Hc as [(err & _ & Hs')|[(_ & _ & _ & Hs')|(_ & _ & ts & w' & Hm & Hs')]];
    rewrite Hs' in Hs; injection Hs as <- <-.
  - split; [exact Hd|done].
  - split.
    + apply (distinct_ok_insert e); try done.
      * intros id' p Hp. rewrite lookup_delete_ne; [done|]. congruence.
      * intros id' p Hp%(book_of_index _ _ _ _ (proj1 Hd)).
        rewrite lookup_delete_ne; [done|]. congruence.
    + intros id' _ Hn. simpl. by apply lookup_delete_None; right.
  - split.
    + apply end_engine_distinct; try done.
      * rewrite Hdo. done.
      * by rewrite Hdo.
    + intros id' Hne Hn. unfold end_engine. cbn [AllOrders]. rewrite Hdo.
      rewrite lookup_insert_ne; done.
Qed.

(** ** Removal and cancellation *)

Lemma filter_ne_id (p : nat) (l : list nat) :
  p ∉ l → filter (λ x, x ≠ p) l = l.
Proof.
  induction l as [|x l IH]; [done|]. intros [Hx Hl]%not_elem_of_cons.
  rewrite filter_cons_True by done. by rewrite IH.
Qed.

(** [RemoveOrder] of an id the book indexes takes the order out of the
    queues and leaves the other orders in their order. *)
Lemma RemoveOrder_resting h id ob p :
  book_ok h ob → Orders ob !! id = Some p →
  (RemoveOrder h id ob).1 = Some p
  ∧ Orders (RemoveOrder h id ob).2 = delete id (Orders ob)
  ∧ (resting_count (RemoveOrder h id ob).2 + 1 = resting_count ob)%nat
  ∧ ∀ s, resting (side_tree s (RemoveOrder h id ob).2)
         = filter (λ x, x ≠ p) (resting (side_tree s ob)).
Proof.
  intros Hok Hid.
  destruct (RemoveOrder_Some _ _ _ _ Hok Hid)
    as (t1 & lvl1 & lvl2 & t2 & Ht & ->). simpl.
  set (sd := Side_ (deref h p)) in *. set (k := Price (deref h p)) in *.
  split; [done|]. split; [by rewrite Orders_set_side_tree|]. split.
  - rewrite !(resting_count_sides sd), side_tree_set, side_tree_set_opposite,
      !side_tree_set_Orders, Ht, !(resting_app t1), resting_level_entry,
      resting_cons, !length_app.
    simpl. lia.
  - intros s. destruct (side_cases sd s) as [->| ->].
    + pose proof (resting_NoDup h ob sd Hok) as Hnd.
      rewrite side_tree_set, Ht, !(resting_app t1), resting_level_entry,
        resting_cons.
      rewrite Ht, (resting_app t1), resting_cons in Hnd.
      apply NoDup_app in Hnd as (_ & Hd1 & Hnd).
      apply NoDup_app in Hnd as (Hnl & Hd2 & _).
      apply NoDup_app in Hnl as (_ & Hd3 & Hnl).
      apply NoDup_cons in Hnl as [Hd4 _].
      assert (p ∈ lvl1 ++ p :: lvl2) as Hin
        by (apply elem_of_app; right; left).
      assert (p ∉ resting t1) as H1.
      { intros Hp. apply (Hd1 _ Hp), elem_of_app. by left. }
      assert (p ∉ lvl1) as H3 by (intros Hp; apply (Hd3 _ Hp); left).
      rewrite !filter_app, filter_cons_False by (intros Hne; by apply Hne).
      rewrite !filter_ne_id; try done. by apply Hd2.
    + rewrite side_tree_set_opposite, side_tree_set_Orders.
      rewrite filter_ne_id; [done|]. intros Hp.
      destruct (resting_index _ _ _ _ Hok Hp) as [_ Hs].
      by apply (opposite_ne sd).
Qed.

(** The closed form of [CancelOrder] on an order neither filled nor
    cancelled. *)
Lemma CancelOrder_eq orderID e p :
  AllOrders e !! orderID = Some p →
  Status (deref (store e) p) ≠ Filled →
  Status (deref (store e) p) ≠ Cancelled →
  let symbol := Symbol (deref (store e) p) in
  let r := RemoveOrder (store e) orderID (book_of symbol e) in
  CancelOrder orderID e
  = ({| OrderBooks := <[symbol := r.2]> (OrderBooks e);
        AllOrders := AllOrders e;
        metrics := match r.1 with
                   | Some _ => DecOrdersInBook (IncOrdersCancelled (metrics e))
                   | None => IncOrdersCancelled (metrics e)
                   end;
        store := update (store e) (default p r.1) (set_Status Cancelled);
        draws := draws e |},
     Ok (default p r.1)).
Proof.
  intros Hreg Hf Hc symbol r. unfold CancelOrder. rewrite Hreg.
  rewrite !bool_decide_eq_false_2 by done.
  rewrite getOrderBook_eq. simpl.
  rewrite bool_decide_eq_false_2 by done. fold symbol. fold r.
  destruct r as [[q|] ob']; simpl; by rewrite insert_insert_eq.
Qed.

Lemma CancelOrder_distinct orderID e :
  engine_ok e → distinct_ok e →
  distinct_ok (CancelOrder orderID e).1
  ∧ AllOrders (CancelOrder orderID e).1 = AllOrders e.
Proof.
  intros He Hd.
  destruct (AllOrders e !! orderID) as [p|] eqn:Hreg;
    [|unfold CancelOrder; by rewrite Hreg].
  destruct (decide (Status (deref (store e) p) = Filled)) as [Hf|Hf];
    [unfold CancelOrder; by rewrite Hreg, bool_decide_eq_true_2|].
  destruct (decide (Status (deref (store e) p) = Cancelled)) as [Hc|Hc].
  { unfold CancelOrder. rewrite Hreg, bool_decide_eq_false_2 by done.
    by rewrite bool_decide_eq_true_2. }
  rewrite (CancelOrder_eq _ _ _ Hreg Hf Hc). simpl. split; [|done].
  set (symbol := Symbol (deref (store e) p)).
  destruct (book_of_ok e symbol He) as [Hbo _].
  destruct (Orders (book_of symbol e) !! orderID) as [q|] eqn:Hid.
  - destruct (RemoveOrder_resting _ _ _ _ Hbo Hid) as (-> & HO & Hrc & _).
    apply distinct_ok_insert; try done.
    + intros id x. rewrite HO. intros [_ Hx]%lookup_delete_Some.
      by apply (book_of_index _ symbol); [apply Hd|].
    + simpl. lia.
  - rewrite (RemoveOrder_None _ _ _ Hid). simpl.
    apply distinct_ok_insert; try done.
    intros id x Hx. by apply (book_of_index _ symbol); [apply Hd|].
Qed.

Lemma GetOrderBookDepth_distinct symbol depthLimit e :
  distinct_ok e →
  distinct_ok (GetOrderBookDepth symbol depthLimit e).1
  ∧ AllOrders (GetOrderBookDepth symbol depthLimit e).1 = AllOrders e.
Proof.
  intros Hd. unfold GetOrderBookDepth. rewrite getOrderBook_eq. simpl.
  split; [|done]. apply distinct_ok_insert; try done.
  intros id x Hx. by apply (book_of_index _ symbol); [apply Hd|].
Qed.

Lemma NewEngine_distinct : distinct_ok NewEngine.
Proof.
  split.
  - intros sym ob id p Hob. simpl in Hob. by rewrite lookup_empty in Hob.
  - unfold total_resting, books_resting. simpl. by rewrite map_fold_empty.
Qed.

(** One request keeps what distinct ids ensure when the id it submits, if
    any, is new to the registry; it adds no other id to the registry. *)
Lemma step_distinct r e e' :
  engine_ok e → request_ok r → distinct_ok e →
  (∀ id, submitted_id r = Some id → AllOrders e !! id = None) →
  step r e = Some e' →
  distinct_ok e'
  ∧ ∀ id, submitted_id r ≠ Some id → AllOrders e !! id = None →
      AllOrders e' !! id = None.
Proof.
  intros He Hr Hd Hfresh Hs.
  destruct r as [id symbol side ty price quantity|id|symbol limit];
    simpl in Hs.
  - destruct (submit id symbol side ty price quantity e) as [[e1 res]|] eqn:Hsub;
      [|done]. injection Hs as <-. destruct Hr as [_ Hq].
    destruct (submit_distinct _ _ _ _ _ _ _ _ _ He Hq Hd (Hfresh id eq_refl) Hsub)
      as [Hd1 Hreg].
    split; [done|]. intros id' Hne. apply Hreg. simpl in Hne. congruence.
  - injection Hs as <-. destruct (CancelOrder_distinct id e He Hd) as [? ->].
    done.
  - injection Hs as <-.
    destruct (GetOrderBookDepth_distinct symbol limit e Hd) as [? ->]. done.
Qed.

Lemma run_distinct rs e e' :
  engine_ok e → distinct_ok e → Forall request_ok rs →
  NoDup (submitted_ids rs) →
  (∀ id, id ∈ submitted_ids rs → AllOrders e !! id = None) →
  run rs e = Some e' → distinct_ok e'.
Proof.
  revert e. induction rs as [|r rs IH]; intros e He Hd Hrs Hnd Hfresh Hrun;
    simpl in Hrun.
  - by injection Hrun as <-.
  - apply Forall_cons in Hrs as [Hr Hrs].
    destruct (step_ok r e He Hr) as (e1 & Hs & He1). rewrite Hs in Hrun.
    unfold submitted_ids in Hnd, Hfresh. simpl in Hnd, Hfresh.
    fold (submitted_ids rs) in Hnd, Hfresh.
    destruct (step_distinct r e e1 He Hr Hd) as [Hd1 Hreg]; [|done|].
    { intros id Hid. apply Hfresh. rewrite Hid. left. }
    apply (IH e1); try done.
    + destruct (submitted_id r); [by apply NoDup_cons in Hnd as [_ ?]|done].
    + intros id Hid. apply Hreg.
      * intros Heq. rewrite Heq in Hnd. by apply NoDup_cons in Hnd as [? _].
      * apply Hfresh. destruct (submitted_id r); [by right|done].
Qed.

Lemma reachable_distinct_reachable e : reachable_distinct e → reachable e.
Proof. intros (rs & Hrs & _ & Hrun). by exists rs. Qed.

Lemma reachable_distinct_ok e : reachable_distinct e → distinct_ok e.
Proof.
  intros (rs & Hrs & Hnd & Hrun).
  by apply (run_distinct rs NewEngine e NewEngine_ok NewEngine_distinct Hrs Hnd).
Qed.

Lemma book_of_insert sym symbol ob e e' :
  OrderBooks e' = <[symbol := ob]> (OrderBooks e) →
  book_of sym e' = if decide (symbol = sym) then ob else book_of sym e.
Proof.
  intros Hb. unfold book_of. rewrite Hb. case_decide as Hs.
  - subst. by rewrite lookup_insert_eq.
  - by rewrite lookup_insert_ne.
Qed.

(** Where an order rests: in the book of its symbol, on its side, indexed
    under its id. *)
Lemma resting_where e sym s p :
  engine_ok e → p ∈ resting (side_tree s (book_of sym e)) →
  sym = Symbol (deref (store e) p) ∧ s = Side_ (deref (store e) p)
  ∧ Orders (book_of sym e) !! ID (deref (store e) p) = Some p.
Proof.
  intros He Hp. destruct (book_of_ok e sym He) as [Hbo Hbs].
  destruct (resting_symbol _ _ _ _ Hbo Hp) as (_ & Hsym & _).
  destruct (resting_index _ _ _ _ Hbo Hp) as [Hi Hs].
  split_and!; congruence.
Qed.

(** [CancelOrder] on an order neither filled nor cancelled, when the books
    index their orders as the registry does. *)
Lemma CancelOrder_live orderID e p :
  engine_ok e → index_agrees e →
  AllOrders e !! orderID = Some p →
  Status (deref (store e) p) ≠ Filled →
  Status (deref (store e) p) ≠ Cancelled →
  let o := deref (store e) p in
  let e' := (CancelOrder orderID e).1 in
  (CancelOrder orderID e).2 = Ok p
  ∧ store e' = update (store e) p (set_Status Cancelled)
  ∧ AllOrders e' = AllOrders e
  ∧ (∀ sym s, resting (side_tree s (book_of sym e'))
              = filter (λ x, x ≠ p) (resting (side_tree s (book_of sym e))))
  ∧ (∀ sym s, p ∈ resting (side_tree s (book_of sym e)) →
       sym = Symbol o ∧ s = Side_ o)
  ∧ OrdersCancelled (metrics e') = OrdersCancelled (metrics e) + 1
  ∧ OrdersInBook (metrics e')
    = OrdersInBook (metrics e)
      - (if decide (p ∈ resting (side_tree (Side_ o) (book_of (Symbol o) e)))
         then 1 else 0).
Proof.
  intros He Hi Hreg Hf Hc o e'. unfold e'.
  rewrite (CancelOrder_eq _ _ _ Hreg Hf Hc). simpl. fold o.
  set (symbol := Symbol o).
  destruct (book_of_ok e symbol He) as [Hbo _].
  destruct (e_registry _ He _ _ Hreg) as [_ Hpid]. fold o in Hpid.
  assert (∀ sym s, p ∈ resting (side_tree s (book_of sym e)) →
            sym = symbol ∧ s = Side_ o) as Hwhere.
  { intros sym s Hp. by destruct (resting_where _ _ _ _ He Hp) as (? & ? & _). }
  destruct (Orders (book_of symbol e) !! orderID) as [q|] eqn:Hid.
  - assert (q = p) as ->.
    { apply (book_of_index _ _ _ _ Hi) in Hid. congruence. }
    destruct (RemoveOrder_resting _ _ _ _ Hbo Hid) as (Hr1 & _ & _ & Hfl).
    rewrite Hr1. simpl. split_and!; try done.
    + intros sym s.
      rewrite (book_of_insert sym symbol
                 (RemoveOrder (store e) orderID (book_of symbol e)).2 e)
        by done.
      case_decide as Hs; [subst sym; apply Hfl|].
      rewrite filter_ne_id; [done|]. intros Hp.
      destruct (Hwhere _ _ Hp). congruence.
    + rewrite decide_True; [lia|]. by apply (index_resting _ _ orderID).
  - rewrite (RemoveOrder_None _ _ _ Hid). simpl.
    assert (∀ sym s, p ∉ resting (side_tree s (book_of sym e))) as Hnot.
    { intros sym s Hp.
      destruct (resting_where _ _ _ _ He Hp) as (-> & _ & Hx).
      fold o in Hx. fold symbol in Hx. congruence. }
    split_and!; try done.
    + intros sym s.
      rewrite (book_of_insert sym symbol (book_of symbol e) e) by done.
      rewrite filter_ne_id by apply Hnot.
      case_decide; by subst.
    + rewrite decide_False by apply Hnot. lia.
Qed.

(** C6.  The cancel protocol.  For every state of the engine:
    [CancelOrder] of an id the registry does not have fails with not-found,
    and of a filled order with already-filled, the engine unchanged in both
    cases; of an order already cancelled it returns the order, the engine
    unchanged, counters included.  For the states reached when every order
    is submitted under an id of its own: of any other order it returns the
    order with its status set to [Cancelled] and nothing else of the store
    changed, and the order rests in no book afterwards: it is taken out of
    the queue it was in, if any, which is in the book of its symbol on its
    side, and all other queues are as they were; the counter of cancelled
    orders goes up by one and the counter of resting orders goes down by one
    exactly when the order was resting. *)
Theorem cancel_protocol e orderID :
  let e' := (CancelOrder orderID e).1 in
  let res := (CancelOrder orderID e).2 in
  (AllOrders e !! orderID = None → res = Err ErrNotFound ∧ e' = e)
  ∧ ∀ p, AllOrders e !! orderID = Some p →
      let o := deref (store e) p in
      (Status o = Filled → res = Err ErrAlreadyFilled ∧ e' = e)
      ∧ (Status o = Cancelled → res = Ok p ∧ e' = e)
      ∧ (reachable_distinct e → Status o ≠ Filled → Status o ≠ Cancelled →
         res = Ok p
         ∧ store e' = update (store e) p (set_Status Cancelled)
         ∧ AllOrders e' = AllOrders e
         ∧ (∀ sym s,
              resting (side_tree s (book_of sym e'))
              = filter (λ x, x ≠ p) (resting (side_tree s (book_of sym e))))
         ∧ (∀ sym s, p ∈ resting (side_tree s (book_of sym e)) →
              sym = Symbol o ∧ s = Side_ o)
         ∧ OrdersCancelled (metrics e') = OrdersCancelled (metrics e) + 1
         ∧ OrdersInBook (metrics e')
           = OrdersInBook (metrics e)
             - (if decide (p ∈ resting (side_tree (Side_ o)
                                          (book_of (Symbol o) e)))
                then 1 else 0)).
Proof.
  intros e' res. unfold e', res. split.
  - intros Hreg. unfold CancelOrder. by rewrite Hreg.
  - intros p Hreg. split_and!.
    + intros Hf. unfold CancelOrder. by rewrite Hreg, bool_decide_eq_true_2.
    + intros Hc. unfold CancelOrder. rewrite Hreg.
      rewrite bool_decide_eq_false_2 by congruence.
      by rewrite bool_decide_eq_true_2.
    + intros Hr Hf Hc. apply CancelOrder_live; try done.
      * by apply reachable_ok, reachable_distinct_reachable.
      * by apply reachable_distinct_ok.
Qed.

(** C10.  When every order is submitted under an id of its own, the counter
    of resting orders is, after every operation, the number of orders resting
    in all the books.  Some sequence of operations that submits an id twice
    leaves the counter one above that number. *)
Theorem orders_in_book_counter e :
  reachable_distinct e →
  OrdersInBook (metrics e) = Z.of_nat (total_resting e)
  ∧ ∃ rs e', Forall request_ok rs ∧ run rs NewEngine = Some e'
      ∧ OrdersInBook (metrics e') = Z.of_nat (total_resting e') + 1.
Proof.
  intros Hr. split; [by apply reachable_distinct_ok|].
  exists example_shadowed. eexists. split_and!.
  - repeat constructor; unfold int64, min_int64, max_int64; lia.
  - vm_compute. reflexivity.
  - vm_compute. reflexivity.
Qed.

(** ** Orders at rest *)

Lemma AddOrder_resting h p ob s x :
  book_ok h ob → x ∈ resting (side_tree s (AddOrder h p ob)) →
  x = p ∨ x ∈ resting (side_tree s ob).
Proof.
  intros Hok Hx.
  destruct (Orders ob !! ID (deref h p)) as [q|] eqn:Hid.
  { rewrite (AddOrder_known _ _ _ _ Hid) in Hx. by right. }
  destruct (AddOrder_new _ _ _ Hok Hid) as (t1 & lvl & t2 & Ht & _ & Heq).
  rewrite Heq in Hx.
  destruct (side_cases (Side_ (deref h p)) s) as [->| ->].
  - rewrite side_tree_set, (resting_app t1), resting_cons in Hx.
    rewrite Ht, (resting_app t1), resting_level_entry.
    rewrite !elem_of_app in Hx. rewrite !elem_of_app.
    destruct Hx as [?|[[?|Hx]|?]]; auto.
    apply list_elem_of_singleton in Hx. by left.
  - rewrite side_tree_set_opposite, side_tree_set_Orders in Hx. by right.
Qed.

Lemma executeTrade_resting order s w b :
  world_ok order w → 0 < RemainingQuantity (deref (mem w) order) →
  GetBest s (book w) = Some b →
  world_resting_ok w → world_resting_ok (executeTrade order b w).2.
Proof.
  intros Hw Hrem HB Hr.
  destruct (GetBest_rests _ _ _ _ (w_book _ _ Hw) HB)
    as (k & lvl & r & Ht & Hb).
  assert (b ∈ resting (side_tree s (book w))) as Hbr.
  { rewrite Ht, resting_cons. left. }
  assert (b ≠ order) as Hne by (intros ->; by apply (w_fresh _ _ Hw s)).
  rewrite (executeTrade_eq _ _ _ _ Hw Hrem HB). simpl.
  case_bool_decide; intros s' x Hx; simpl in *.
  - destruct (without_best_resting _ _ _ _ _ _ _ _ _ (w_book _ _ Hw) Ht Hx)
      as [Hx' Hxb].
    rewrite deref_traded_other; [by apply (Hr s')|..|done].
    intros ->. by apply (w_fresh _ _ Hw s').
  - destruct (decide (x = b)) as [->|Hxb].
    + destruct Hb as (Hbl & _ & _ & _ & _ & Hbrem).
      destruct (Hr _ _ Hbr) as [Hty Hst].
      pose proof (store_order_ok _ _ (w_store _ _ Hw) Hbl) as (_ & Hf0 & _).
      rewrite deref_traded_maker by done. split; [done|].
      unfold resting_status, fill, tradeQuantity. simpl.
      rewrite (proj2 (Z.ltb_lt _ _)); [done|lia].
    + rewrite deref_traded_other; [by apply (Hr s')|..|done].
      intros ->. by apply (w_fresh _ _ Hw s').
Qed.

Lemma matched_resting stop s order w ts w' :
  matched stop s order w ts w' → world_ok order w →
  world_resting_ok w → world_resting_ok w'.
Proof.
  induction 1 as [w _|w b ts w' Hrem HB Hstop Hm IH]; intros Hw Hr; [done|].
  apply IH.
  - by apply (executeTrade_ok _ s).
  - by apply (executeTrade_resting _ s).
Qed.

Lemma end_engine_book order e ts w' sym :
  book_of sym (end_engine order e ts w')
  = if decide (Symbol (deref (store e) order) = sym)
    then book (finalize order
                 {| mem := mem w'; book := book w';
                    mtr := count_trades ts (mtr w'); clock := clock w' |})
    else book_of sym e.
Proof. by apply book_of_insert. Qed.

(** An order resting in the book of another symbol is out of the reach of a
    matching run. *)
Lemma matched_elsewhere order e ts w' sym s x :
  engine_ok e → incoming_ok order e →
  matched (stop_of (deref (store e) order))
    (opposite (Side_ (deref (store e) order))) order
    (start_world order e) ts w' →
  Symbol (deref (store e) order) ≠ sym →
  x ∈ resting (side_tree s (book_of sym e)) →
  x ≠ order ∧ mem w' !! x = store e !! x.
Proof.
  intros He Hin Hm Hsym Hx.
  pose proof (start_world_ok _ _ He Hin) as Hw0.
  destruct (matched_frame _ _ _ _ _ _ Hm Hw0)
    as (_ & _ & _ & Hf & _).
  assert (x ≠ order) as Hne.
  { intros ->. by apply (book_of_fresh order e sym s). }
  split; [done|]. rewrite <- (mem_start_world order e). apply Hf; [done|].
  rewrite book_start_world. intros Hx'.
  destruct (resting_where _ _ _ _ He Hx) as (? & _).
  destruct (resting_where _ _ _ _ He Hx') as (? & _). congruence.
Qed.

Lemma end_engine_resting order e ts w' :
  engine_ok e → incoming_ok order e → resting_ok e →
  matched (stop_of (deref (store e) order))
    (opposite (Side_ (deref (store e) order))) order
    (start_world order e) ts w' →
  resting_ok (end_engine order e ts w').
Proof.
  intros He Hin Hr Hm sym s x. rewrite end_engine_book, store_end_engine.
  pose proof (start_world_ok _ _ He Hin) as Hw0.
  destruct (matched_frame _ _ _ _ _ _ Hm Hw0) as (Hw' & _).
  set (o' := deref (mem w') order).
  set (h := update (mem w') order (set_Status (final_status o'))).
  case_decide as Hsym.
  - rewrite finalize_eq. simpl. fold o'. fold h. intros Hx.
    assert (x ∈ resting (side_tree s (book w')) →
            resting_order_ok (deref h x)) as Hold.
    { intros Hx'.
      assert (x ≠ order) as Hne by (intros ->; by apply (w_fresh _ _ Hw' s)).
      unfold h. rewrite deref_update_ne by done.
      assert (world_resting_ok w') as Hr'; [|by apply (Hr' s)].
      apply (matched_resting _ _ _ _ _ _ Hm Hw0).
      intros s1 x1. rewrite mem_start_world, book_start_world. apply Hr. }
    destruct (goes_to_book o') eqn:Hg; [|by apply Hold].
    apply AddOrder_resting in Hx as [->|Hx];
      [|by apply Hold|by apply book_ok_update_status, Hw'].
    unfold h. rewrite deref_update_eq by apply Hw'.
    unfold goes_to_book in Hg. apply andb_true_iff in Hg as [Hrem Hty].
    apply bool_decide_eq_true in Hty. split; [done|]. simpl.
    unfold final_status, resting_status. by rewrite Hrem.
  - intros Hx.
    destruct (matched_elsewhere _ _ _ _ _ _ _ He Hin Hm Hsym Hx) as [Hne Hl].
    unfold h. rewrite deref_update_ne by done.
    unfold deref. rewrite Hl. by apply (Hr sym s).
Qed.

Lemma submit_resting id symbol side ty price quantity e e' r :
  engine_ok e → int64 quantity → resting_ok e →
  submit id symbol side ty price quantity e = Some (e', r) → resting_ok e'.
Proof.
  intros He Hq Hr Hs.
  destruct (submit_cases id symbol side ty price quantity e He Hq)
    as (He1 & Hin & Hdo & Hc).
  assert (resting_ok (allocated id symbol side ty price quantity e)) as Hr1.
  { intros sym s x Hx. rewrite book_of_allocated in Hx.
    destruct (book_of_resting _ _ _ _ He Hx) as [Hl _].
    simpl. rewrite deref_app_l by done. by apply (Hr sym s). }
  destruct Hc as [(err & _ & Hs')|[(_ & _ & _ & Hs')|(_ & _ & ts & w' & Hm & Hs')]];
    rewrite Hs' in Hs; injection Hs as <- <-.
  - exact Hr1.
  - intros sym s x.
    rewrite (book_of_insert sym symbol (book_of symbol e) e) by done.
    intros Hx. apply (Hr1 sym s). rewrite book_of_allocated.
    case_decide; by subst.
  - apply end_engine_resting; try done. by rewrite Hdo.
Qed.

(** The order [CancelOrder] sets to cancelled rests in no book once its
    book has gone through [RemoveOrder]. *)
Lemma CancelOrder_resting orderID e :
  engine_ok e → resting_ok e → resting_ok (CancelOrder orderID e).1.
Proof.
  intros He Hr.
  destruct (AllOrders e !! orderID) as [p|] eqn:Hreg;
    [|unfold CancelOrder; by rewrite Hreg].
  destruct (decide (Status (deref (store e) p) = Filled)) as [Hf|Hf];
    [unfold CancelOrder; by rewrite Hreg, bool_decide_eq_true_2|].
  destruct (decide (Status (deref (store e) p) = Cancelled)) as [Hc|Hc].
  { unfold CancelOrder. rewrite Hreg, bool_decide_eq_false_2 by done.
    by rewrite bool_decide_eq_true_2. }
  rewrite (CancelOrder_eq _ _ _ Hreg Hf Hc). simpl.
  set (symbol := Symbol (deref (store e) p)).
  destruct (book_of_ok e symbol He) as [Hbo _].
  destruct (e_registry _ He _ _ Hreg) as [_ Hpid].
  intros sym s x. simpl.
  rewrite (book_of_insert sym symbol
             (RemoveOrder (store e) orderID (book_of symbol e)).2 e) by done.
  destruct (Orders (book_of symbol e) !! orderID) as [q|] eqn:Hid.
  - destruct (RemoveOrder_resting _ _ _ _ Hbo Hid) as (-> & _ & _ & Hfl).
    simpl. intros Hx.
    assert (x ∈ resting (side_tree s (book_of sym e)) ∧ x ≠ q) as [Hx' Hne].
    { case_decide as Hs.
      - subst sym. rewrite Hfl in Hx. by apply list_elem_of_filter in Hx as [? ?].
      - split; [done|]. intros ->.
        destruct (resting_where _ _ _ _ He Hx) as (? & _).
        pose proof (index_resting _ _ _ _ Hbo Hid) as Hq.
        destruct (resting_where _ _ _ _ He Hq) as (? & _). congruence. }
    rewrite deref_update_ne by done. by apply (Hr sym s).
  - rewrite (RemoveOrder_None _ _ _ Hid). simpl. intros Hx.
    assert (x ∈ resting (side_tree s (book_of sym e))) as Hx'
      by (case_decide; by subst).
    assert (x ≠ p) as Hne.
    { intros ->. destruct (resting_where _ _ _ _ He Hx') as (-> & _ & Hi).
      fold symbol in Hi. congruence. }
    rewrite deref_update_ne by done. by apply (Hr sym s).
Qed.

Lemma GetOrderBookDepth_book symbol depthLimit e sym :
  book_of sym (GetOrderBookDepth symbol depthLimit e).1 = book_of sym e.
Proof.
  unfold GetOrderBookDepth. rewrite getOrderBook_eq. simpl.
  rewrite (book_of_insert sym symbol (book_of symbol e) e) by done.
  case_decide; by subst.
Qed.

Lemma GetOrderBookDepth_store symbol depthLimit e :
  store (GetOrderBookDepth symbol depthLimit e).1 = store e.
Proof. unfold GetOrderBookDepth. by rewrite getOrderBook_eq. Qed.

Lemma step_resting r e e' :
  engine_ok e → request_ok r → resting_ok e → step r e = Some e' →
  resting_ok e'.
Proof.
  intros He Hr Hres Hs.
  destruct r as [id symbol side ty price quantity|id|symbol limit];
    simpl in Hs.
  - destruct (submit id symbol side ty price quantity e) as [[e1 res]|] eqn:Hsub;
      [|done]. injection Hs as <-. destruct Hr as [_ Hq].
    by apply (submit_resting _ _ _ _ _ _ _ _ _ He Hq Hres Hsub).
  - injection Hs as <-. by apply CancelOrder_resting.
  - injection Hs as <-. intros sym s x.
    rewrite GetOrderBookDepth_book, GetOrderBookDepth_store. apply Hres.
Qed.

Lemma run_resting rs e e' :
  engine_ok e → Forall request_ok rs → resting_ok e → run rs e = Some e' →
  resting_ok e'.
Proof.
  revert e. induction rs as [|r rs IH]; intros e He Hrs Hres Hrun;
    simpl in Hrun.
  - by injection Hrun as <-.
  - apply Forall_cons in Hrs as [Hr Hrs].
    destruct (step_ok r e He Hr) as (e1 & Hs & He1). rewrite Hs in Hrun.
    apply (IH e1); try done. by apply (step_resting r e).
Qed.

Lemma reachable_resting e : reachable e → resting_ok e.
Proof.
  intros (rs & Hrs & Hrun).
  apply (run_resting rs NewEngine e NewEngine_ok Hrs); [|done].
  intros sym s x Hx. unfold book_of in Hx. simpl in Hx.
  rewrite lookup_empty in Hx. destruct s; by apply elem_of_nil in Hx.
Qed.

(** X1.  In every state the engine reaches, an order resting in a book is a
    limit order of the symbol of the book and of the side it rests on, with
    a positive remaining quantity; its status is accepted when nothing of
    it is filled and partially filled otherwise.  No market order, filled
    order or cancelled order rests in a book. *)
Theorem resting_orders_open e sym s p :
  reachable e → p ∈ resting (side_tree s (book_of sym e)) →
  let o := deref (store e) p in
  store e !! p = Some o
  ∧ Type_ o = Limit ∧ Symbol o = sym ∧ Side_ o = s
  ∧ 0 < RemainingQuantity o
  ∧ (FilledQuantity o = 0 ∧ Status o = Accepted
     ∨ 0 < FilledQuantity o ∧ Status o = PartialFill).
Proof.
  intros Hr Hp o. pose proof (reachable_ok _ Hr) as He.
  destruct (resting_where _ _ _ _ He Hp) as (Hsym & Hs & _).
  destruct (book_of_resting _ _ _ _ He Hp) as [Hl Hrem].
  destruct (reachable_resting _ Hr _ _ _ Hp) as [Hty Hst].
  pose proof (store_order_ok _ _ (e_store _ He) Hl) as (_ & Hf0 & _).
  split_and!; try done.
  - by apply lookup_deref.
  - fold o in Hst, Hf0. unfold resting_status in Hst.
    destruct (0 <? FilledQuantity o) eqn:Hf.
    + right. by apply Z.ltb_lt in Hf.
    + left. apply Z.ltb_ge in Hf. split; [lia|done].
Qed.

(** ** Orders done *)

Lemma resting_not_done o : resting_order_ok o → ¬ done o.
Proof.
  intros [_ Hst] Hd. unfold resting_status in Hst.
  destruct (0 <? FilledQuantity o); destruct Hd; congruence.
Qed.

(** What a submission leaves alone: the books of the other symbols, and in
    the store every order but those resting on the side it consumes. *)
Lemma submit_leaves id symbol side ty price quantity e e' r :
  engine_ok e → int64 quantity →
  submit id symbol side ty price quantity e = Some (e', r) →
  (∀ sym, sym ≠ symbol → OrderBooks e' !! sym = OrderBooks e !! sym)
  ∧ ∀ p, (p < length (store e))%nat →
      p ∉ resting (side_tree (opposite side) (book_of symbol e)) →
      store e' !! p = store e !! p.
Proof.
  intros He Hq Hs.
  destruct (submit_cases id symbol side ty price quantity e He Hq)
    as (He1 & Hin & Hdo & Hc).
  destruct Hc as [(err & _ & Hs')|[(_ & _ & _ & Hs')|(_ & _ & ts & w' & Hm & Hs')]];
    rewrite Hs' in Hs; injection Hs as <- <-.
  - split; [done|]. intros p Hp _. simpl. by rewrite lookup_app_l.
  - split.
    + intros sym Hne. simpl. by rewrite lookup_insert_ne.
    + intros p Hp _. simpl. by rewrite lookup_app_l.
  - split.
    + intros sym Hne. unfold end_engine. cbn [OrderBooks]. rewrite Hdo.
      simpl. by rewrite lookup_insert_ne.
    + intros p Hp Hnr. rewrite store_end_engine. unfold update.
      rewrite list_lookup_insert_ne by lia.
      destruct (matched_frame _ _ _ _ _ _ Hm (start_world_ok _ _ He1 Hin))
        as (_ & _ & _ & Hf & _).
      rewrite Hf.
      * rewrite mem_start_world. simpl. by rewrite lookup_app_l.
      * lia.
      * rewrite book_start_world, Hdo. simpl. by rewrite book_of_allocated.
Qed.

Lemma step_done r e e' p o :
  engine_ok e → resting_ok e → request_ok r → step r e = Some e' →
  store e !! p = Some o → done o → store e' !! p = Some o.
Proof.
  intros He Hres Hr Hs Hp Hd.
  pose proof (deref_lookup _ _ _ Hp) as Hdp.
  assert (∀ sym s, p ∉ resting (side_tree s (book_of sym e))) as Hnr.
  { intros sym s Hin. apply (resting_not_done o); [|done].
    rewrite <- Hdp. by apply (Hres sym s). }
  destruct r as [id symbol side ty price quantity|orderID|symbol limit];
    simpl in Hs.
  - destruct (submit id symbol side ty price quantity e) as [[e1 res]|] eqn:Hsub;
      [|done]. injection Hs as <-. destruct Hr as [_ Hq].
    destruct (submit_leaves _ _ _ _ _ _ _ _ _ He Hq Hsub) as [_ Hst].
    rewrite Hst; [done|by eapply lookup_lt_Some|apply Hnr].
  - injection Hs as <-.
    destruct (AllOrders e !! orderID) as [q|] eqn:Hreg;
      [|unfold CancelOrder; by rewrite Hreg].
    destruct (decide (Status (deref (store e) q) = Filled)) as [Hf|Hf];
      [unfold CancelOrder; by rewrite Hreg, bool_decide_eq_true_2|].
    destruct (decide (Status (deref (store e) q) = Cancelled)) as [Hc|Hc].
    { unfold CancelOrder. rewrite Hreg, bool_decide_eq_false_2 by done.
      by rewrite bool_decide_eq_true_2. }
    rewrite (CancelOrder_eq _ _ _ Hreg Hf Hc). simpl.
    set (symbol := Symbol (deref (store e) q)).
    destruct (book_of_ok e symbol He) as [Hbo _].
    unfold update. rewrite list_lookup_insert_ne; [done|].
    destruct (Orders (book_of symbol e) !! orderID) as [x|] eqn:Hid.
    + destruct (RemoveOrder_resting _ _ _ _ Hbo Hid) as (-> & _). simpl.
      intros ->. by apply (Hnr symbol _ (index_resting _ _ _ _ Hbo Hid)).
    + rewrite (RemoveOrder_None _ _ _ Hid). simpl. intros ->.
      destruct Hd; congruence.
  - injection Hs as <-. by rewrite GetOrderBookDepth_store.
Qed.

(** X2.  Filled and cancelled are final: an order that is filled or
    cancelled in a state the engine has reached is the same, in every field,
    after any further sequence of submissions, cancellations and depth
    queries. *)
Theorem done_orders_never_change e rs e' p o :
  reachable e → Forall request_ok rs → run rs e = Some e' →
  store e !! p = Some o → Status o = Filled ∨ Status o = Cancelled →
  store e' !! p = Some o.
Proof.
  intros Hr Hrs Hrun Hp Hd.
  pose proof (reachable_ok _ Hr) as He.
  pose proof (reachable_resting _ Hr) as Hres. clear Hr.
  revert e He Hres Hrun Hp.
  induction Hrs as [|r rs Hr Hrs IH]; intros e He Hres Hrun Hp;
    simpl in Hrun.
  - by injection Hrun as <-.
  - destruct (step_ok r e He Hr) as (e1 & Hs & He1). rewrite Hs in Hrun.
    apply (IH e1); try done.
    + by apply (step_resting r e).
    + by apply (step_done r e).
Qed.

(** X3.  A submission, whether it succeeds or is rejected, leaves the books
    of all other symbols as they are, and changes no order of the store
    other than the orders resting on the opposite side of the book of its
    symbol. *)
Theorem submit_frame id symbol side ty price quantity e e' r :
  reachable e → int64 quantity →
  submit id symbol side ty price quantity e = Some (e', r) →
  (∀ sym, sym ≠ symbol → OrderBooks e' !! sym = OrderBooks e !! sym)
  ∧ ∀ p o, store e !! p = Some o →
      p ∉ resting (side_tree (opposite side) (book_of symbol e)) →
      store e' !! p = Some o.
Proof.
  intros He%reachable_ok Hq Hs.
  destruct (submit_leaves _ _ _ _ _ _ _ _ _ He Hq Hs) as [Hb Hst].
  split; [done|]. intros p o Hp Hnr. rewrite Hst; [done| |done].
  by eapply lookup_lt_Some.
Qed.

(** ** The order a submission returns *)

Lemma Validate_None o :
  Validate o = None →
  0 < OriginalQuantity o ∧ (Type_ o = Limit → 0 < Price o).
Proof.
  unfold Validate. intros HV.
  destruct (bool_decide (Type_ o = Limit) && (Price o <=? 0)) eqn:Hp; [done|].
  destruct (OriginalQuantity o <=? 0) eqn:Hq; [done|].
  apply Z.leb_gt in Hq. split; [done|]. intros Hty.
  rewrite bool_decide_eq_true_2 in Hp by done. simpl in Hp.
  by apply Z.leb_gt in Hp.
Qed.

Lemma matched_trades_pos stop s order w ts w' :
  matched stop s order w ts w' → world_ok order w →
  Forall (λ t, 0 < Quantity t) ts.
Proof.
  induction 1 as [w _|w b ts w' Hrem HB Hstop Hm IH]; intros Hw; [done|].
  constructor; [|by apply IH, (executeTrade_ok _ s)].
  rewrite (executeTrade_eq _ _ _ _ Hw Hrem HB). simpl.
  destruct (GetBest_rests _ _ _ _ (w_book _ _ Hw) HB)
    as (k & lvl & r & _ & Hb).
  destruct Hb as (_ & _ & _ & _ & _ & Hbrem). unfold tradeQuantity. lia.
Qed.

Lemma trade_quantities_pos ts :
  Forall (λ t, 0 < Quantity t) ts → ts ≠ [] → 0 < trade_quantities ts.
Proof.
  induction 1 as [|t ts Ht Hts IH]; [done|]. intros _.
  rewrite trade_quantities_cons. destruct ts as [|t' ts'].
  - unfold trade_quantities. simpl. lia.
  - assert (0 < trade_quantities (t' :: ts')) by by apply IH. lia.
Qed.

(** The order a successful submission returns, in closed form. *)
Lemma submit_result id symbol side ty price quantity e e' res :
  engine_ok e → int64 quantity →
  submit id symbol side ty price quantity e = Some (e', Ok res) →
  let o := deref (store e') (ResultOrder res) in
  let total := trade_quantities (Trades res) in
  ResultOrder res = length (store e)
  ∧ store e' !! ResultOrder res = Some o
  ∧ AllOrders e' !! id = Some (ResultOrder res)
  ∧ ident o = (id, symbol, side, ty, price, quantity, time_Now (draws e))
  ∧ FilledQuantity o = total ∧ RemainingQuantity o = quantity - total
  ∧ 0 ≤ total ≤ quantity ∧ 0 < quantity
  ∧ (Trades res = [] → total = 0) ∧ (Trades res ≠ [] → 0 < total)
  ∧ Status o = if 0 <? quantity - total
               then if 0 <? total then PartialFill else Accepted
               else Filled.
Proof.
  intros He Hq Hs o total.
  destruct (submit_success _ _ _ _ _ _ _ _ _ He Hq Hs)
    as (He1 & Hin & Hd & HV & Hres & w' & Hm & He').
  pose proof (start_world_ok _ _ He1 Hin) as Hw0.
  destruct (matched_frame _ _ _ _ _ _ Hm Hw0)
    as (Hw' & Hlen & Hi & _).
  destruct (matched_quantities _ _ _ _ _ _ Hm Hw0)
    as (Hrem & Hfil & _ & Hrem0 & Htq).
  pose proof (matched_trades_pos _ _ _ _ _ _ Hm Hw0) as Hpos.
  rewrite mem_start_world in Hrem, Hfil, Hrem0, Hi.
  specialize (Hi (length (store e))). rewrite Hd in Hrem, Hfil, Hrem0, Hi.
  simpl in Hrem, Hfil, Hrem0.
  destruct (Validate_None _ HV) as [Hq0 _]. simpl in Hq0.
  set (o' := deref (mem w') (length (store e))) in *.
  assert (o = set_Status (final_status o') o') as Ho.
  { unfold o. rewrite Hres, He', store_end_engine.
    rewrite deref_update_eq; [done|apply Hw']. }
  split_and!; try done.
  - apply lookup_deref. rewrite Hres, He', store_end_engine, length_update.
    apply Hw'.
  - rewrite He'. unfold end_engine. cbn [AllOrders]. rewrite Hd.
    cbn [NewOrder ID]. by rewrite lookup_insert_eq, Hres.
  - rewrite Ho. exact Hi.
  - rewrite Ho. simpl. unfold total. lia.
  - rewrite Ho. simpl. unfold total. lia.
  - unfold total. lia.
  - unfold total. by intros ->.
  - by apply (trade_quantities_pos _ Hpos).
  - rewrite Ho. simpl. unfold final_status. by rewrite Hrem, Hfil.
Qed.

(** X4.  The order a successful submission returns is the order submitted:
    its id, symbol, side, type, price and quantity are those of the request.
    Its filled quantity is the sum of the quantities of the trades returned
    and its remaining quantity the rest of the quantity submitted.  Its
    status is accepted exactly when there is no trade, filled exactly when
    the trades add up to the quantity submitted, and partially filled
    otherwise. *)
Theorem submit_result_status e id symbol side ty price quantity e' res :
  reachable e → int64 quantity →
  submit id symbol side ty price quantity e = Some (e', Ok res) →
  let o := deref (store e') (ResultOrder res) in
  let total := trade_quantities (Trades res) in
  store e' !! ResultOrder res = Some o
  ∧ ID o = id ∧ Symbol o = symbol ∧ Side_ o = side ∧ Type_ o = ty
  ∧ Price o = price ∧ OriginalQuantity o = quantity
  ∧ FilledQuantity o = total ∧ RemainingQuantity o = quantity - total
  ∧ 0 ≤ total ≤ quantity
  ∧ (Trades res = [] ↔ Status o = Accepted)
  ∧ (total = quantity ↔ Status o = Filled)
  ∧ (Trades res ≠ [] ∧ total < quantity ↔ Status o = PartialFill).
Proof.
  intros He%reachable_ok Hq Hs o total.
  destruct (submit_result _ _ _ _ _ _ _ _ _ He Hq Hs)
    as (_ & Hl & _ & Hi & Hfil & Hrem & Hrange & Hq0 & Hnil & Hne & Hst).
  fold o in Hl, Hi, Hfil, Hrem, Hst.
  fold total in Hfil, Hrem, Hrange, Hnil, Hne, Hst.
  unfold ident in Hi. injection Hi as ? ? ? ? ? ? ?.
  split_and!; try done; try lia.
  - destruct (decide (Trades res = [])) as [Hn|Hn].
    + specialize (Hnil Hn). rewrite Hst.
      rewrite (proj2 (Z.ltb_lt 0 (quantity - total))) by lia.
      rewrite (proj2 (Z.ltb_ge 0 total)) by lia. done.
    + specialize (Hne Hn). rewrite Hst.
      rewrite (proj2 (Z.ltb_lt 0 total)) by lia.
      destruct (0 <? quantity - total); by split.
  - rewrite Hst. destruct (0 <? quantity - total) eqn:Hlt.
    + apply Z.ltb_lt in Hlt. destruct (0 <? total); split; (done || lia).
    + apply Z.ltb_ge in Hlt. split; [done|lia].
  - rewrite Hst. destruct (0 <? quantity - total) eqn:Hlt.
    + apply Z.ltb_lt in Hlt. destruct (0 <? total) eqn:Ht.
      * apply Z.ltb_lt in Ht. split; [done|]. intros _. split; [|lia].
        intros Hn. specialize (Hnil Hn). lia.
      * apply Z.ltb_ge in Ht. split; [|done]. intros [Hn _].
        specialize (Hne Hn). lia.
    + apply Z.ltb_ge in Hlt. split; [|done]. intros [_ ?]. lia.
Qed.

(** ** The registry *)

Lemma step_registry r e e' id :
  engine_ok e → request_ok r → step r e = Some e' →
  submitted_id r ≠ Some id → AllOrders e' !! id = AllOrders e !! id.
Proof.
  intros He Hr Hs Hne.
  destruct r as [id0 symbol side ty price quantity|orderID|symbol limit];
    simpl in Hs, Hne.
  - assert (id0 ≠ id) as Hid by congruence.
    destruct (submit id0 symbol side ty price quantity e) as [[e1 res]|] eqn:Hsub;
      [|done]. injection Hs as <-. destruct Hr as [_ Hq].
    destruct (submit_cases id0 symbol side ty price quantity e He Hq)
      as (_ & _ & Hdo & Hc).
    destruct Hc as [(err & _ & Hs')|[(_ & _ & _ & Hs')|(_ & _ & ts & w' & Hm & Hs')]];
      rewrite Hs' in Hsub; injection Hsub as <- <-.
    + done.
    + simpl. by rewrite lookup_delete_ne.
    + unfold end_engine. cbn [AllOrders]. rewrite Hdo. simpl.
      by rewrite lookup_insert_ne.
  - injection Hs as <-. unfold CancelOrder.
    destruct (AllOrders e !! orderID) as [q|]; [|done].
    repeat case_bool_decide; try done. rewrite getOrderBook_eq. simpl.
    case_bool_decide; [done|].
    by destruct (RemoveOrder _ _ _) as [[?|] ?].
  - injection Hs as <-. unfold GetOrderBookDepth.
    by rewrite getOrderBook_eq.
Qed.

(** X5.  After a successful submission, [GetOrder] of the id submitted
    returns the order the submission returned, a new order of the store that
    carries this id. *)
Theorem GetOrder_after_submit e id symbol side ty price quantity e' res :
  reachable e → int64 quantity →
  submit id symbol side ty price quantity e = Some (e', Ok res) →
  GetOrder id e' = Ok (ResultOrder res)
  ∧ store e !! ResultOrder res = None
  ∧ ∃ o, store e' !! ResultOrder res = Some o ∧ ID o = id.
Proof.
  intros He%reachable_ok Hq Hs.
  destruct (submit_success _ _ _ _ _ _ _ _ _ He Hq Hs)
    as (He1 & Hin & Hd & HV & Hres & w' & Hm & He').
  pose proof (start_world_ok _ _ He1 Hin) as Hw0.
  destruct (matched_frame _ _ _ _ _ _ Hm Hw0) as (Hw' & _ & Hi & _).
  rewrite mem_start_world in Hi. specialize (Hi (length (store e))).
  rewrite Hd in Hi. split_and!.
  - unfold GetOrder. rewrite He'. unfold end_engine. cbn [AllOrders].
    rewrite Hd. simpl. by rewrite lookup_insert_eq, Hres.
  - rewrite Hres. by apply lookup_ge_None_2.
  - exists (deref (store e') (ResultOrder res)). split.
    + apply lookup_deref.
      rewrite Hres, He', store_end_engine, length_update. apply Hw'.
    + rewrite Hres, He', store_end_engine.
      rewrite deref_update_eq by apply Hw'. simpl.
      by rewrite (ident_ID _ _ Hi).
Qed.

(** X6.  The registry keeps what it has: along any sequence of requests
    that does not submit the id again, [GetOrder] of an id answers after the
    sequence as it did before it, with the same order or with not-found.
    Cancelling or filling an order does not take it out of the registry, and
    an id never submitted is never found. *)
Theorem registry_persists e rs e' id :
  reachable e → Forall request_ok rs → run rs e = Some e' →
  id ∉ submitted_ids rs →
  GetOrder id e' = GetOrder id e.
Proof.
  intros He%reachable_ok Hrs Hrun Hid. unfold GetOrder.
  assert (AllOrders e' !! id = AllOrders e !! id) as ->; [|done].
  revert e He Hrun.
  induction Hrs as [|r rs Hr Hrs IH]; intros e He Hrun; simpl in Hrun.
  - by injection Hrun as <-.
  - destruct (step_ok r e He Hr) as (e1 & Hs & He1). rewrite Hs in Hrun.
    unfold submitted_ids in Hid. simpl in Hid. fold (submitted_ids rs) in Hid.
    rewrite (IH (λ H, Hid ltac:(destruct (submitted_id r); [by right|done]))
               e1 He1 Hrun).
    apply (step_registry r e e1 id He Hr Hs).
    intros Heq. rewrite Heq in Hid. apply Hid. left.
Qed.

(** ** Depth queries *)

(** X7.  A depth query reads: it leaves the store, the registry, the
    counters and the book of every symbol as they are, so that the same
    query asked again reports the same levels.  The depth reported carries
    the symbol asked for, and for a symbol that has no book both sides are
    empty; the query never fails. *)
Theorem GetOrderBookDepth_read_only e symbol depthLimit :
  reachable e →
  let e' := (GetOrderBookDepth symbol depthLimit e).1 in
  let d := (GetOrderBookDepth symbol depthLimit e).2 in
  let d' := (GetOrderBookDepth symbol depthLimit e').2 in
  store e' = store e ∧ AllOrders e' = AllOrders e ∧ metrics e' = metrics e
  ∧ (∀ sym, book_of sym e' = book_of sym e)
  ∧ DepthBids d' = DepthBids d ∧ DepthAsks d' = DepthAsks d
  ∧ DepthSymbol d = symbol
  ∧ (OrderBooks e !! symbol = None → DepthBids d = [] ∧ DepthAsks d = []).
Proof.
  intros He%reachable_ok e' d d'.
  assert (∀ sym, book_of sym e' = book_of sym e) as Hb
    by (intros sym; apply GetOrderBookDepth_book).
  assert (store e' = store e) as Hst by apply GetOrderBookDepth_store.
  unfold d', d, e' in *. clear d d' e'.
  unfold GetOrderBookDepth in *. rewrite !getOrderBook_eq in *.
  simpl in *. rewrite Hb. split_and!; try done.
  - by destruct (book_of_ok e symbol He).
  - intros Hn. unfold book_of. by rewrite Hn.
Qed.

(** ** The counters of a run *)

(** The matching loop moves no counter but the one of resting orders. *)
Lemma executeTrade_counters order b w :
  let m := mtr w in
  let m' := mtr (executeTrade order b w).2 in
  OrdersReceived m' = OrdersReceived m ∧ OrdersMatched m' = OrdersMatched m
  ∧ OrdersCancelled m' = OrdersCancelled m
  ∧ TradesExecuted m' = TradesExecuted m.
Proof. unfold executeTrade. cbv zeta. by case_match. Qed.

Lemma matched_counters stop s order w ts w' :
  matched stop s order w ts w' →
  OrdersReceived (mtr w') = OrdersReceived (mtr w)
  ∧ OrdersMatched (mtr w') = OrdersMatched (mtr w)
  ∧ OrdersCancelled (mtr w') = OrdersCancelled (mtr w)
  ∧ TradesExecuted (mtr w') = TradesExecuted (mtr w).
Proof.
  induction 1 as [w _|w b ts w' Hrem HB Hstop Hm IH]; [done|].
  destruct (executeTrade_counters order b w) as (? & ? & ? & ?).
  destruct IH as (? & ? & ? & ?). split_and!; congruence.
Qed.

Lemma count_trades_counters ts m :
  let n := Z.of_nat (length ts) in
  OrdersReceived (count_trades ts m) = OrdersReceived m
  ∧ OrdersCancelled (count_trades ts m) = OrdersCancelled m
  ∧ TradesExecuted (count_trades ts m) = TradesExecuted m + n
  ∧ OrdersMatched (count_trades ts m)
    = OrdersMatched m + (if 0 <? n then n + 1 else 0).
Proof.
  unfold count_trades. simpl.
  destruct (0 <? Z.of_nat (length ts)); simpl; split_and!; (done || lia).
Qed.

Lemma finalize_counters order w :
  OrdersReceived (mtr (finalize order w)) = OrdersReceived (mtr w)
  ∧ OrdersMatched (mtr (finalize order w)) = OrdersMatched (mtr w)
  ∧ OrdersCancelled (mtr (finalize order w)) = OrdersCancelled (mtr w)
  ∧ TradesExecuted (mtr (finalize order w)) = TradesExecuted (mtr w).
Proof. rewrite finalize_eq. simpl. by case_match. Qed.

(** What one request adds to the counters. *)
Lemma step_counters r e e' :
  engine_ok e → request_ok r → step r e = Some e' →
  let m := metrics e in
  let m' := metrics e' in
  OrdersReceived m'
  = OrdersReceived m + Z.of_nat (length (submitted_ids [r]))
  ∧ TradesExecuted m ≤ TradesExecuted m'
  ∧ TradesExecuted m' - TradesExecuted m ≤ OrdersMatched m' - OrdersMatched m
  ∧ OrdersMatched m' - OrdersMatched m
    ≤ 2 * (TradesExecuted m' - TradesExecuted m)
  ∧ OrdersCancelled m ≤ OrdersCancelled m'
  ∧ OrdersCancelled m'
    ≤ OrdersCancelled m + Z.of_nat (length (omap cancelled_id [r])).
Proof.
  intros He Hr Hs.
  destruct r as [id symbol side ty price quantity|orderID|symbol limit];
    simpl in Hs.
  - destruct (submit id symbol side ty price quantity e) as [[e1 res]|] eqn:Hsub;
      [|done]. injection Hs as <-. destruct Hr as [_ Hq].
    destruct (submit_cases id symbol side ty price quantity e He Hq)
      as (He1 & Hin & Hdo & Hc).
    destruct Hc as [(err & _ & Hs')|[(_ & _ & _ & Hs')|(_ & _ & ts & w' & Hm & Hs')]];
      rewrite Hs' in Hsub; injection Hsub as <- <-.
    + simpl. lia.
    + simpl. lia.
    + destruct (matched_counters _ _ _ _ _ _ Hm) as (Hr1 & Hm1 & Hc1 & Ht1).
      destruct (count_trades_counters ts (mtr w')) as (Hr2 & Hc2 & Ht2 & Hm2).
      destruct (finalize_counters (length (store e))
                  {| mem := mem w'; book := book w';
                     mtr := count_trades ts (mtr w'); clock := clock w' |})
        as (Hr3 & Hm3 & Hc3 & Ht3).
      unfold end_engine. cbn [metrics]. simpl in Hr3, Hm3, Hc3, Ht3.
      simpl in Hr1, Hm1, Hc1, Ht1.
      rewrite Hr3, Hm3, Hc3, Ht3, Hr2, Hc2, Ht2, Hm2, Hr1, Hm1, Hc1, Ht1.
      simpl. destruct (0 <? Z.of_nat (length ts)) eqn:Hn;
        [apply Z.ltb_lt in Hn|apply Z.ltb_ge in Hn]; lia.
  - injection Hs as <-. unfold CancelOrder.
    destruct (AllOrders e !! orderID) as [q|]; [|simpl; lia].
    repeat case_bool_decide; try (simpl; lia). rewrite getOrderBook_eq. simpl.
    case_bool_decide; [simpl; lia|].
    destruct (RemoveOrder _ _ _) as [[?|] ?]; simpl; lia.
  - injection Hs as <-. unfold GetOrderBookDepth.
    rewrite getOrderBook_eq. simpl. lia.
Qed.

(** X8.  The counters after any sequence of requests from the empty engine:
    orders received counts the submissions, rejected ones included; trades
    executed is at most orders matched, which is at most twice the trades
    executed; orders cancelled is at most the number of cancel requests. *)
Theorem counters_of_a_run rs e :
  Forall request_ok rs → run rs NewEngine = Some e →
  OrdersReceived (metrics e) = Z.of_nat (length (submitted_ids rs))
  ∧ 0 ≤ TradesExecuted (metrics e) ≤ OrdersMatched (metrics e)
  ∧ OrdersMatched (metrics e) ≤ 2 * TradesExecuted (metrics e)
  ∧ 0 ≤ OrdersCancelled (metrics e)
      ≤ Z.of_nat (length (omap cancelled_id rs)).
Proof.
  intros Hrs Hrun.
  assert (∀ e0, engine_ok e0 → run rs e0 = Some e →
    OrdersReceived (metrics e)
    = OrdersReceived (metrics e0) + Z.of_nat (length (submitted_ids rs))
    ∧ TradesExecuted (metrics e0) ≤ TradesExecuted (metrics e)
    ∧ TradesExecuted (metrics e) - TradesExecuted (metrics e0)
      ≤ OrdersMatched (metrics e) - OrdersMatched (metrics e0)
    ∧ OrdersMatched (metrics e) - OrdersMatched (metrics e0)
      ≤ 2 * (TradesExecuted (metrics e) - TradesExecuted (metrics e0))
    ∧ OrdersCancelled (metrics e0) ≤ OrdersCancelled (metrics e)
    ∧ OrdersCancelled (metrics e)
      ≤ OrdersCancelled (metrics e0)
        + Z.of_nat (length (omap cancelled_id rs))) as Hgen.
  { clear Hrun. induction Hrs as [|r rs Hr Hrs IH]; intros e0 He0 Hrun;
      simpl in Hrun.
    - injection Hrun as <-. simpl. lia.
    - destruct (step_ok r e0 He0 Hr) as (e1 & Hs & He1). rewrite Hs in Hrun.
      pose proof (step_counters r e0 e1 He0 Hr Hs) as Hc.
      pose proof (IH e1 He1 Hrun) as Hi.
      unfold submitted_ids in *. cbn [omap list_omap] in Hc |- *.
      destruct (submitted_id r), (cancelled_id r); cbn [length] in Hc |- *;
        lia. }
  specialize (Hgen NewEngine NewEngine_ok Hrun). simpl in Hgen. lia.
Qed.

(** ** Passive and aggressive limit orders *)

(** X9.  A limit order that is accepted trades exactly when it crosses: the
    submission returns no trade when the opposite side of the book is empty
    or the price of its best order is beyond the limit (above it for a buy,
    below it for a sell), and at least one trade otherwise. *)
Theorem limit_trades_iff_crossing e id symbol side price quantity e' res :
  reachable e → int64 quantity →
  submit id symbol side Limit price quantity e = Some (e', Ok res) →
  (Trades res = []
   ↔ match GetBest (opposite side) (book_of symbol e) with
     | None => True
     | Some best => no_cross side price (Price (deref (store e) best))
     end).
Proof.
  intros He%reachable_ok Hq Hs.
  destruct (submit_success _ _ _ _ _ _ _ _ _ He Hq Hs)
    as (He1 & Hin & Hd & HV & Hres & w' & Hm & He').
  destruct (Validate_None _ HV) as [Hq0 _]. simpl in Hq0.
  set (e1 := allocated id symbol side Limit price quantity e) in *.
  assert (mem (start_world (length (store e)) e1) = store e1) as Hmem
    by apply mem_start_world.
  assert (book (start_world (length (store e)) e1) = book_of symbol e) as Hbk.
  { rewrite book_start_world, Hd. done. }
  assert (∀ b, GetBest (opposite side) (book_of symbol e) = Some b →
            deref (store e1) b = deref (store e) b) as Hb.
  { intros b HB.
    destruct (GetBest_rests _ _ _ _ (proj1 (book_of_ok e symbol He)) HB)
      as (k & lvl & r & _ & Hl & _).
    by apply deref_app_l. }
  assert (∀ b,
    stop_of (NewOrder id symbol side Limit price quantity (time_Now (draws e)))
      (deref (store e1) (length (store e))) (deref (store e) b) = true
    ↔ no_cross side price (Price (deref (store e) b))) as Hstop.
  { intros b. rewrite Hd. unfold stop_of, no_cross. simpl.
    destruct side; simpl; [apply Z.ltb_lt|]. rewrite Z.gtb_ltb. apply Z.ltb_lt. }
  inversion Hm as [w Hend Hw Hts Hw'|w b ts w'' Hrem HB Hstp Hm' Hw Hts Hw'].
  - split; [intros _|done]. rewrite Hmem, Hbk in Hend.
    destruct Hend as [Hend|[Hend|(b & HB & Hst)]].
    + rewrite Hd in Hend. simpl in Hend. lia.
    + unfold GetBest, tree_Left. by rewrite Hend.
    + rewrite HB. apply Hstop. by rewrite <- (Hb b HB).
  - split; [done|]. rewrite Hbk in HB. rewrite Hmem in Hstp. rewrite HB.
    intros Hnc%Hstop. rewrite <- (Hb b HB) in Hnc. congruence.
Qed.

(** ** The best order of a side *)

(** X10.  In every state the engine reaches, the best order of a side of a
    book is the first of its queue: there is none exactly when no order
    rests on that side, and otherwise no resting bid is priced above the
    best bid and no resting ask below the best ask. *)
Theorem GetBest_best_price e sym s :
  reachable e →
  let ob := book_of sym e in
  GetBest s ob = head (resting (side_tree s ob))
  ∧ ∀ best p, GetBest s ob = Some best → p ∈ resting (side_tree s ob) →
      match s with
      | Buy => Price (deref (store e) p) ≤ Price (deref (store e) best)
      | Sell => Price (deref (store e) best) ≤ Price (deref (store e) p)
      end.
Proof.
  intros He%reachable_ok ob.
  destruct (book_of_ok e sym He) as [Hok _]. fold ob in Hok. split.
  - unfold GetBest, tree_Left.
    destruct (side_tree s ob) as [|[k lvl] r] eqn:Ht; [done|].
    destruct (bk_levels _ _ Hok s k lvl) as (Hnn & _); [rewrite Ht; left|].
    rewrite resting_cons. simpl. by destruct lvl.
  - intros best p HB Hp.
    destruct (GetBest_rests _ _ _ _ Hok HB) as (k & lvl & r & Ht & Hb).
    apply elem_of_resting in Hp as (k' & lvl' & Hel & Hin).
    destruct (bk_levels _ _ Hok _ _ _ Hel) as (_ & _ & Hall).
    destruct (Hall _ Hin) as (_ & _ & Hpk & _).
    destruct Hb as (_ & _ & Hbk & _). rewrite Hpk, Hbk.
    destruct (tree_sorted_head s (side_tree s ob) (k, best :: lvl) (k', lvl')
                (bk_sorted _ _ Hok s)) as [Heq|Hlt].
    + by rewrite Ht.
    + done.
    + injection Heq as -> _. by destruct s.
    + simpl in Hlt. apply side_cmp_lt in Hlt. destruct s; simpl in Hlt; lia.
Qed.

(** ** Submitting and cancelling *)

(** [AddOrder] of an order new to the book puts it in one queue and indexes
    it; without it the queues are what they were. *)
Lemma AddOrder_new_resting h p ob :
  book_ok h ob → Orders ob !! ID (deref h p) = None →
  (∀ s, p ∉ resting (side_tree s ob)) →
  Orders (AddOrder h p ob) !! ID (deref h p) = Some p
  ∧ ∀ s, filter (λ x, x ≠ p) (resting (side_tree s (AddOrder h p ob)))
         = resting (side_tree s ob).
Proof.
  intros Hok Hid Hnot.
  destruct (AddOrder_new _ _ _ Hok Hid) as (t1 & lvl & t2 & Ht & _ & ->).
  split.
  - rewrite Orders_set_side_tree. simpl. by rewrite lookup_insert_eq.
  - intros s. destruct (side_cases (Side_ (deref h p)) s) as [->| ->].
    + specialize (Hnot (Side_ (deref h p))).
      rewrite Ht, (resting_app t1), resting_level_entry in Hnot.
      rewrite side_tree_set, Ht, !(resting_app t1), resting_level_entry,
        resting_cons.
      rewrite !elem_of_app in Hnot.
      rewrite !filter_app, filter_cons_False, filter_nil
        by (intros Hne; by apply Hne).
      rewrite !filter_ne_id by (intros ?; apply Hnot; auto).
      by rewrite app_nil_r.
    + rewrite side_tree_set_opposite, side_tree_set_Orders.
      by apply filter_ne_id.
Qed.

(** X11.  Submitting and cancelling undo each other.  A limit order that is
    accepted without a trade, under an id that no order resting in the book
    of its symbol carries, and is then cancelled under that id, is returned
    cancelled; every queue of every book is then as it was before the
    submission, no earlier order of the store has changed, and the counter
    of resting orders is back to its value. *)
Theorem submit_cancel_roundtrip e id symbol side price quantity e' res :
  reachable e → int64 quantity →
  Orders (book_of symbol e) !! id = None →
  submit id symbol side Limit price quantity e = Some (e', Ok res) →
  Trades res = [] →
  let e2 := (CancelOrder id e').1 in
  (CancelOrder id e').2 = Ok (ResultOrder res)
  ∧ Status (deref (store e2) (ResultOrder res)) = Cancelled
  ∧ (∀ sym s, resting (side_tree s (book_of sym e2))
              = resting (side_tree s (book_of sym e)))
  ∧ (∀ p o, store e !! p = Some o → store e2 !! p = Some o)
  ∧ OrdersInBook (metrics e2) = OrdersInBook (metrics e).
Proof.
  intros He%reachable_ok Hq Hid Hs Hts.
  destruct (submit_success _ _ _ _ _ _ _ _ _ He Hq Hs)
    as (He1 & Hin & Hd & HV & Hres & w' & Hm & He').
  destruct (Validate_None _ HV) as [Hq0 _]. simpl in Hq0.
  set (e1 := allocated id symbol side Limit price quantity e) in *.
  set (order := length (store e)) in *.
  rewrite Hts in Hm, He'.
  assert (w' = start_world order e1) as ->.
  { by inversion Hm. }
  assert (engine_ok e') as He'ok.
  { destruct (submit_ok id symbol side Limit price quantity e He Hq)
      as (e0 & r0 & Hs0 & He0). congruence. }
  pose proof (start_world_ok _ _ He1 Hin) as Hw0.
  assert (order < length (store e1))%nat as Hlt by apply Hin.
  (* the state after the submission *)
  set (h := update (store e1) order (set_Status Accepted)).
  assert (store e' = h) as Hst.
  { rewrite He', store_end_engine, mem_start_world, Hd.
    unfold final_status. simpl.
    by rewrite (proj2 (Z.ltb_lt 0 quantity)) by done. }
  assert (deref h order
          = set_Status Accepted
              (NewOrder id symbol side Limit price quantity
                 (time_Now (draws e)))) as Hdo.
  { unfold h. by rewrite deref_update_eq, Hd. }
  assert (book_ok h (book_of symbol e)) as Hbok.
  { apply book_ok_update_status. apply (book_of_ok e1 symbol He1). }
  assert (book_of symbol e' = AddOrder h order (book_of symbol e)
          ∧ metrics e'
            = IncOrdersInBook (count_trades [] (IncOrdersReceived (metrics e)))
          ∧ AllOrders e' !! id = Some order
          ∧ ∀ sym, sym ≠ symbol → book_of sym e' = book_of sym e)
    as (Hbk & Hmt & Hreg & Hoth).
  { assert (finalize order
              {| mem := mem (start_world order e1);
                 book := book (start_world order e1);
                 mtr := count_trades [] (mtr (start_world order e1));
                 clock := clock (start_world order e1) |}
            = {| mem := h; book := AddOrder h order (book_of symbol e);
                 mtr := IncOrdersInBook
                          (count_trades [] (IncOrdersReceived (metrics e)));
                 clock := S (draws e) |}) as Hfin.
    { rewrite finalize_eq. cbn [mem book mtr clock].
      rewrite mem_start_world, book_start_world, Hd.
      unfold goes_to_book, final_status. cbn [NewOrder RemainingQuantity
        FilledQuantity Type_ Symbol].
      rewrite (proj2 (Z.ltb_lt 0 quantity)) by done.
      rewrite bool_decide_eq_true_2 by done. reflexivity. }
    rewrite He'. split_and!.
    - rewrite end_engine_book, Hd. cbn [NewOrder Symbol].
      rewrite decide_True by done. by rewrite Hfin.
    - unfold end_engine. cbn [metrics]. by rewrite Hfin.
    - unfold end_engine. cbn [AllOrders]. rewrite Hd. cbn [NewOrder ID].
      by rewrite lookup_insert_eq.
    - intros sym Hne. rewrite end_engine_book, Hd. cbn [NewOrder Symbol].
      by rewrite decide_False by done. }
  assert (∀ s, order ∉ resting (side_tree s (book_of symbol e))) as Hfresh.
  { intros s Hin'. destruct (book_of_resting _ _ _ _ He Hin'). unfold order in *.
    lia. }
  assert (Orders (book_of symbol e) !! ID (deref h order) = None) as Hid'
    by by rewrite Hdo.
  destruct (AddOrder_new_resting _ _ _ Hbok Hid' Hfresh) as [Hidx Hfil].
  rewrite Hdo in Hidx. simpl in Hidx. rewrite <- Hbk in Hidx, Hfil.
  (* the cancellation *)
  intros e2. unfold e2.
  assert (Status (deref (store e') order) ≠ Filled) as Hnf
    by (by rewrite Hst, Hdo).
  assert (Status (deref (store e') order) ≠ Cancelled) as Hnc
    by (by rewrite Hst, Hdo).
  rewrite (CancelOrder_eq _ _ _ Hreg Hnf Hnc).
  assert (Symbol (deref (store e') order) = symbol) as ->
    by (by rewrite Hst, Hdo).
  destruct (book_of_ok e' symbol He'ok) as [Hbok' _].
  destruct (RemoveOrder_resting _ _ _ _ Hbok' Hidx) as (Hr1 & _ & _ & Hrem).
  rewrite Hr1. simpl. rewrite Hres. split_and!.
  - done.
  - rewrite deref_update_eq; [done|]. by rewrite Hst; unfold h; rewrite length_update.
  - intros sym s.
    rewrite (book_of_insert sym symbol
               (RemoveOrder (store e') id (book_of symbol e')).2 e') by done.
    case_decide as Hsym.
    + subst sym. by rewrite Hrem, Hfil.
    + by rewrite Hoth.
  - intros p o Hp. pose proof (lookup_lt_Some _ _ _ Hp) as Hpl.
    rewrite Hst. unfold h, update.
    rewrite !list_lookup_insert_ne by (unfold order; lia).
    simpl. by rewrite lookup_app_l.
  - rewrite Hmt. simpl. lia.
Qed.

(** ** Quantities filled on the two sides *)

Lemma filled_on_app s h1 h2 :
  filled_on s (h1 ++ h2) = filled_on s h1 + filled_on s h2.
Proof.
  induction h1 as [|o h1 IH]; [done|].
  change (filled_on s ((o :: h1) ++ h2))
    with ((if decide (Side_ o = s) then FilledQuantity o else 0)
          + filled_on s (h1 ++ h2)).
  change (filled_on s (o :: h1))
    with ((if decide (Side_ o = s) then FilledQuantity o else 0)
          + filled_on s h1).
  lia.
Qed.

Lemma filled_on_insert s (h : list Order) p o' :
  (p < length h)%nat →
  filled_on s (<[p := o']> h)
  = filled_on s h
    - (if decide (Side_ (deref h p) = s)
       then FilledQuantity (deref h p) else 0)
    + (if decide (Side_ o' = s) then FilledQuantity o' else 0).
Proof.
  revert p. induction h as [|o h IH]; intros p Hp; [simpl in Hp; lia|].
  destruct p as [|p].
  - change (filled_on s (<[0%nat := o']> (o :: h)))
      with ((if decide (Side_ o' = s) then FilledQuantity o' else 0)
            + filled_on s h).
    change (filled_on s (o :: h))
      with ((if decide (Side_ o = s) then FilledQuantity o else 0)
            + filled_on s h).
    change (deref (o :: h) 0) with o. lia.
  - change (filled_on s (<[S p := o']> (o :: h)))
      with ((if decide (Side_ o = s) then FilledQuantity o else 0)
            + filled_on s (<[p := o']> h)).
    change (filled_on s (o :: h))
      with ((if decide (Side_ o = s) then FilledQuantity o else 0)
            + filled_on s h).
    change (deref (o :: h) (S p)) with (deref h p).
    rewrite IH by (simpl in Hp; lia). lia.
Qed.

Lemma filled_on_update_status s h p st :
  filled_on s (update h p (set_Status st)) = filled_on s h.
Proof.
  unfold update. destruct (decide (p < length h)%nat) as [Hp|Hp].
  - rewrite filled_on_insert by done. simpl. lia.
  - by rewrite list_insert_ge by lia.
Qed.

Lemma opposite_opposite s : opposite (opposite s) = s.
Proof. by destruct s. Qed.

(** A trade fills the same quantity of a buy order and of a sell order. *)
Lemma filled_on_traded st order b h :
  (order < length h)%nat → (b < length h)%nat → b ≠ order →
  Side_ (deref h order) = opposite (Side_ (deref h b)) →
  filled_on Buy (traded st order b h) - filled_on Sell (traded st order b h)
  = filled_on Buy h - filled_on Sell h.
Proof.
  intros Ho Hb Hne Hs. unfold traded.
  set (q := tradeQuantity h order b).
  assert (deref (<[order := fill q (deref h order)]> h) b = deref h b) as Hdb.
  { unfold deref. by rewrite list_lookup_insert_ne. }
  rewrite !(filled_on_insert _ (<[order := fill q (deref h order)]> h))
    by (by rewrite length_insert).
  rewrite !filled_on_insert by done. rewrite Hdb. simpl.
  destruct (Side_ (deref h order)), (Side_ (deref h b)); try done;
    repeat case_decide; try done; lia.
Qed.

Lemma matched_filled stop s order w ts w' :
  matched stop s order w ts w' → world_ok order w →
  Side_ (deref (mem w) order) = opposite s →
  filled_on Buy (mem w') - filled_on Sell (mem w')
  = filled_on Buy (mem w) - filled_on Sell (mem w).
Proof.
  induction 1 as [w _|w b ts w' Hrem HB Hstop Hm IH]; intros Hw Hs; [done|].
  destruct (GetBest_rests _ _ _ _ (w_book _ _ Hw) HB)
    as (k & lvl & r & Ht & Hb).
  assert (b ≠ order) as Hne.
  { intros ->. apply (w_fresh _ _ Hw s). rewrite Ht, resting_cons. left. }
  destruct Hb as (Hbl & Hbs & _).
  destruct (executeTrade_frame _ _ _ _ Hw Hrem HB) as (_ & Hi & _).
  rewrite IH.
  - rewrite (executeTrade_eq _ _ _ _ Hw Hrem HB). simpl.
    case_bool_decide; simpl; apply filled_on_traded; try done;
      try apply Hw; by rewrite Hbs.
  - by apply (executeTrade_ok _ s).
  - by rewrite (ident_Side _ _ (Hi order)).
Qed.

Lemma step_filled r e e' :
  engine_ok e → request_ok r → step r e = Some e' →
  filled_on Buy (store e') - filled_on Sell (store e')
  = filled_on Buy (store e) - filled_on Sell (store e).
Proof.
  intros He Hr Hs.
  destruct r as [id symbol side ty price quantity|orderID|symbol limit];
    simpl in Hs.
  - destruct (submit id symbol side ty price quantity e) as [[e1 res]|] eqn:Hsub;
      [|done]. injection Hs as <-. destruct Hr as [_ Hq].
    destruct (submit_cases id symbol side ty price quantity e He Hq)
      as (He1 & Hin & Hdo & Hc).
    assert (filled_on Buy (store (allocated id symbol side ty price quantity e))
            - filled_on Sell
                (store (allocated id symbol side ty price quantity e))
            = filled_on Buy (store e) - filled_on Sell (store e)) as Hal.
    { simpl. rewrite !filled_on_app. unfold filled_on at 2 4. simpl.
      repeat case_decide; lia. }
    destruct Hc as [(err & _ & Hs')|[(_ & _ & _ & Hs')|(_ & _ & ts & w' & Hm & Hs')]];
      rewrite Hs' in Hsub; injection Hsub as <- <-.
    + exact Hal.
    + exact Hal.
    + rewrite store_end_engine, !filled_on_update_status.
      rewrite (matched_filled _ _ _ _ _ _ Hm).
      * by rewrite mem_start_world.
      * by apply start_world_ok.
      * by rewrite opposite_opposite, mem_start_world, Hdo.
  - injection Hs as <-. unfold CancelOrder.
    destruct (AllOrders e !! orderID) as [q|]; [|done].
    repeat case_bool_decide; try done. rewrite getOrderBook_eq. simpl.
    case_bool_decide; [done|].
    destruct (RemoveOrder _ _ _) as [[?|] ?]; simpl;
      by rewrite !filled_on_update_status.
  - injection Hs as <-. by rewrite GetOrderBookDepth_store.
Qed.

(** X12.  In every state the engine reaches, the quantities filled of the
    buy orders add up to the quantities filled of the sell orders: every
    trade fills as much of a buyer as of a seller, and nothing else fills an
    order. *)
Theorem filled_buy_equals_filled_sell e :
  reachable e → filled_on Buy (store e) = filled_on Sell (store e).
Proof.
  intros (rs & Hrs & Hrun).
  assert (∀ e0, engine_ok e0 → run rs e0 = Some e →
    filled_on Buy (store e) - filled_on Sell (store e)
    = filled_on Buy (store e0) - filled_on Sell (store e0)) as Hgen.
  { clear Hrun. induction Hrs as [|r rs Hr Hrs IH]; intros e0 He0 Hrun;
      simpl in Hrun.
    - by injection Hrun as <-.
    - destruct (step_ok r e0 He0 Hr) as (e1 & Hs & He1). rewrite Hs in Hrun.
      rewrite (IH e1 He1 Hrun). by apply (step_filled r). }
  specialize (Hgen NewEngine NewEngine_ok Hrun).
  unfold filled_on in Hgen at 3 4. simpl in Hgen. lia.
Qed.

(** ** The text forms of the enumerations *)

Lemma string_last_split (s : string) :
  s ≠ EmptyString →
  ∃ c, String.get (String.length s - 1) s = Some c
       ∧ s = String.substring 0 (String.length s - 1) s
             +:+ String c EmptyString.
Proof.
  induction s as [|a s IH]; [done|]. intros _.
  destruct s as [|b s'].
  - exists a. by split.
  - destruct IH as (c & Hg & Hs); [done|]. exists c.
    replace (String.length (String a (String b s')) - 1)%nat
      with (S (String.length s')) by (simpl; lia).
    replace (String.length (String b s') - 1)%nat
      with (String.length s') in Hg, Hs by (simpl; lia).
    split; [exact Hg|].
    change (String.substring 0 (S (String.length s'))
              (String a (String b s')))
      with (String a (String.substring 0 (String.length s') (String b s'))).
    exact (f_equal (String a) Hs).
Qed.

(** A text that [unquote] changes is the text it returns between double
    quotes. *)
Lemma unquote_cases data :
  unquote data = data ∨ data = quoted (unquote data).
Proof.
  unfold unquote.
  destruct ((2 <=? String.length data)%nat
            && bool_decide (String.get 0 data = Some quote)
            && bool_decide (String.get (String.length data - 1) data
                            = Some quote)) eqn:Hc; [|by left].
  right. apply andb_true_iff in Hc as [Hc Hl].
  apply andb_true_iff in Hc as [Hn Hf].
  apply Nat.leb_le in Hn. apply bool_decide_eq_true in Hf, Hl.
  destruct data as [|a s]; [simpl in Hn; lia|].
  simpl in Hf. injection Hf as ->.
  destruct s as [|b s']; [simpl in Hn; lia|].
  destruct (string_last_split (String b s')) as (c & Hg & Hs); [done|].
  replace (String.length (String quote (String b s')) - 1)%nat
    with (S (String.length s')) in Hl by (simpl; lia).
  replace (String.length (String b s') - 1)%nat
    with (String.length s') in Hg, Hs by (simpl; lia).
  change (String.get (S (String.length s')) (String quote (String b s')))
    with (String.get (String.length s') (String b s')) in Hl.
  assert (c = quote) as -> by congruence.
  replace (String.length (String quote (String b s')) - 2)%nat
    with (String.length s') by (simpl; lia).
  change (String.substring 1 (String.length s')
            (String quote (String b s')))
    with (String.substring 0 (String.length s') (String b s')).
  exact (f_equal (String quote) Hs).
Qed.

(** X13.  The JSON forms of a side and of an order type decode to the value
    encoded, whatever the receiver held, without an error; so do the bare
    texts of [String]. *)
Theorem enum_json_roundtrip (s s0 : Side) (ot ot0 : OrderType) :
  Side_UnmarshalJSON (Side_MarshalJSON s) s0 = (s, None)
  ∧ Side_UnmarshalJSON (Side_String s) s0 = (s, None)
  ∧ OrderType_UnmarshalJSON (OrderType_MarshalJSON ot) ot0 = (ot, None)
  ∧ OrderType_UnmarshalJSON (OrderType_String ot) ot0 = (ot, None).
Proof. by destruct s, ot. Qed.

(** X14.  What the decoders accept.  [UnmarshalJSON] of a side succeeds with
    a value exactly on the text of that value, bare or between double
    quotes, and so does [UnmarshalJSON] of an order type; the match is exact:
    case, spaces and further quotes make an error.  On an error the receiver
    keeps what it held and the message quotes the text read. *)
Theorem enum_json_accepts data :
  (∀ s s0, Side_UnmarshalJSON data s0 = (s, None)
           ↔ data = Side_String s ∨ data = Side_MarshalJSON s)
  ∧ (∀ ot ot0, OrderType_UnmarshalJSON data ot0 = (ot, None)
               ↔ data = OrderType_String ot ∨ data = OrderType_MarshalJSON ot)
  ∧ (∀ s0 s' msg, Side_UnmarshalJSON data s0 = (s', Some msg) →
       s' = s0 ∧ msg = "unknown side: " +:+ unquote data)
  ∧ (∀ ot0 ot' msg, OrderType_UnmarshalJSON data ot0 = (ot', Some msg) →
       ot' = ot0 ∧ msg = "unknown order type: " +:+ unquote data).
Proof.
  split_and!.
  - intros s s0. split.
    + intros Hu. assert (unquote data = Side_String s) as Hus.
      { unfold Side_UnmarshalJSON in Hu. repeat case_decide; by simplify_eq. }
      destruct (unquote_cases data) as [Hd|Hd]; [left; congruence|].
      right. by rewrite Hd, Hus.
    + by intros [->| ->]; destruct s.
  - intros ot ot0. split.
    + intros Hu. assert (unquote data = OrderType_String ot) as Hus.
      { unfold OrderType_UnmarshalJSON in Hu.
        repeat case_decide; by simplify_eq. }
      destruct (unquote_cases data) as [Hd|Hd]; [left; congruence|].
      right. by rewrite Hd, Hus.
    + by intros [->| ->]; destruct ot.
  - intros s0 s' msg. unfold Side_UnmarshalJSON.
    repeat case_decide; by intros [= <- <-].
  - intros ot0 ot' msg. unfold OrderType_UnmarshalJSON.
    repeat case_decide; by intros [= <- <-].
Qed.

(** ** The server *)

Lemma engine_ok_draws e d :
  engine_ok e →
  engine_ok {| OrderBooks := OrderBooks e; AllOrders := AllOrders e;
               metrics := metrics e; store := store e; draws := d |}.
Proof. intros [? ? ?]. by split. Qed.

Lemma executeTrade_clock order b w :
  clock (executeTrade order b w).2 = S (clock w).
Proof. unfold executeTrade. cbv zeta. by case_match. Qed.

Lemma matched_clock stop s order w ts w' :
  matched stop s order w ts w' → (clock w ≤ clock w')%nat.
Proof.
  induction 1 as [w _|w b ts w' Hrem HB Hstop Hm IH]; [done|].
  rewrite executeTrade_clock in IH. lia.
Qed.

Lemma finalize_clock order w : clock (finalize order w) = clock w.
Proof. by rewrite finalize_eq. Qed.

Lemma submit_draws id symbol side ty price quantity e e' r :
  engine_ok e → int64 quantity →
  submit id symbol side ty price quantity e = Some (e', r) →
  (draws e < draws e')%nat.
Proof.
  intros He Hq Hs.
  destruct (submit_cases id symbol side ty price quantity e He Hq)
    as (_ & _ & _ & Hc).
  destruct Hc as [(err & _ & Hs')|[(_ & _ & _ & Hs')|(_ & _ & ts & w' & Hm & Hs')]];
    rewrite Hs' in Hs; injection Hs as <- <-; simpl; try lia.
  rewrite finalize_clock. simpl. apply matched_clock in Hm. simpl in Hm. lia.
Qed.

Lemma CancelOrder_draws orderID e : draws (CancelOrder orderID e).1 = draws e.
Proof.
  unfold CancelOrder. destruct (AllOrders e !! orderID) as [q|]; [|done].
  repeat case_bool_decide; try done. rewrite getOrderBook_eq. simpl.
  case_bool_decide; [done|]. by destruct (RemoveOrder _ _ _) as [[?|] ?].
Qed.

Lemma handleCancelOrder_engine orderID e :
  (handleCancelOrder orderID e).1 = (CancelOrder orderID e).1.
Proof.
  unfold handleCancelOrder.
  destruct (CancelOrder orderID e) as [e1 [p|err]]; [done|].
  by repeat case_decide.
Qed.

Lemma handleGetOrderBook_engine symbol depthParam e :
  ∃ depthVal,
    (handleGetOrderBook symbol depthParam e).1
    = (GetOrderBookDepth symbol depthVal e).1.
Proof.
  unfold handleGetOrderBook.
  set (depthVal := if decide (depthParam = "") then 0
                   else match strconv_Atoi depthParam with
                        | Some n => n
                        | None => 0
                        end).
  exists depthVal. by destruct (GetOrderBookDepth symbol depthVal e) as [e1 d].
Qed.

(** [handleCreateOrder] on a decoded body is a submission under a new draw
    of [uuid.New]. *)
Lemma handleCreateOrder_submit req e e' resp :
  handleCreateOrder (Some req) e = Some (e', resp) →
  ∃ r, submit (uuid_New (draws e)) (ReqSymbol req) (ReqSide req) (ReqType req)
         (ReqPrice req) (ReqQuantity req)
         {| OrderBooks := OrderBooks e; AllOrders := AllOrders e;
            metrics := metrics e; store := store e; draws := S (draws e) |}
       = Some (e', r).
Proof.
  unfold handleCreateOrder.
  destruct (submit _ _ _ _ _ _ _) as [[e1 [res|err]]|]; [| |done].
  - destruct (Status _); intros [= <- _]; by eexists.
  - intros [= <- _]. by eexists.
Qed.

(** What one call keeps, given what it starts from: the engine well-formed,
    and, when [uuid.New] never repeats, the ids distinct. *)
Lemma serve_ok c e e' resp :
  engine_ok e → call_ok c → serve c e = Some (e', resp) →
  engine_ok e'
  ∧ (Inj (=) (=) uuid_New → distinct_ok e → ids_drawn e →
     distinct_ok e' ∧ ids_drawn e').
Proof.
  intros He Hc Hs.
  destruct c as [[req|]|orderID|orderID|symbol depthParam]; simpl in Hs.
  - destruct Hc as [Hp Hq].
    destruct (handleCreateOrder_submit _ _ _ _ Hs) as [r Hsub].
    set (eb := {| OrderBooks := OrderBooks e; AllOrders := AllOrders e;
                  metrics := metrics e; store := store e;
                  draws := S (draws e) |}) in *.
    assert (engine_ok eb) as Heb by by apply engine_ok_draws.
    split.
    { destruct (submit_ok (uuid_New (draws e)) (ReqSymbol req) (ReqSide req)
                  (ReqType req) (ReqPrice req) (ReqQuantity req) eb Heb Hq)
        as (e0 & r0 & Hs0 & He0). congruence. }
    intros Hinj Hd Hdr.
    assert (AllOrders eb !! uuid_New (draws e) = None) as Hfresh.
    { destruct (AllOrders eb !! uuid_New (draws e)) as [p|] eqn:Hreg; [|done].
      destruct (Hdr _ _ Hreg) as (k & Hk & Heq). apply Hinj in Heq. lia. }
    destruct (submit_distinct _ _ _ _ _ _ _ _ _ Heb Hq Hd Hfresh Hsub)
      as [Hd' _].
    pose proof (submit_draws _ _ _ _ _ _ _ _ _ Heb Hq Hsub) as Hlt.
    simpl in Hlt. split; [done|]. intros id p Hreg.
    destruct (decide (id = uuid_New (draws e))) as [->|Hne].
    + exists (draws e). split; [lia|done].
    + rewrite (step_registry
                 (Submit (uuid_New (draws e)) (ReqSymbol req) (ReqSide req)
                    (ReqType req) (ReqPrice req) (ReqQuantity req))
                 eb e' id Heb) in Hreg.
      * destruct (Hdr _ _ Hreg) as (k & Hk & Heq). exists k. split; [lia|done].
      * done.
      * simpl. by rewrite Hsub.
      * simpl. congruence.
  - apply (f_equal (fmap fst)) in Hs. simpl in Hs. injection Hs as <-.
    split; [done|]. by intros _ ? ?.
  - apply (f_equal (fmap fst)) in Hs. simpl in Hs. injection Hs as Hs.
    rewrite handleCancelOrder_engine in Hs. rewrite <- Hs. split.
    + by apply CancelOrder_ok.
    + intros _ Hd Hdr.
      destruct (CancelOrder_distinct orderID e He Hd) as [Hd' Hreg].
      split; [done|]. intros id p. rewrite Hreg, CancelOrder_draws.
      apply Hdr.
  - apply (f_equal (fmap fst)) in Hs. simpl in Hs. injection Hs as <-.
    split; [done|]. by intros _ ? ?.
  - apply (f_equal (fmap fst)) in Hs. simpl in Hs. injection Hs as Hs.
    destruct (handleGetOrderBook_engine symbol depthParam e) as [d Hd].
    rewrite Hd in Hs. rewrite <- Hs. split.
    + by apply GetOrderBookDepth_ok.
    + intros _ Hdi Hdr.
      destruct (GetOrderBookDepth_distinct symbol d e Hdi) as [Hd' Hreg].
      split; [done|]. intros id p. rewrite Hreg. intros Hp.
      destruct (Hdr _ _ Hp) as (k & Hk & Heq). exists k. split; [|done].
      unfold GetOrderBookDepth. rewrite getOrderBook_eq. simpl. lia.
Qed.

Lemma served_ok e :
  served e →
  engine_ok e
  ∧ (Inj (=) (=) uuid_New → distinct_ok e ∧ ids_drawn e).
Proof.
  intros (cs & Hcs & Hrun).
  assert (∀ e0, engine_ok e0 → serve_all cs e0 = Some e →
    engine_ok e
    ∧ (Inj (=) (=) uuid_New → distinct_ok e0 → ids_drawn e0 →
       distinct_ok e ∧ ids_drawn e)) as Hgen.
  { clear Hrun. induction Hcs as [|c cs Hc Hcs IH]; intros e0 He0 Hrun;
      simpl in Hrun.
    - injection Hrun as <-. by split.
    - destruct (serve c e0) as [[e1 resp]|] eqn:Hs; [|done].
      destruct (serve_ok c e0 e1 resp He0 Hc Hs) as [He1 Hd1].
      destruct (IH e1 He1 Hrun) as [He Hd]. split; [done|].
      intros Hinj Hd0 Hdr0. destruct (Hd1 Hinj Hd0 Hdr0). by apply Hd. }
  destruct (Hgen NewEngine NewEngine_ok Hrun) as [He Hd]. split; [done|].
  intros Hinj. apply Hd; [done|apply NewEngine_distinct|].
  intros id p Hp. simpl in Hp. by rewrite lookup_empty in Hp.
Qed.

(** The order [CancelOrder] returns for a registered order that is not
    filled: it carries the id asked for and is cancelled afterwards. *)
Lemma CancelOrder_returned orderID e p :
  engine_ok e → AllOrders e !! orderID = Some p →
  Status (deref (store e) p) ≠ Filled →
  ∃ q, (CancelOrder orderID e).2 = Ok q
       ∧ ID (deref (store (CancelOrder orderID e).1) q) = orderID
       ∧ Status (deref (store (CancelOrder orderID e).1) q) = Cancelled.
Proof.
  intros He Hreg Hf.
  destruct (e_registry _ He _ _ Hreg) as [Hpl Hpid].
  destruct (decide (Status (deref (store e) p) = Cancelled)) as [Hc|Hc].
  { exists p. unfold CancelOrder. rewrite Hreg, bool_decide_eq_false_2 by done.
    by rewrite bool_decide_eq_true_2. }
  rewrite (CancelOrder_eq _ _ _ Hreg Hf Hc). simpl.
  set (symbol := Symbol (deref (store e) p)).
  destruct (book_of_ok e symbol He) as [Hbo _].
  destruct (Orders (book_of symbol e) !! orderID) as [x|] eqn:Hid.
  - destruct (RemoveOrder_resting _ _ _ _ Hbo Hid) as (-> & _). simpl.
    exists x. split; [done|].
    pose proof (index_resting _ _ _ _ Hbo Hid) as Hx.
    destruct (book_of_resting _ _ _ _ He Hx) as [Hxl _].
    destruct (book_ok_index _ _ _ _ Hbo Hid) as [Hxid _].
    by rewrite deref_update_eq.
  - rewrite (RemoveOrder_None _ _ _ Hid). simpl. exists p.
    split; [done|]. by rewrite deref_update_eq.
Qed.

(** X15.  The answers of [handleCancelOrder], in every state of the engine
    behind the server: 404 with the engine untouched when the id is not
    registered; 400 with the engine untouched when the order registered is
    filled; otherwise 200 with the id asked for and the status CANCELLED,
    also when the order was cancelled already. *)
Theorem handleCancelOrder_codes e orderID :
  served e →
  let r := handleCancelOrder orderID e in
  match AllOrders e !! orderID with
  | None => r = (e, (StatusNotFound, ErrorBody "Order not found"))
  | Some p =>
      if decide (Status (deref (store e) p) = Filled)
      then r = (e, (StatusBadRequest,
                    ErrorBody "cannot cancel: order already filled"))
      else r.2 = (StatusOK,
                  CancelBody {| CancelRespOrderID := orderID;
                                CancelRespStatus := "CANCELLED" |})
  end.
Proof.
  intros [He _]%served_ok r. unfold r.
  destruct (AllOrders e !! orderID) as [p|] eqn:Hreg.
  - case_decide as Hf.
    + unfold handleCancelOrder, CancelOrder.
      by rewrite Hreg, bool_decide_eq_true_2.
    + destruct (CancelOrder_returned _ _ _ He Hreg Hf) as (q & Hq & Hid & Hst).
      unfold handleCancelOrder.
      destruct (CancelOrder orderID e) as [e1 res]. simpl in Hq, Hid, Hst.
      subst res. simpl. by rewrite Hid, Hst.
  - unfold handleCancelOrder, CancelOrder. by rewrite Hreg.
Qed.

(** X16.  When [uuid.New] never returns the same id twice, the engine
    behind the server has the ids of its orders distinct: the counter of
    resting orders is the number of orders resting in all the books, and
    [handleCancelOrder] of the id of an order neither filled nor cancelled
    cancels that very order, changing nothing else of the store, and leaves
    it resting in no book. *)
Theorem server_ids_distinct e :
  Inj (=) (=) uuid_New → served e →
  OrdersInBook (metrics e) = Z.of_nat (total_resting e)
  ∧ ∀ orderID p, AllOrders e !! orderID = Some p →
      Status (deref (store e) p) ≠ Filled →
      Status (deref (store e) p) ≠ Cancelled →
      let r := handleCancelOrder orderID e in
      r.2 = (StatusOK,
             CancelBody {| CancelRespOrderID := orderID;
                           CancelRespStatus := "CANCELLED" |})
      ∧ store r.1 = update (store e) p (set_Status Cancelled)
      ∧ ∀ sym s, p ∉ resting (side_tree s (book_of sym r.1)).
Proof.
  intros Hinj Hs. destruct (served_ok e Hs) as [He Hd].
  destruct (Hd Hinj) as [[Hi Hc] _]. split; [done|].
  intros orderID p Hreg Hf Hcn r. unfold r.
  destruct (CancelOrder_live orderID e p He Hi Hreg Hf Hcn)
    as (Hres & Hst & _ & Hfl & _).
  destruct (e_registry _ He _ _ Hreg) as [Hpl Hpid].
  rewrite handleCancelOrder_engine. split_and!.
  - unfold handleCancelOrder.
    destruct (CancelOrder orderID e) as [e1 res]. simpl in Hres, Hst.
    subst res. simpl. rewrite Hst, deref_update_eq by done. simpl.
    by rewrite Hpid.
  - done.
  - intros sym s. rewrite Hfl. intros Hp.
    apply list_elem_of_filter in Hp as [Hp _]. by apply Hp.
Qed.

Lemma trades_response (ts : list Trade) :
  (if (0 <? length ts)%nat then tradeResponse <$> ts else [])
  = tradeResponse <$> ts.
Proof. by destruct ts. Qed.

(** [handleCreateOrder] on a decoded body, from the result of the
    submission it makes. *)
Lemma handleCreateOrder_eq req e e' res :
  submit (uuid_New (draws e)) (ReqSymbol req) (ReqSide req) (ReqType req)
    (ReqPrice req) (ReqQuantity req)
    {| OrderBooks := OrderBooks e; AllOrders := AllOrders e;
       metrics := metrics e; store := store e; draws := S (draws e) |}
  = Some (e', Ok res) →
  let o := deref (store e') (ResultOrder res) in
  let response message filled remaining :=
    {| RespOrderID := ID o; RespStatus := OrderStatus_String (Status o);
       RespMessage := message; RespFilledQuantity := filled;
       RespRemainingQuantity := remaining;
       RespTrades := tradeResponse <$> Trades res |} in
  handleCreateOrder (Some req) e
  = Some (e',
          match Status o with
          | Accepted =>
              (StatusCreated, CreateBody (response "Order added to book" 0 0))
          | PartialFill =>
              (StatusAccepted,
               CreateBody (response "" (FilledQuantity o)
                             (RemainingQuantity o)))
          | Filled =>
              (StatusOK, CreateBody (response "" (FilledQuantity o) 0))
          | Cancelled => (StatusOK, CreateBody (response "" 0 0))
          end).
Proof.
  intros Hs o response. unfold handleCreateOrder. rewrite Hs.
  rewrite trades_response. fold o. by destruct (Status o).
Qed.


(** X18.  An order created is an order found: after [handleCreateOrder]
    answers with a response for an order, [handleGetOrder] of the id of the
    response answers 200 with that id, the symbol, side, type, price and
    quantity of the request, and the status of the response. *)
Theorem create_then_get e req e' code r :
  served e → int64 (ReqPrice req) → int64 (ReqQuantity req) →
  handleCreateOrder (Some req) e = Some (e', (code, CreateBody r)) →
  ∃ g, handleGetOrder (RespOrderID r) e' = (StatusOK, OrderBody g)
       ∧ GetRespOrderID g = RespOrderID r
       ∧ GetRespSymbol g = ReqSymbol req ∧ GetRespSide g = ReqSide req
       ∧ GetRespType g = ReqType req ∧ GetRespPrice g = ReqPrice req
       ∧ GetRespQuantity g = ReqQuantity req
       ∧ GetRespStatus g = RespStatus r
       ∧ 0 ≤ GetRespFilledQuantity g ≤ ReqQuantity req.
Proof.
  intros [He _]%served_ok Hp Hq Hc.
  set (eb := {| OrderBooks := OrderBooks e; AllOrders := AllOrders e;
                metrics := metrics e; store := store e;
                draws := S (draws e) |}).
  assert (engine_ok eb) as Heb by by apply engine_ok_draws.
  destruct (handleCreateOrder_submit _ _ _ _ Hc) as [r0 Hs]. fold eb in Hs.
  destruct r0 as [res|err].
  - destruct (submit_result _ _ _ _ _ _ _ _ _ Heb Hq Hs)
      as (_ & _ & Hreg & Hi & Hfil & _ & Hrange & _).
    rewrite (handleCreateOrder_eq _ _ _ _ Hs) in Hc.
    set (o := deref (store e') (ResultOrder res)) in *.
    assert (RespOrderID r = ID o
            ∧ RespStatus r = OrderStatus_String (Status o)) as [Hrid Hrst].
    { destruct (Status o); by injection Hc as _ <-. }
    unfold ident in Hi. injection Hi as Hid Hsym Hsd Hty Hpr Hqt _.
    eexists. unfold handleGetOrder, GetOrder. rewrite Hrid, Hid, Hreg.
    fold o. split; [done|]. simpl. rewrite Hfil.
    split_and!; try done; lia.
  - unfold handleCreateOrder in Hc. fold eb in Hc. by rewrite Hs in Hc.
Qed.

(** ** Matching ends *)

(** A turn of the loop takes the best order out of the book or leaves the
    incoming order with nothing to fill, so a run makes no more trades than
    orders rest on the side it consumes. *)
Lemma matched_length stop s order w ts w' :
  matched stop s order w ts w' → world_ok order w →
  (length ts ≤ length (resting (side_tree s (book w))))%nat.
Proof.
  induction 1 as [w _|w b ts w' Hrem HB Hstop Hm IH]; intros Hw;
    [simpl; lia|].
  destruct (GetBest_rests _ _ _ _ (w_book _ _ Hw) HB)
    as (k & lvl & r & Ht & Hb).
  assert (b ≠ order) as Hne.
  { intros ->. apply (w_fresh _ _ Hw s). rewrite Ht, resting_cons. left. }
  specialize (IH (executeTrade_ok _ _ _ _ Hw Hrem HB)).
  rewrite (executeTrade_eq _ _ _ _ Hw Hrem HB) in IH, Hm. simpl in IH, Hm.
  rewrite Ht, resting_cons. simpl.
  case_bool_decide as Hle; simpl in IH, Hm.
  - destruct (without_best_side (mem w) _ _ _ _ _ _ Ht) as (Hs & _).
    rewrite Hs, resting_level_entry in IH. lia.
  - destruct (matched_zero _ _ _ _ _ _ Hm) as [-> _]; [|simpl; lia].
    simpl. rewrite deref_traded_incoming by (done || apply Hw).
    unfold fill, tradeQuantity. simpl. lia.
Qed.

(** X19.  Every submission returns: in a state the engine has reached, the
    matching loop of a submission ends, with an error or with a result, and
    the state it leaves is one the engine reaches.  A result has at most as
    many trades as orders were resting on the opposite side of the book. *)
Theorem submit_returns e id symbol side ty price quantity :
  reachable e → int64 price → int64 quantity →
  ∃ e' r,
    submit id symbol side ty price quantity e = Some (e', r)
    ∧ reachable e'
    ∧ ∀ res, r = Ok res →
        (length (Trades res)
         ≤ length (resting (side_tree (opposite side) (book_of symbol e))))%nat.
Proof.
  intros Hr Hp Hq. pose proof (reachable_ok _ Hr) as He.
  destruct (submit_ok id symbol side ty price quantity e He Hq)
    as (e' & r & Hs & _).
  exists e', r. split_and!; [done| |].
  - destruct Hr as (rs & Hrs & Hrun).
    exists (rs ++ [Submit id symbol side ty price quantity]). split.
    + apply Forall_app. split; [done|]. by constructor.
    + clear Hrs He. revert Hrun. generalize NewEngine.
      induction rs as [|r0 rs IH]; intros e0 Hrun; simpl in Hrun |- *.
      * injection Hrun as ->. by rewrite Hs.
      * destruct (step r0 e0) as [e1|]; [|done]. by apply IH.
  - intros res ->.
    destruct (submit_success _ _ _ _ _ _ _ _ _ He Hq Hs)
      as (He1 & Hin & Hd & _ & _ & w' & Hm & _).
    pose proof (matched_length _ _ _ _ _ _ Hm (start_world_ok _ _ He1 Hin))
      as Hlen.
    by rewrite book_start_world, Hd in Hlen.
Qed.
End Engine.

(** ** The theorems at work on example data *)

Ltac example_reachable rs :=
  exists rs; split;
  [ repeat constructor; unfold int64, min_int64, max_int64; lia
  | vm_compute; reflexivity ].

Lemma int64_small z : -1000 ≤ z ≤ 1000 → int64 z.
Proof. unfold int64, min_int64, max_int64. lia. Qed.

Lemma no_crossed_book_witness :
  let e := default NewEngine
             (run example_uuid example_now example_two_sided NewEngine) in
  let ob := book_of "X" e in
  reachable example_uuid example_now e
  ∧ OrderBooks e !! "X" = Some ob
  ∧ GetBestBid ob = Some 0%nat
  ∧ GetBestAsk ob = Some 1%nat
  ∧ Price (deref (store e) 0) < Price (deref (store e) 1).
Proof.
  intros e ob.
  assert (reachable example_uuid example_now e) as Hr
    by example_reachable example_two_sided.
  assert (OrderBooks e !! "X" = Some ob) as Hob by (vm_compute; reflexivity).
  assert (GetBestBid ob = Some 0%nat) as Hb by (vm_compute; reflexivity).
  assert (GetBestAsk ob = Some 1%nat) as Ha by (vm_compute; reflexivity).
  exact (conj Hr (conj Hob (conj Hb (conj Ha
           (no_crossed_book example_uuid example_now e "X" ob 0%nat 1%nat
              Hr Hob Hb Ha))))).
Defined.

Lemma AddOrder_RemoveOrder_roundtrip_witness :
  let e := default NewEngine
             (run example_uuid example_now example_two_sided NewEngine) in
  let ob := book_of "X" e in
  let h := store e ++ [NewOrder "b2" "X" Buy Limit 99 7 2] in
  book_ok h ob
  ∧ Orders ob !! ID (deref h 2) = None
  ∧ RemoveOrder h (ID (deref h 2)) (AddOrder h 2%nat ob) = (Some 2%nat, ob).
Proof.
  intros e ob h.
  assert (reachable example_uuid example_now e) as Hr
    by example_reachable example_two_sided.
  assert (book_ok h ob) as Hok.
  { pose proof (allocated_ok example_now "b2" "X" Buy Limit 99 7 e
                  (reachable_ok _ _ _ Hr)) as [He _].
    { unfold int64, min_int64, max_int64. lia. }
    apply (e_books _ He "X" ob). vm_compute. reflexivity. }
  assert (Orders ob !! ID (deref h 2) = None) as Hid
    by (vm_compute; reflexivity).
  exact (conj Hok (conj Hid
           (AddOrder_RemoveOrder_roundtrip h ob 2%nat Hok Hid))).
Defined.

Lemma submit_validation_and_error_atomicity_witness :
  let e := default NewEngine
             (run example_uuid example_now example_one_bid NewEngine) in
  reachable example_uuid example_now e ∧ int64 0 ∧ int64 10
  ∧ ∃ e' r,
      submit example_uuid example_now "b" "X" Buy Limit 0 10 e = Some (e', r)
      ∧ (r = Err ErrInvalidPrice ↔ Limit = Limit ∧ 0 ≤ 0)
      ∧ (r = Err ErrInvalidQuantity ↔ ¬ (Limit = Limit ∧ 0 ≤ 0) ∧ 10 ≤ 0)
      ∧ ∀ err, r = Err err →
          (∀ sym ob, OrderBooks e !! sym = Some ob →
                     OrderBooks e' !! sym = Some ob)
          ∧ (∀ sym ob, OrderBooks e' !! sym = Some ob →
               OrderBooks e !! sym = Some ob
               ∨ (sym = "X" ∧ ob = NewOrderBook "X"))
          ∧ (∀ p o, store e !! p = Some o → store e' !! p = Some o)
          ∧ AllOrders e' !! "b" ≠ Some (length (store e))
          ∧ (AllOrders e !! "b" = None → AllOrders e' !! "b" = None)
          ∧ (∀ available requested,
               err = ErrInsufficientLiquidity available requested →
               AllOrders e' !! "b" = None).
Proof.
  intros e.
  assert (reachable example_uuid example_now e) as Hr
    by example_reachable example_one_bid.
  assert (int64 0) as H0 by (by apply int64_small).
  assert (int64 10) as H10 by (by apply int64_small).
  exact (conj Hr (conj H0 (conj H10
           (submit_validation_and_error_atomicity example_uuid example_now
              e "b" "X" Buy Limit 0 10 Hr H0 H10)))).
Defined.

(** The claim of C7 as it was stated fails when an id is used again: the
    second order under ["a"] is rejected for its price, and the id is still
    in the registry, held by the first order. *)
Lemma submit_error_registry_counterexample :
  let e := default NewEngine
             (run example_uuid example_now example_one_bid NewEngine) in
  (λ r, (r.2, AllOrders r.1 !! "a"))
    <$> submit example_uuid example_now "a" "X" Buy Limit 0 10 e
  = Some (Err ErrInvalidPrice, Some 0%nat).
Proof. vm_compute. reflexivity. Qed.

Lemma GetOrderBookDepth_spec_witness :
  let e := default NewEngine
             (run example_uuid example_now example_two_sided NewEngine) in
  let ob := book_of "X" e in
  let d := (GetOrderBookDepth example_now "X" 1 e).2 in
  reachable example_uuid example_now e
  ∧ DepthBids d = depth_entry (store e) <$> shown_levels 1 (Bids ob)
  ∧ DepthAsks d = depth_entry (store e) <$> shown_levels 1 (Asks ob)
  ∧ (∀ k lvl, (k, lvl) ∈ Bids ob ++ Asks ob →
       lvl ≠ []
       ∧ (sum_remaining (store e) lvl ≤ max_int64 →
          LevelQuantity (depth_entry (store e) (k, lvl))
          = sum_remaining (store e) lvl))
  ∧ StronglySorted (λ a b, LevelPrice b < LevelPrice a) (DepthBids d)
  ∧ StronglySorted (λ a b, LevelPrice a < LevelPrice b) (DepthAsks d).
Proof.
  intros e ob d.
  assert (reachable example_uuid example_now e) as Hr
    by example_reachable example_two_sided.
  exact (conj Hr (GetOrderBookDepth_spec example_uuid example_now e "X" 1 Hr)).
Defined.

(** The claim of C8 as it was stated fails when the quantities of a level add
    up to more than a signed 64-bit integer holds: the level of the two bids
    of 2^62 is reported with quantity -2^63, while the sum is 2^63. *)
Lemma GetDepth_sum_counterexample :
  let e := default NewEngine
             (run example_uuid example_now example_large_bids NewEngine) in
  DepthBids (GetOrderBookDepth example_now "X" 0 e).2
  = [ {| LevelPrice := 100; LevelQuantity := - 2 ^ 63 |} ]
  ∧ Bids (book_of "X" e) = [ (100, [0%nat; 1%nat]) ]
  ∧ sum_remaining (store e) [0%nat; 1%nat] = 2 ^ 63.
Proof. vm_compute. done. Qed.

Lemma quantity_accounting_witness :
  let e := default NewEngine
             (run example_uuid example_now example_two_sided NewEngine) in
  reachable example_uuid example_now e
  ∧ (∀ p o, store e !! p = Some o → 0 < OriginalQuantity o →
       FilledQuantity o + RemainingQuantity o = OriginalQuantity o
       ∧ 0 ≤ RemainingQuantity o ≤ OriginalQuantity o)
  ∧ (∀ id symbol side ty price quantity e' res,
       int64 quantity →
       submit example_uuid example_now id symbol side ty price quantity e
       = Some (e', Ok res) →
       ∃ o, store e' !! ResultOrder res = Some o ∧ 0 < OriginalQuantity o)
  ∧ (∀ r, request_ok r →
       ∃ e', step example_uuid example_now r e = Some e'
         ∧ ∀ p o, store e !! p = Some o →
             ∃ o', store e' !! p = Some o'
               ∧ OriginalQuantity o' = OriginalQuantity o
               ∧ RemainingQuantity o' ≤ RemainingQuantity o
               ∧ FilledQuantity o ≤ FilledQuantity o').
Proof.
  intros e.
  assert (reachable example_uuid example_now e) as Hr
    by example_reachable example_two_sided.
  exact (conj Hr (quantity_accounting example_uuid example_now e Hr)).
Defined.

Lemma market_all_or_none_witness :
  let e := default NewEngine
             (run example_uuid example_now example_two_sided NewEngine) in
  let total := sum_remaining (store e)
                 (resting (side_tree (opposite Buy) (book_of "X" e))) in
  reachable example_uuid example_now e ∧ int64 3
  ∧ ∃ e' r,
      submit example_uuid example_now "m1" "X" Buy Market 0 3 e = Some (e', r)
      ∧ (total < 3 → r = Err (ErrInsufficientLiquidity total 3))
      ∧ (total ≤ max_int64 →
         ∀ available requested,
           r = Err (ErrInsufficientLiquidity available requested) →
           total < 3)
      ∧ (∀ res, r = Ok res →
           ∃ o, store e' !! ResultOrder res = Some o
             ∧ ID o = "m1"
             ∧ OriginalQuantity o = 3
             ∧ RemainingQuantity o = 0
             ∧ Status o = Filled
             ∧ trade_quantities (Trades res) = 3).
Proof.
  intros e total.
  assert (reachable example_uuid example_now e) as Hr
    by example_reachable example_two_sided.
  assert (int64 3) as H3 by (by apply int64_small).
  exact (conj Hr (conj H3
           (market_all_or_none example_uuid example_now e "m1" "X" Buy 0 3
              Hr H3))).
Defined.

(** The claim of C1 as it was stated fails when the resting quantities add up
    to more than a signed 64-bit integer holds: with two asks of 2^62 resting,
    so 2^63 in all, a market buy of 2^63 - 1 is rejected for insufficient
    liquidity, the pre-scan having wrapped to -2^63. *)
Lemma market_liquidity_counterexample :
  let e := default NewEngine
             (run example_uuid example_now example_large_asks NewEngine) in
  snd <$> submit example_uuid example_now "m1" "X" Buy Market 0 (2 ^ 63 - 1) e
  = Some (Err (ErrInsufficientLiquidity (- 2 ^ 63) (2 ^ 63 - 1)))
  ∧ sum_remaining (store e)
      (resting (side_tree (opposite Buy) (book_of "X" e))) = 2 ^ 63
  ∧ ¬ (2 ^ 63 < 2 ^ 63 - 1).
Proof. vm_compute. split_and!; [done|done|by intros ?]. Qed.


Lemma price_time_priority_witness :
  let e := default NewEngine
             (run example_uuid example_now example_two_sided NewEngine) in
  let r := default (NewEngine, Err ErrNotFound)
             (submit example_uuid example_now "b2" "X" Buy Limit 101 8 e) in
  let res := match r.2 with
             | Ok res => res
             | Err _ => {| ResultOrder := 0%nat; Trades := [] |}
             end in
  let e' := r.1 in
  let ob := book_of "X" e in
  let ob' := book_of "X" e' in
  let queue := resting (side_tree Sell ob) in
  reachable example_uuid example_now e ∧ int64 8
  ∧ submit example_uuid example_now "b2" "X" Buy Limit 101 8 e
    = Some (e', Ok res)
  ∧ StronglySorted (λ k1 k2, k1 < k2) ((side_tree Sell ob).*1)
  ∧ MakerOrderID Buy <$> Trades res
    = (λ p, ID (deref (store e) p)) <$> take (length (Trades res)) queue
  ∧ (∃ n, resting (side_tree Sell ob') = drop n queue
          ∧ (n ≤ length (Trades res) ≤ S n)%nat)
  ∧ (Orders ob !! "b2" = None → Limit = Limit →
     0 < RemainingQuantity (deref (store e') (length (store e))) →
     ∃ t1 lvl t2,
       side_tree Buy ob = t1 ++ level_entry 101 lvl ++ t2
       ∧ side_tree Buy ob' = t1 ++ (101, lvl ++ [length (store e)]) :: t2)
  ∧ (Limit = Limit →
     Forall (λ t, TradePrice t ≤ 101) (Trades res)
     ∧ (RemainingQuantity (deref (store e') (length (store e))) = 0
        ∨ side_tree Sell ob' = []
        ∨ ∃ best, GetBest Sell ob' = Some best
            ∧ 101 < Price (deref (store e') best)))
  ∧ (Limit = Market →
     RemainingQuantity (deref (store e') (length (store e))) = 0
     ∨ side_tree Sell ob' = []).
Proof.
  intros e r res e' ob ob' queue.
  assert (reachable example_uuid example_now e) as Hr
    by example_reachable example_two_sided.
  assert (int64 8) as H8 by (by apply int64_small).
  assert (submit example_uuid example_now "b2" "X" Buy Limit 101 8 e
          = Some (e', Ok res)) as Hs by (vm_compute; reflexivity).
  exact (conj Hr (conj H8 (conj Hs
           (price_time_priority example_uuid example_now e "b2" "X" Buy Limit
              101 8 e' res Hr H8 Hs)))).
Defined.

Ltac example_reachable_distinct rs :=
  exists rs; split_and!;
  [ repeat constructor; unfold int64, min_int64, max_int64; lia
  | apply (bool_decide_unpack _); vm_compute; exact I
  | vm_compute; reflexivity ].

Lemma cancel_protocol_witness :
  let e := default NewEngine
             (run example_uuid example_now example_two_sided NewEngine) in
  let e' := (CancelOrder "b1" e).1 in
  let res := (CancelOrder "b1" e).2 in
  let o := deref (store e) 0 in
  reachable_distinct example_uuid example_now e
  ∧ AllOrders e !! "b1" = Some 0%nat
  ∧ Status o ≠ Filled ∧ Status o ≠ Cancelled
  ∧ res = Ok 0%nat
  ∧ store e' = update (store e) 0 (set_Status Cancelled)
  ∧ AllOrders e' = AllOrders e
  ∧ (∀ sym s,
       resting (side_tree s (book_of sym e'))
       = filter (λ x, x ≠ 0%nat) (resting (side_tree s (book_of sym e))))
  ∧ (∀ sym s, 0%nat ∈ resting (side_tree s (book_of sym e)) →
       sym = Symbol o ∧ s = Side_ o)
  ∧ OrdersCancelled (metrics e') = OrdersCancelled (metrics e) + 1
  ∧ OrdersInBook (metrics e')
    = OrdersInBook (metrics e)
      - (if decide (0%nat ∈ resting (side_tree (Side_ o)
                                       (book_of (Symbol o) e)))
         then 1 else 0).
Proof.
  intros e e' res o.
  assert (reachable_distinct example_uuid example_now e) as Hr
    by example_reachable_distinct example_two_sided.
  assert (AllOrders e !! "b1" = Some 0%nat) as Hreg
    by (vm_compute; reflexivity).
  assert (Status o ≠ Filled) as Hf by (vm_compute; discriminate).
  assert (Status o ≠ Cancelled) as Hc by (vm_compute; discriminate).
  exact (conj Hr (conj Hreg (conj Hf (conj Hc
           (proj2 (proj2 (proj2 (cancel_protocol example_uuid example_now
                                   e "b1") 0%nat Hreg)) Hr Hf Hc))))).
Defined.

(** With the id ["x"] submitted twice, the registry has the second order,
    which is accepted and rests nowhere, and the book has the first:
    [CancelOrder] cancels and returns the first, and the second stays
    accepted. *)
Lemma cancel_shadowed_counterexample :
  let e := default NewEngine
             (run example_uuid example_now example_shadowed NewEngine) in
  let r := CancelOrder "x" e in
  run example_uuid example_now example_shadowed NewEngine = Some e
  ∧ AllOrders e !! "x" = Some 1%nat
  ∧ Status (deref (store e) 1) = Accepted
  ∧ r.2 = Ok 0%nat
  ∧ Status (deref (store r.1) 0) = Cancelled
  ∧ Status (deref (store r.1) 1) = Accepted.
Proof. vm_compute. by split_and!. Qed.

Lemma orders_in_book_counter_witness :
  let e := default NewEngine
             (run example_uuid example_now example_busy NewEngine) in
  reachable_distinct example_uuid example_now e
  ∧ OrdersInBook (metrics e) = Z.of_nat (total_resting e)
  ∧ ∃ rs e', Forall request_ok rs
      ∧ run example_uuid example_now rs NewEngine = Some e'
      ∧ OrdersInBook (metrics e') = Z.of_nat (total_resting e') + 1.
Proof.
  intros e.
  assert (reachable_distinct example_uuid example_now e) as Hr
    by example_reachable_distinct example_busy.
  exact (conj Hr (orders_in_book_counter example_uuid example_now e Hr)).
Defined.

(** ** The further properties at work on example data *)

Ltac example_served cs :=
  exists cs; split;
  [ repeat constructor; unfold int64, min_int64, max_int64; simpl; lia
  | vm_compute; reflexivity ].

Lemma resting_orders_open_witness :
  let e := default NewEngine
             (run example_uuid example_now example_two_sided NewEngine) in
  let o := deref (store e) 0 in
  reachable example_uuid example_now e
  ∧ 0%nat ∈ resting (side_tree Buy (book_of "X" e))
  ∧ store e !! 0%nat = Some o
  ∧ Type_ o = Limit ∧ Symbol o = "X" ∧ Side_ o = Buy
  ∧ 0 < RemainingQuantity o
  ∧ (FilledQuantity o = 0 ∧ Status o = Accepted
     ∨ 0 < FilledQuantity o ∧ Status o = PartialFill).
Proof.
  intros e o.
  assert (reachable example_uuid example_now e) as Hr
    by example_reachable example_two_sided.
  assert (0%nat ∈ resting (side_tree Buy (book_of "X" e))) as Hp
    by (vm_compute; left).
  exact (conj Hr (conj Hp
           (resting_orders_open example_uuid example_now e "X" Buy 0%nat
              Hr Hp))).
Defined.

Lemma done_orders_never_change_witness :
  let e := default NewEngine
             (run example_uuid example_now example_busy NewEngine) in
  let e' := default NewEngine (run example_uuid example_now example_later e) in
  let o := deref (store e) 1 in
  reachable example_uuid example_now e
  ∧ Forall request_ok example_later
  ∧ run example_uuid example_now example_later e = Some e'
  ∧ store e !! 1%nat = Some o
  ∧ (Status o = Filled ∨ Status o = Cancelled)
  ∧ store e' !! 1%nat = Some o.
Proof.
  intros e e' o.
  assert (reachable example_uuid example_now e) as Hr
    by example_reachable example_busy.
  assert (Forall request_ok example_later) as Hrs
    by (repeat constructor; unfold int64, min_int64, max_int64; lia).
  assert (run example_uuid example_now example_later e = Some e') as Hrun
    by (vm_compute; reflexivity).
  assert (store e !! 1%nat = Some o) as Hp by (vm_compute; reflexivity).
  assert (Status o = Filled ∨ Status o = Cancelled) as Hd
    by (right; vm_compute; reflexivity).
  exact (conj Hr (conj Hrs (conj Hrun (conj Hp (conj Hd
           (done_orders_never_change example_uuid example_now e example_later
              e' 1%nat o Hr Hrs Hrun Hp Hd)))))).
Defined.

Lemma submit_frame_witness :
  let e := default NewEngine
             (run example_uuid example_now example_two_sided NewEngine) in
  let r := default (NewEngine, Err ErrNotFound)
             (submit example_uuid example_now "b2" "X" Buy Limit 101 8 e) in
  reachable example_uuid example_now e ∧ int64 8
  ∧ submit example_uuid example_now "b2" "X" Buy Limit 101 8 e
    = Some (r.1, r.2)
  ∧ (∀ sym, sym ≠ "X" → OrderBooks r.1 !! sym = OrderBooks e !! sym)
  ∧ ∀ p o, store e !! p = Some o →
      p ∉ resting (side_tree Sell (book_of "X" e)) →
      store r.1 !! p = Some o.
Proof.
  intros e r.
  assert (reachable example_uuid example_now e) as Hr
    by example_reachable example_two_sided.
  assert (int64 8) as H8 by (by apply int64_small).
  assert (submit example_uuid example_now "b2" "X" Buy Limit 101 8 e
          = Some (r.1, r.2)) as Hs by (vm_compute; reflexivity).
  exact (conj Hr (conj H8 (conj Hs
           (submit_frame example_uuid example_now "b2" "X" Buy Limit 101 8
              e r.1 r.2 Hr H8 Hs)))).
Defined.

Lemma submit_result_status_witness :
  let e := default NewEngine
             (run example_uuid example_now example_two_sided NewEngine) in
  let r := default (NewEngine, Err ErrNotFound)
             (submit example_uuid example_now "b2" "X" Buy Limit 101 8 e) in
  let res := match r.2 with
             | Ok res => res
             | Err _ => {| ResultOrder := 0%nat; Trades := [] |}
             end in
  let e' := r.1 in
  let o := deref (store e') (ResultOrder res) in
  let total := trade_quantities (Trades res) in
  reachable example_uuid example_now e ∧ int64 8
  ∧ submit example_uuid example_now "b2" "X" Buy Limit 101 8 e
    = Some (e', Ok res)
  ∧ store e' !! ResultOrder res = Some o
  ∧ ID o = "b2" ∧ Symbol o = "X" ∧ Side_ o = Buy ∧ Type_ o = Limit
  ∧ Price o = 101 ∧ OriginalQuantity o = 8
  ∧ FilledQuantity o = total ∧ RemainingQuantity o = 8 - total
  ∧ 0 ≤ total ≤ 8
  ∧ (Trades res = [] ↔ Status o = Accepted)
  ∧ (total = 8 ↔ Status o = Filled)
  ∧ (Trades res ≠ [] ∧ total < 8 ↔ Status o = PartialFill).
Proof.
  intros e r res e' o total.
  assert (reachable example_uuid example_now e) as Hr
    by example_reachable example_two_sided.
  assert (int64 8) as H8 by (by apply int64_small).
  assert (submit example_uuid example_now "b2" "X" Buy Limit 101 8 e
          = Some (e', Ok res)) as Hs by (vm_compute; reflexivity).
  exact (conj Hr (conj H8 (conj Hs
           (submit_result_status example_uuid example_now e "b2" "X" Buy
              Limit 101 8 e' res Hr H8 Hs)))).
Defined.

Lemma GetOrder_after_submit_witness :
  let e := default NewEngine
             (run example_uuid example_now example_two_sided NewEngine) in
  let r := default (NewEngine, Err ErrNotFound)
             (submit example_uuid example_now "b2" "X" Buy Limit 101 8 e) in
  let res := match r.2 with
             | Ok res => res
             | Err _ => {| ResultOrder := 0%nat; Trades := [] |}
             end in
  let e' := r.1 in
  reachable example_uuid example_now e ∧ int64 8
  ∧ submit example_uuid example_now "b2" "X" Buy Limit 101 8 e
    = Some (e', Ok res)
  ∧ GetOrder "b2" e' = Ok (ResultOrder res)
  ∧ store e !! ResultOrder res = None
  ∧ ∃ o, store e' !! ResultOrder res = Some o ∧ ID o = "b2".
Proof.
  intros e r res e'.
  assert (reachable example_uuid example_now e) as Hr
    by example_reachable example_two_sided.
  assert (int64 8) as H8 by (by apply int64_small).
  assert (submit example_uuid example_now "b2" "X" Buy Limit 101 8 e
          = Some (e', Ok res)) as Hs by (vm_compute; reflexivity).
  exact (conj Hr (conj H8 (conj Hs
           (GetOrder_after_submit example_uuid example_now e "b2" "X" Buy
              Limit 101 8 e' res Hr H8 Hs)))).
Defined.

Lemma registry_persists_witness :
  let e := default NewEngine
             (run example_uuid example_now example_busy NewEngine) in
  let e' := default NewEngine (run example_uuid example_now example_later e) in
  reachable example_uuid example_now e
  ∧ Forall request_ok example_later
  ∧ run example_uuid example_now example_later e = Some e'
  ∧ ("b2" ∉ submitted_ids example_later)
  ∧ GetOrder "b2" e' = GetOrder "b2" e.
Proof.
  intros e e'.
  assert (reachable example_uuid example_now e) as Hr
    by example_reachable example_busy.
  assert (Forall request_ok example_later) as Hrs
    by (repeat constructor; unfold int64, min_int64, max_int64; lia).
  assert (run example_uuid example_now example_later e = Some e') as Hrun
    by (vm_compute; reflexivity).
  assert ("b2" ∉ submitted_ids example_later) as Hid
    by (apply (bool_decide_unpack _); vm_compute; exact I).
  exact (conj Hr (conj Hrs (conj Hrun (conj Hid
           (registry_persists example_uuid example_now e example_later e'
              "b2" Hr Hrs Hrun Hid))))).
Defined.

Lemma GetOrderBookDepth_read_only_witness :
  let e := default NewEngine
             (run example_uuid example_now example_two_sided NewEngine) in
  let e' := (GetOrderBookDepth example_now "Y" 1 e).1 in
  let d := (GetOrderBookDepth example_now "Y" 1 e).2 in
  let d' := (GetOrderBookDepth example_now "Y" 1 e').2 in
  reachable example_uuid example_now e
  ∧ store e' = store e ∧ AllOrders e' = AllOrders e ∧ metrics e' = metrics e
  ∧ (∀ sym, book_of sym e' = book_of sym e)
  ∧ DepthBids d' = DepthBids d ∧ DepthAsks d' = DepthAsks d
  ∧ DepthSymbol d = "Y"
  ∧ (OrderBooks e !! "Y" = None → DepthBids d = [] ∧ DepthAsks d = []).
Proof.
  intros e e' d d'.
  assert (reachable example_uuid example_now e) as Hr
    by example_reachable example_two_sided.
  exact (conj Hr
           (GetOrderBookDepth_read_only example_uuid example_now e "Y" 1 Hr)).
Defined.

Lemma counters_of_a_run_witness :
  let e := default NewEngine
             (run example_uuid example_now example_busy NewEngine) in
  Forall request_ok example_busy
  ∧ run example_uuid example_now example_busy NewEngine = Some e
  ∧ OrdersReceived (metrics e) = Z.of_nat (length (submitted_ids example_busy))
  ∧ 0 ≤ TradesExecuted (metrics e) ≤ OrdersMatched (metrics e)
  ∧ OrdersMatched (metrics e) ≤ 2 * TradesExecuted (metrics e)
  ∧ 0 ≤ OrdersCancelled (metrics e)
      ≤ Z.of_nat (length (omap cancelled_id example_busy)).
Proof.
  intros e.
  assert (Forall request_ok example_busy) as Hrs
    by (repeat constructor; unfold int64, min_int64, max_int64; lia).
  assert (run example_uuid example_now example_busy NewEngine = Some e)
    as Hrun by (vm_compute; reflexivity).
  exact (conj Hrs (conj Hrun
           (counters_of_a_run example_uuid example_now example_busy e
              Hrs Hrun))).
Defined.

Lemma limit_trades_iff_crossing_witness :
  let e := default NewEngine
             (run example_uuid example_now example_two_sided NewEngine) in
  let r := default (NewEngine, Err ErrNotFound)
             (submit example_uuid example_now "b2" "X" Buy Limit 101 8 e) in
  let res := match r.2 with
             | Ok res => res
             | Err _ => {| ResultOrder := 0%nat; Trades := [] |}
             end in
  reachable example_uuid example_now e ∧ int64 8
  ∧ submit example_uuid example_now "b2" "X" Buy Limit 101 8 e
    = Some (r.1, Ok res)
  ∧ (Trades res = []
     ↔ match GetBest Sell (book_of "X" e) with
       | None => True
       | Some best => no_cross Buy 101 (Price (deref (store e) best))
       end).
Proof.
  intros e r res.
  assert (reachable example_uuid example_now e) as Hr
    by example_reachable example_two_sided.
  assert (int64 8) as H8 by (by apply int64_small).
  assert (submit example_uuid example_now "b2" "X" Buy Limit 101 8 e
          = Some (r.1, Ok res)) as Hs by (vm_compute; reflexivity).
  exact (conj Hr (conj H8 (conj Hs
           (limit_trades_iff_crossing example_uuid example_now e "b2" "X" Buy
              101 8 r.1 res Hr H8 Hs)))).
Defined.

Lemma GetBest_best_price_witness :
  let e := default NewEngine
             (run example_uuid example_now example_busy NewEngine) in
  let ob := book_of "Y" e in
  reachable example_uuid example_now e
  ∧ GetBest Sell ob = head (resting (side_tree Sell ob))
  ∧ ∀ best p, GetBest Sell ob = Some best →
      p ∈ resting (side_tree Sell ob) →
      Price (deref (store e) best) ≤ Price (deref (store e) p).
Proof.
  intros e ob.
  assert (reachable example_uuid example_now e) as Hr
    by example_reachable example_busy.
  exact (conj Hr (GetBest_best_price example_uuid example_now e "Y" Sell Hr)).
Defined.

Lemma submit_cancel_roundtrip_witness :
  let e := default NewEngine
             (run example_uuid example_now example_two_sided NewEngine) in
  let r := default (NewEngine, Err ErrNotFound)
             (submit example_uuid example_now "b3" "X" Buy Limit 98 3 e) in
  let res := match r.2 with
             | Ok res => res
             | Err _ => {| ResultOrder := 0%nat; Trades := [] |}
             end in
  let e' := r.1 in
  let e2 := (CancelOrder "b3" e').1 in
  reachable example_uuid example_now e ∧ int64 3
  ∧ Orders (book_of "X" e) !! "b3" = None
  ∧ submit example_uuid example_now "b3" "X" Buy Limit 98 3 e
    = Some (e', Ok res)
  ∧ Trades res = []
  ∧ (CancelOrder "b3" e').2 = Ok (ResultOrder res)
  ∧ Status (deref (store e2) (ResultOrder res)) = Cancelled
  ∧ (∀ sym s, resting (side_tree s (book_of sym e2))
              = resting (side_tree s (book_of sym e)))
  ∧ (∀ p o, store e !! p = Some o → store e2 !! p = Some o)
  ∧ OrdersInBook (metrics e2) = OrdersInBook (metrics e).
Proof.
  intros e r res e' e2.
  assert (reachable example_uuid example_now e) as Hr
    by example_reachable example_two_sided.
  assert (int64 3) as H3 by (by apply int64_small).
  assert (Orders (book_of "X" e) !! "b3" = None) as Hid
    by (vm_compute; reflexivity).
  assert (submit example_uuid example_now "b3" "X" Buy Limit 98 3 e
          = Some (e', Ok res)) as Hs by (vm_compute; reflexivity).
  assert (Trades res = []) as Hts by (vm_compute; reflexivity).
  exact (conj Hr (conj H3 (conj Hid (conj Hs (conj Hts
           (submit_cancel_roundtrip example_uuid example_now e "b3" "X" Buy
              98 3 e' res Hr H3 Hid Hs Hts)))))).
Defined.

Lemma filled_buy_equals_filled_sell_witness :
  let e := default NewEngine
             (run example_uuid example_now example_busy NewEngine) in
  reachable example_uuid example_now e
  ∧ filled_on Buy (store e) = filled_on Sell (store e).
Proof.
  intros e.
  assert (reachable example_uuid example_now e) as Hr
    by example_reachable example_busy.
  exact (conj Hr
           (filled_buy_equals_filled_sell example_uuid example_now e Hr)).
Defined.

Lemma submit_returns_witness :
  let e := default NewEngine
             (run example_uuid example_now example_two_sided NewEngine) in
  reachable example_uuid example_now e ∧ int64 0 ∧ int64 3
  ∧ ∃ e' r,
      submit example_uuid example_now "m1" "X" Buy Market 0 3 e = Some (e', r)
      ∧ reachable example_uuid example_now e'
      ∧ ∀ res, r = Ok res →
          (length (Trades res)
           ≤ length (resting (side_tree Sell (book_of "X" e))))%nat.
Proof.
  intros e.
  assert (reachable example_uuid example_now e) as Hr
    by example_reachable example_two_sided.
  assert (int64 0) as H0 by (by apply int64_small).
  assert (int64 3) as H3 by (by apply int64_small).
  exact (conj Hr (conj H0 (conj H3
           (submit_returns example_uuid example_now e "m1" "X" Buy Market 0 3
              Hr H0 H3)))).
Defined.

Lemma handleCancelOrder_codes_witness :
  let e := default NewEngine
             (serve_all example_ids example_now example_atoi example_calls
                NewEngine) in
  served example_ids example_now example_atoi e
  ∧ handleCancelOrder "7" e = (e, (StatusNotFound, ErrorBody "Order not found"))
  ∧ handleCancelOrder "2" e
    = (e, (StatusBadRequest, ErrorBody "cannot cancel: order already filled"))
  ∧ (handleCancelOrder "0" e).2
    = (StatusOK, CancelBody {| CancelRespOrderID := "0";
                               CancelRespStatus := "CANCELLED" |}).
Proof.
  intros e.
  assert (served example_ids example_now example_atoi e) as Hs
    by example_served example_calls.
  exact (conj Hs
          (conj (handleCancelOrder_codes example_ids example_now example_atoi
                   e "7" Hs)
          (conj (handleCancelOrder_codes example_ids example_now example_atoi
                   e "2" Hs)
                (handleCancelOrder_codes example_ids example_now example_atoi
                   e "0" Hs)))).
Defined.

Lemma server_ids_distinct_witness :
  let e := default NewEngine
             (serve_all example_ids example_now example_atoi example_calls
                NewEngine) in
  Inj (=) (=) example_ids
  ∧ served example_ids example_now example_atoi e
  ∧ OrdersInBook (metrics e) = Z.of_nat (total_resting e)
  ∧ ∀ orderID p, AllOrders e !! orderID = Some p →
      Status (deref (store e) p) ≠ Filled →
      Status (deref (store e) p) ≠ Cancelled →
      let r := handleCancelOrder orderID e in
      r.2 = (StatusOK,
             CancelBody {| CancelRespOrderID := orderID;
                           CancelRespStatus := "CANCELLED" |})
      ∧ store r.1 = update (store e) p (set_Status Cancelled)
      ∧ ∀ sym s, p ∉ resting (side_tree s (book_of sym r.1)).
Proof.
  intros e.
  assert (Inj (=) (=) example_ids) as Hinj by (unfold example_ids; apply _).
  assert (served example_ids example_now example_atoi e) as Hs
    by example_served example_calls.
  exact (conj Hinj (conj Hs
           (server_ids_distinct example_ids example_now example_atoi e
              Hinj Hs))).
Defined.


Lemma create_then_get_witness :
  let e := default NewEngine
             (serve_all example_ids example_now example_atoi example_calls
                NewEngine) in
  let out := default (NewEngine, (0, ErrorBody "none"))
               (handleCreateOrder example_ids example_now (Some example_ask)
                  e) in
  let r := match out.2.2 with
           | CreateBody r => r
           | _ => {| RespOrderID := "none"; RespStatus := "none";
                     RespMessage := "none"; RespFilledQuantity := 0;
                     RespRemainingQuantity := 0; RespTrades := [] |}
           end in
  served example_ids example_now example_atoi e
  ∧ int64 (ReqPrice example_ask) ∧ int64 (ReqQuantity example_ask)
  ∧ handleCreateOrder example_ids example_now (Some example_ask) e
    = Some (out.1, (out.2.1, CreateBody r))
  ∧ ∃ g, handleGetOrder (RespOrderID r) out.1 = (StatusOK, OrderBody g)
         ∧ GetRespOrderID g = RespOrderID r
         ∧ GetRespSymbol g = ReqSymbol example_ask
         ∧ GetRespSide g = ReqSide example_ask
         ∧ GetRespType g = ReqType example_ask
         ∧ GetRespPrice g = ReqPrice example_ask
         ∧ GetRespQuantity g = ReqQuantity example_ask
         ∧ GetRespStatus g = RespStatus r
         ∧ 0 ≤ GetRespFilledQuantity g ≤ ReqQuantity example_ask.
Proof.
  intros e out r.
  assert (served example_ids example_now example_atoi e) as Hs
    by example_served example_calls.
  assert (int64 (ReqPrice example_ask)) as Hp by (by apply int64_small).
  assert (int64 (ReqQuantity example_ask)) as Hq by (by apply int64_small).
  assert (handleCreateOrder example_ids example_now (Some example_ask) e
          = Some (out.1, (out.2.1, CreateBody r))) as Hc
    by (vm_compute; reflexivity).
  exact (conj Hs (conj Hp (conj Hq (conj Hc
           (create_then_get example_ids example_now example_atoi e
              example_ask out.1 out.2.1 r Hs Hp Hq Hc))))).
Defined.
